(** * ut181a: command-line front end of the UT181A multimeter tool

    A shallow embedding of [src/main.cpp] (class [Program]) and the
    properties of its argument parsing, mode dispatch and cooperative
    cancellation.

    Layout of the development:
    - [CLib]: the C library pieces the program calls ([atoi], the [%d]
      conversion of [printf], GNU [getopt_long]);
    - [Ut181a]: the class [Program], over an abstract [UT181A::Device];
    - [Mock]: concrete devices used to run the program on examples;
    - [Obs]: what is observed of a run (calls, output), and the
      vocabulary the properties are stated in;
    - facts about the library model, the member functions and whole runs,
      first where [POSIXLY_CORRECT] is not set and signals arrive during
      the calls of the device only, then for the program in its
      environment: either ordering of [getopt_long], SIGINT at any time
      once its handler is installed;
    - the properties C1 to C10, the further properties X1 to X20, then
      their instances on examples. *)

From Stdlib Require Import ZArith List String Ascii Bool Lia.
From Stdlib Require Import DecimalString DecimalPos.
Import ListNotations.

Local Open Scope string_scope.
Local Open Scope Z_scope.

Set Implicit Arguments.

(* ===================================================================== *)
(** ** C library                                                          *)
(* ===================================================================== *)

Module CLib.

(** The code of a character, as the [int] a C [char] promotes to. *)
Definition chr (c : ascii) : Z := Z.of_N (N_of_ascii c).

(** [int] is 32 bits wide and [long] 64 bits wide (LP64). *)
Definition INT_MIN : Z := - 2 ^ 31.
Definition LONG_MAX : Z := 2 ^ 63 - 1.
Definition LONG_MIN : Z := - 2 ^ 63.

(** Conversion of a value to [int]: reduction modulo 2^32 into
    [INT_MIN .. INT_MAX]. *)
Definition to_int (z : Z) : Z := (z - INT_MIN) mod 2 ^ 32 + INT_MIN.

(** [isspace] and [isdigit] in the C locale. *)
Definition isspace (c : ascii) : bool :=
  let n := chr c in (n =? 32) || ((9 <=? n) && (n <=? 13)).

Definition isdigit (c : ascii) : bool :=
  let n := chr c in (48 <=? n) && (n <=? 57).

Fixpoint skip_space (s : string) : string :=
  match s with
  | String c s' => if isspace c then skip_space s' else s
  | EmptyString => s
  end.

(** Value of the longest run of decimal digits at the head of [s],
    continuing the accumulator [acc]. *)
Fixpoint digits_value (acc : Z) (s : string) : Z :=
  match s with
  | String c s' =>
      if isdigit c then digits_value (acc * 10 + (chr c - 48)) s' else acc
  | EmptyString => acc
  end.

(** [strtol (s, NULL, 10)]: optional white space, optional sign, decimal
    digits; the value saturates at [LONG_MIN] and [LONG_MAX]; without
    digits the result is 0. *)
Definition strtol (s : string) : Z :=
  let s1 := skip_space s in
  let '(neg, s2) :=
    match s1 with
    | String c r =>
        if Ascii.eqb c "-" then (true, r)
        else if Ascii.eqb c "+" then (false, r)
        else (false, s1)
    | EmptyString => (false, s1)
    end in
  let v := digits_value 0 s2 in
  if neg then (if - v <? LONG_MIN then LONG_MIN else - v)
  else (if LONG_MAX <? v then LONG_MAX else v).

(** glibc: [atoi (s)] is [(int) strtol (s, NULL, 10)]. *)
Definition atoi (s : string) : Z := to_int (strtol s).

(** The text [printf ("%d", z)] writes. *)
Definition fmt_d (z : Z) : string := NilZero.string_of_int (Z.to_int z).

(** *** GNU [getopt_long]

    The model follows glibc's [_getopt_internal_r] and
    [process_long_option] for an option string without a leading ['+'],
    ['-'] or [':'] and without ["W;"], with [opterr] at its default 1 and
    [POSIXLY_CORRECT] unset, so the ordering is [PERMUTE].

    glibc keeps the argument vector in place and moves the non-options it
    skipped behind the options by exchanging blocks of [argv].  The model
    keeps the three blocks apart: the elements already taken as options
    (only their number is kept, in [optind]), the non-options skipped so far
    ([nonopts], the block [argv[first_nonopt .. last_nonopt)]) and the
    elements not yet scanned ([rest]).  When the scan ends (the call that
    returns -1) [optind] is the index of the first non-option in the
    permuted vector and [nonopts] is [argv[optind .. argc)]. *)

Record option_ : Type := Option_ {
  name : string;
  has_arg : Z;
  flag : option nat;          (* [Some i]: address of an int cell; [None]: NULL *)
  val : Z
}.

Definition no_argument : Z := 0.
Definition required_argument : Z := 1.
Definition optional_argument : Z := 2.

(** What [getopt_long] writes to stderr. The wording depends on the
    version and locale of the library, so only the kind is recorded. *)
Inductive getopt_error : Type :=
| InvalidOption (c : ascii)              (* invalid option -- 'c' *)
| MissingArgShort (c : ascii)            (* option requires an argument -- 'c' *)
| Unrecognized (text : string)           (* unrecognized option '--text' *)
| Ambiguous (text : string)              (* option '--text' is ambiguous *)
| NoArgAllowed (name : string)           (* option '--name' doesn't allow an argument *)
| MissingArgLong (name : string).        (* option '--name' requires an argument *)

Record getopt_data : Type := GetoptData {
  optind : Z;
  nonopts : list string;
  rest : list string;
  nextchar : string;            (* rest of the cluster of short options *)
  optarg : option string;
  flag_cells : list (nat * Z)   (* the int cells written through [flag] *)
}.

(** State before the first call: [optind] is 1, [argv[0]] is skipped. *)
Definition getopt_start (argv : list string) : getopt_data :=
  {| optind := 1; nonopts := []; rest := tl argv; nextchar := "";
     optarg := None; flag_cells := [] |}.

Record getopt_result : Type := GetoptResult {
  code : Z;                      (* the value returned *)
  longind : option nat;          (* index stored through [longind], if any *)
  printed : list getopt_error;   (* diagnostics written to stderr *)
  data : getopt_data             (* the library's state after the call *)
}.

(** [NONOPTION_P]: the element does not start with ['-'], or is ["-"]. *)
Definition NONOPTION_P (a : string) : bool :=
  match a with
  | String c (String _ _) => negb (Ascii.eqb c "-")
  | _ => true
  end.

(** The leading non-options of [l], and what follows them. *)
Fixpoint skip_nonoptions (l : list string) : list string * list string :=
  match l with
  | a :: l' =>
      if NONOPTION_P a
      then let '(skipped, l'') := skip_nonoptions l' in (a :: skipped, l'')
      else ([], l)
  | [] => ([], [])
  end.

(** [strchr (optstring, c)]: the tail of [optstring] that starts at the
    first [c]. *)
Fixpoint strchr (optstring : string) (c : ascii) : option string :=
  match optstring with
  | String x s' => if Ascii.eqb x c then Some optstring else strchr s' c
  | EmptyString => None
  end.

(** The character at offset [i] of a C string, ['\0'] at its end. *)
Definition char_at (s : string) (i : nat) : ascii :=
  match String.get i s with Some c => c | None => zero end.

(** Splits the text after ["--"] at the first ['=']: the name, and the
    text after the ['='] when there is one. *)
Fixpoint split_name (s : string) : string * option string :=
  match s with
  | EmptyString => ("", None)
  | String c s' =>
      if Ascii.eqb c "=" then ("", Some s')
      else let '(n, v) := split_name s' in (String c n, v)
  end.

(** First entry of the table (with its index, counted from [i]) that
    satisfies [p]. *)
Fixpoint find_option (p : option_ -> bool) (i : nat) (longopts : list option_)
  : option (nat * option_) :=
  match longopts with
  | o :: l => if p o then Some (i, o) else find_option p (S i) l
  | [] => None
  end.

Definition same_option (a b : option_) : bool :=
  (has_arg a =? has_arg b) &&
  match flag a, flag b with
  | Some i, Some j => Nat.eqb i j
  | None, None => true
  | _, _ => false
  end &&
  (val a =? val b).

Definition set_flag_cell (i : nat) (v : Z) (cells : list (nat * Z)) :=
  (i, v) :: filter (fun kv => negb (Nat.eqb (fst kv) i)) cells.

(** [process_long_option], entered with [text] the element without its
    ["--"], the element itself already counted in [d] ([optind] was not
    yet incremented by glibc at this point; every path below increments
    it). *)
Definition process_long_option (longopts : list option_) (text : string)
    (d : getopt_data) : getopt_result :=
  let '(nm, value) := split_name text in
  let consumed := {| optind := optind d + 1; nonopts := nonopts d;
                     rest := rest d; nextchar := ""; optarg := None;
                     flag_cells := flag_cells d |} in
  let fail e := {| code := chr "?"; longind := None; printed := [e];
                   data := consumed |} in
  let found :=
    match find_option (fun o => String.eqb (name o) nm) 0 longopts with
    | Some io => inl (Some io)                       (* exact match *)
    | None =>
        match find_option (fun o => prefix nm (name o)) 0 longopts with
        | None => inl None
        | Some (i, o) =>
            if forallb (fun p => negb (prefix nm (name p)) || same_option o p)
                 longopts
            then inl (Some (i, o))
            else inr tt                              (* ambiguous *)
        end
    end in
  match found with
  | inr _ => fail (Ambiguous text)
  | inl None => fail (Unrecognized text)
  | inl (Some (i, o)) =>
      let finish (d' : getopt_data) :=
        match flag o with
        | Some cell =>
            {| code := 0; longind := Some i; printed := [];
               data := {| optind := optind d'; nonopts := nonopts d';
                          rest := rest d'; nextchar := "";
                          optarg := optarg d';
                          flag_cells := set_flag_cell cell (val o) (flag_cells d') |} |}
        | None =>
            {| code := val o; longind := Some i; printed := []; data := d' |}
        end in
      match value with
      | Some v =>
          if has_arg o =? 0 then fail (NoArgAllowed (name o))
          else finish {| optind := optind d + 1; nonopts := nonopts d;
                         rest := rest d; nextchar := ""; optarg := Some v;
                         flag_cells := flag_cells d |}
      | None =>
          if has_arg o =? 1 then
            match rest d with
            | a :: r =>
                finish {| optind := optind d + 2; nonopts := nonopts d;
                          rest := r; nextchar := ""; optarg := Some a;
                          flag_cells := flag_cells d |}
            | [] => fail (MissingArgLong (name o))
            end
          else finish consumed
      end
  end.

(** The next short option of a cluster: [c] is the option character and
    [more] what follows it in the same element.  The element was counted
    in [optind] when the cluster was entered. *)
Definition short_option (optstring : string) (c : ascii) (more : string)
    (d : getopt_data) : getopt_result :=
  let next nc oa r extra :=
    {| optind := optind d + extra; nonopts := nonopts d; rest := r;
       nextchar := nc; optarg := oa; flag_cells := flag_cells d |} in
  match strchr optstring c with
  | None =>
      {| code := chr "?"; longind := None; printed := [InvalidOption c];
         data := next more None (rest d) 0 |}
  | Some temp =>
      if Ascii.eqb c ":" || Ascii.eqb c ";" then
        {| code := chr "?"; longind := None; printed := [InvalidOption c];
           data := next more None (rest d) 0 |}
      else if Ascii.eqb (char_at temp 1) ":" then
        if Ascii.eqb (char_at temp 2) ":" then
          (* an option that accepts an argument optionally *)
          {| code := chr c; longind := None; printed := [];
             data := next "" (match more with
                              | EmptyString => None
                              | _ => Some more
                              end) (rest d) 0 |}
        else
          (* an option that requires an argument *)
          match more with
          | String _ _ =>
              {| code := chr c; longind := None; printed := [];
                 data := next "" (Some more) (rest d) 0 |}
          | EmptyString =>
              match rest d with
              | [] =>
                  {| code := chr "?"; longind := None;
                     printed := [MissingArgShort c];
                     data := next "" None [] 0 |}
              | a :: r =>
                  {| code := chr c; longind := None; printed := [];
                     data := next "" (Some a) r 1 |}
              end
          end
      else
        {| code := chr c; longind := None; printed := [];
           data := next more None (rest d) 0 |}
  end.

(** One call of [getopt_long (argc, argv, optstring, longopts, &longind)]
    under the default ordering, the one the library takes when
    [POSIXLY_CORRECT] is not set; [getopt_long_in] below is the call under
    either ordering. *)
Definition getopt_long (argc : Z) (optstring : string)
    (longopts : list option_) (d : getopt_data) : getopt_result :=
  if argc <? 1 then
    {| code := -1; longind := None; printed := []; data := d |}
  else
    match nextchar d with
    | String c more =>
        short_option optstring c more
          {| optind := optind d; nonopts := nonopts d; rest := rest d;
             nextchar := nextchar d; optarg := None;
             flag_cells := flag_cells d |}
    | EmptyString =>
        (* advance to the next element, skipping the non-options *)
        let '(skipped, l) := skip_nonoptions (rest d) in
        let d1 := {| optind := optind d; nonopts := nonopts d ++ skipped;
                     rest := l; nextchar := ""; optarg := None;
                     flag_cells := flag_cells d |} in
        match l with
        | [] => {| code := -1; longind := None; printed := []; data := d1 |}
        | a :: l' =>
            if String.eqb a "--" then
              (* everything after it is a non-option *)
              {| code := -1; longind := None; printed := [];
                 data := {| optind := optind d + 1;
                            nonopts := nonopts d ++ skipped ++ l';
                            rest := []; nextchar := ""; optarg := None;
                            flag_cells := flag_cells d |} |}
            else
              let d2 := {| optind := optind d; nonopts := nonopts d ++ skipped;
                           rest := l'; nextchar := ""; optarg := None;
                           flag_cells := flag_cells d |} in
              match a with
              | String _ (String c more) =>
                  if Ascii.eqb c "-" then
                    (* "--text" is always a long option *)
                    process_long_option longopts more d2
                  else
                    short_option optstring c more
                      {| optind := optind d + 1; nonopts := nonopts d2;
                         rest := l'; nextchar := ""; optarg := None;
                         flag_cells := flag_cells d |}
              | _ => (* excluded by [NONOPTION_P] *)
                  {| code := -1; longind := None; printed := []; data := d1 |}
              end
        end
    end.

(** *** The ordering of the scan

    [_getopt_initialize] fixes how the scan treats the non-options.  The
    option string of the program starts with neither ['+'] nor ['-'], so
    the ordering is [REQUIRE_ORDER] when the environment variable
    [POSIXLY_CORRECT] is set, and [PERMUTE] when it is not. *)
Inductive ordering : Type :=
| REQUIRE_ORDER     (* the scan ends at the first non-option *)
| PERMUTE.          (* the non-options are skipped and moved behind the options *)

(** One call of [getopt_long] under the ordering [o].  Under
    [REQUIRE_ORDER] nothing is skipped, and the call that meets a
    non-option returns -1 and leaves [optind] on it: [rest] is then
    [argv[optind .. argc)].  Under [PERMUTE] this is [getopt_long] above
    ([getopt_long_in_PERMUTE]). *)
Definition getopt_long_in (o : ordering) (argc : Z) (optstring : string)
    (longopts : list option_) (d : getopt_data) : getopt_result :=
  if argc <? 1 then
    {| code := -1; longind := None; printed := []; data := d |}
  else
    match nextchar d with
    | String c more =>
        short_option optstring c more
          {| optind := optind d; nonopts := nonopts d; rest := rest d;
             nextchar := nextchar d; optarg := None;
             flag_cells := flag_cells d |}
    | EmptyString =>
        let '(skipped, l) :=
          match o with
          | PERMUTE => skip_nonoptions (rest d)
          | REQUIRE_ORDER => ([], rest d)
          end in
        let d1 := {| optind := optind d; nonopts := nonopts d ++ skipped;
                     rest := l; nextchar := ""; optarg := None;
                     flag_cells := flag_cells d |} in
        match l with
        | [] => {| code := -1; longind := None; printed := []; data := d1 |}
        | a :: l' =>
            if String.eqb a "--" then
              {| code := -1; longind := None; printed := [];
                 data := {| optind := optind d + 1;
                            nonopts := nonopts d ++ skipped ++ l';
                            rest := []; nextchar := ""; optarg := None;
                            flag_cells := flag_cells d |} |}
            else if NONOPTION_P a then
              (* a non-option that was not skipped ends the scan *)
              {| code := -1; longind := None; printed := []; data := d1 |}
            else
              let d2 := {| optind := optind d; nonopts := nonopts d ++ skipped;
                           rest := l'; nextchar := ""; optarg := None;
                           flag_cells := flag_cells d |} in
              match a with
              | String _ (String c more) =>
                  if Ascii.eqb c "-" then
                    process_long_option longopts more d2
                  else
                    short_option optstring c more
                      {| optind := optind d + 1; nonopts := nonopts d2;
                         rest := l'; nextchar := ""; optarg := None;
                         flag_cells := flag_cells d |}
              | _ =>
                  {| code := -1; longind := None; printed := []; data := d1 |}
              end
        end
    end.

(** The work left to the scan: one per character of the current cluster
    and of each element not yet scanned, one more per such element. *)
Fixpoint measure_list (l : list string) : nat :=
  match l with
  | a :: l' => S (String.length a) + measure_list l'
  | [] => 0
  end.

Definition getopt_measure (d : getopt_data) : nat :=
  String.length (nextchar d) + measure_list (rest d).

(** The number of elements accounted for: [argv[0]] and those taken as
    options, those skipped as non-options, those not yet scanned. *)
Definition accounted (d : getopt_data) : Z :=
  optind d + Z.of_nat (List.length (nonopts d))
  + Z.of_nat (List.length (rest d)).

(** The state of the scan had the command line been longer by [post]. *)
Definition append_rest (post : list string) (d : getopt_data) : getopt_data :=
  {| optind := optind d; nonopts := nonopts d; rest := rest d ++ post;
     nextchar := nextchar d; optarg := optarg d; flag_cells := flag_cells d |}.

Definition append_rest_result (post : list string) (r : getopt_result)
  : getopt_result :=
  {| code := code r; longind := longind r; printed := printed r;
     data := append_rest post (data r) |}.

End CLib.

(* ===================================================================== *)
(** ** The program                                                        *)
(* ===================================================================== *)

Module Ut181a.
Import CLib.

(** *** The device and the interrupt *)

(** What a call into [UT181A::Device] gives back: its C++ result, the
    device afterwards, and whether SIGINT was delivered to the process
    while the call ran. *)
Record reply (D R : Type) : Type := Reply {
  result : R;
  device : D;
  sigint : bool
}.

(** Modelled from the spec: the interface of [UT181A::Device], declared in
    [ut181a.h], outside [main.cpp].  [Monitor],
    [ListRecord] and [ReceiveRecord] are handed [quit_flag] and only read
    it; its value at the time of the call is their first argument here.
    The behaviour of the device is left open: every property below holds
    for every device. *)
Record Device (D : Type) : Type := {
  Open : option string -> D -> reply D bool;
  Close : D -> reply D unit;
  Monitor : Z -> D -> reply D bool;
  ListRecord : Z -> D -> reply D unit;
  ReceiveRecord : Z -> Z -> D -> reply D unit   (* index, quit_flag *)
}.

Definition SIGINT : Z := 2.

(** What the process does that can be observed, in the order it happens.
    A call of the device is recorded when it is entered, with the value of
    [quit_flag] it was given and what it returned; [Sigint] is recorded
    where a SIGINT runs the handler: right after a call for a signal
    delivered while that call ran.  [Poll] writes nothing and calls
    nothing: it marks the test [if (quit_flag)] at the head of the loop of
    [Run], with the value read, so that the signals can be placed with
    respect to it. *)
Inductive event : Type :=
| Stdout (text : string)
| Stderr (text : string)
| GetoptStderr (e : getopt_error)
| CallOpen (serial : option string) (ok : bool)
| CallClose
| CallMonitor (quit : Z) (ok : bool)
| CallListRecord (quit : Z)
| CallReceiveRecord (index : Z) (quit : Z)
| Sigint
| Poll (quit : Z).

(** *** Static data of [Program] *)

Definition version_info : string := "ut181a ver 0.2 (12/16/2017), loblab".

Definition nl : string := String (ascii_of_nat 10) EmptyString.

Definition help_msg : string :=
  "UT181A USB communication tool" ++ nl ++
  "Usage: ut181a [options] [id1] [id2] ..." ++ nl ++
  "Options:" ++ nl ++
  "    -h|--help   : help message" ++ nl ++
  "    -v|--version: version info" ++ nl ++
  "    -s|--serial : specify serial string if multiple devices connected" ++ nl ++
  "    -m|--monitor: monitor mode (realtime measurement & transfer)" ++ nl ++
  "    -l|--list   : list records" ++ nl ++
  "    -d|--debug n: debug info level. default 0 for none, greater for more" ++ nl ++
  "id1, id2...:" ++ nl ++
  "    record index to dump (as CSV file)" ++ nl.

Definition short_options : string := "hvd:s:ml".

Definition long_options : list option_ :=
  [ Option_ "help"    no_argument       None (chr "h");
    Option_ "version" no_argument       None (chr "v");
    Option_ "debug"   required_argument None (chr "d");
    Option_ "serial"  required_argument None (chr "s");
    Option_ "monitor" required_argument None (chr "m");
    Option_ "list"    required_argument None (chr "l") ].

(** The anonymous struct [m_args]. [items] is the array of [item_count]
    strings, the empty list while the pointer is NULL. *)
Record args : Type := Args {
  list_ : bool;
  monitor : bool;
  debug : Z;
  serial : option string;
  item_count : Z;
  items : list string
}.

Section WithDevice.

Variable D : Type.
Variable dev : Device D.

(** The members of [Program], the static [quit_flag], the global [g_debug]
    of [debug.h], and what the process has done so far. *)
Record state : Type := State {
  m_dmm : D;
  m_args : args;
  quit_flag : Z;
  g_debug : Z;
  trace : list event
}.

(** [Program::Program ()], with the static initialisers.  [g_debug] is
    defined outside [main.cpp]; it is taken to start at 0, and [Main] sets
    it before anything reads it on a path where its value matters. *)
Definition Program (dmm : D) : state :=
  {| m_dmm := dmm;
     m_args := {| list_ := false; monitor := false; debug := 0;
                  serial := None; item_count := 0; items := [] |};
     quit_flag := 0;
     g_debug := 0;
     trace := [] |}.

(** *** A state monad for the member functions *)

Definition M (A : Type) : Type := state -> A * state.

Definition ret {A} (a : A) : M A := fun st => (a, st).

Definition bind {A B} (m : M A) (k : A -> M B) : M B :=
  fun st => let '(a, st') := m st in k a st'.

Notation "x <- m ;; k" := (bind m (fun x => k))
  (at level 61, m at next level, right associativity).
Notation "m ;; k" := (bind m (fun _ => k))
  (at level 61, right associativity).

Definition get {A} (f : state -> A) : M A := fun st => (f st, st).

Definition emit (e : event) : M unit :=
  fun st => (tt, {| m_dmm := m_dmm st; m_args := m_args st;
                    quit_flag := quit_flag st; g_debug := g_debug st;
                    trace := trace st ++ [e] |}).

Definition emit_all (es : list event) : M unit :=
  fun st => (tt, {| m_dmm := m_dmm st; m_args := m_args st;
                    quit_flag := quit_flag st; g_debug := g_debug st;
                    trace := trace st ++ es |}).

Definition printf (text : string) : M unit := emit (Stdout text).
Definition fprintf_stderr (text : string) : M unit := emit (Stderr text).

Definition set_args (a : args) : M unit :=
  fun st => (tt, {| m_dmm := m_dmm st; m_args := a;
                    quit_flag := quit_flag st; g_debug := g_debug st;
                    trace := trace st |}).

Definition set_g_debug (n : Z) : M unit :=
  fun st => (tt, {| m_dmm := m_dmm st; m_args := m_args st;
                    quit_flag := quit_flag st; g_debug := n;
                    trace := trace st |}).

Definition when (b : bool) (m : M unit) : M unit := if b then m else ret tt.

(** [Program::SignalHandler]. *)
Definition SignalHandler (signal : Z) : M unit :=
  fun st => (tt, {| m_dmm := m_dmm st; m_args := m_args st;
                    quit_flag := signal; g_debug := g_debug st;
                    trace := trace st |}).

(** A call of a member of [m_dmm]: the call is recorded, the device moves
    on, and a SIGINT delivered meanwhile runs the handler.  A SIGINT that
    arrives between two calls is the matter of [arrive] below. *)
Definition call {R} (f : D -> reply D R) (ev : R -> event) : M R :=
  fun st =>
    let r := f (m_dmm st) in
    let st1 := {| m_dmm := device r; m_args := m_args st;
                  quit_flag := quit_flag st; g_debug := g_debug st;
                  trace := trace st ++ [ev (result r)] |} in
    if sigint r
    then (emit Sigint ;; SignalHandler SIGINT ;; ret (result r)) st1
    else (result r, st1).

(** *** Member functions *)

(** [Program::Help]. *)
Definition Help : M Z := printf help_msg ;; ret 1.

(** [Program::Version]. *)
Definition Version : M Z := printf (version_info ++ nl) ;; ret 2.

(** The body of the [switch] in [ParseArguments] for one value returned by
    [getopt_long]: [Some rc] when the case returns [rc] from the function,
    [None] when it breaks out of the switch. *)
Definition ParseArguments_switch (r : getopt_result) : M (option Z) :=
  let c := code r in
  let optarg := optarg (data r) in
  let option_index := match longind r with Some i => i | None => 0%nat end in
  let entry := nth option_index long_options (Option_ "" 0 None 0) in
  if c =? 0 then
    match flag entry with
    | Some _ => ret None
    | None =>
        printf ("option " ++ name entry) ;;
        match optarg with
        | Some a => printf (" with arg " ++ a)
        | None => ret tt
        end ;;
        printf nl ;;
        ret None
    end
  else if c =? chr "h" then
    rc <- Help ;; ret (Some rc)
  else if c =? chr "v" then
    rc <- Version ;; ret (Some rc)
  else if c =? chr "m" then
    a <- get m_args ;;
    set_args {| list_ := list_ a; monitor := true; debug := debug a;
                serial := serial a; item_count := item_count a;
                items := items a |} ;;
    ret None
  else if c =? chr "l" then
    a <- get m_args ;;
    set_args {| list_ := true; monitor := monitor a; debug := debug a;
                serial := serial a; item_count := item_count a;
                items := items a |} ;;
    ret None
  else if c =? chr "s" then
    a <- get m_args ;;
    set_args {| list_ := list_ a; monitor := monitor a; debug := debug a;
                serial := optarg; item_count := item_count a;
                items := items a |} ;;
    ret None
  else if c =? chr "d" then
    a <- get m_args ;;
    (* [optarg] is not NULL here: [getopt_long_optarg] *)
    let n := atoi (match optarg with Some s => s | None => "" end) in
    set_args {| list_ := list_ a; monitor := monitor a; debug := n;
                serial := serial a; item_count := item_count a;
                items := items a |} ;;
    when (9 <=? n) (printf ("Option -d with value: " ++ fmt_d n ++ nl)) ;;
    ret None
  else
    (* case '?' and default *)
    Help ;; ret (Some (-1)).

(** How the [while (1)] loop of [ParseArguments] is left. *)
Inductive loop_exit : Type :=
| Break (d : getopt_data)      (* [getopt_long] returned -1 *)
| Return (rc : Z)              (* a [return] inside the switch *)
| OutOfFuel.                   (* the bound on the iterations was reached *)

(** The loop of [ParseArguments], for at most [fuel] calls of
    [getopt_long]. *)
Fixpoint ParseArguments_loop (fuel : nat) (argc : Z) (d : getopt_data)
  : M loop_exit :=
  match fuel with
  | O => ret OutOfFuel
  | S fuel' =>
      let r := getopt_long argc short_options long_options d in
      emit_all (map GetoptStderr (printed r)) ;;
      if code r =? -1 then ret (Break (data r))
      else
        x <- ParseArguments_switch r ;;
        match x with
        | Some rc => ret (Return rc)
        | None => ParseArguments_loop fuel' argc (data r)
        end
  end.

Definition argc_of (argv : list string) : Z := Z.of_nat (List.length argv).

(** [Program::ParseArguments]. Every call of [getopt_long] but the last
    uses up part of [getopt_measure], so the loop is given one call more
    than the measure of the start state ([ParseArguments_loop_ends] shows
    the bound is never reached).  After the loop [argv[optind .. argc)] is
    copied to [items]. *)
Definition ParseArguments (argv : list string) : M Z :=
  let argc := argc_of argv in
  let d0 := getopt_start argv in
  x <- ParseArguments_loop (S (getopt_measure d0)) argc d0 ;;
  match x with
  | Return rc => ret rc
  | OutOfFuel => ret (-1)
  | Break d =>
      a <- get m_args ;;
      let n := argc - optind d in
      set_args {| list_ := list_ a; monitor := monitor a; debug := debug a;
                  serial := serial a; item_count := n; items := items a |} ;;
      when (9 <=? debug a)
        (printf ("Positional argument count: " ++ fmt_d n ++ nl)) ;;
      when (0 <? n)
        (set_args {| list_ := list_ a; monitor := monitor a; debug := debug a;
                     serial := serial a; item_count := n;
                     items := nonopts d ++ rest d |}) ;;
      ret 0
  end.

(** [Program::Init]. [signal (SIGINT, SignalHandler)] is what makes a
    SIGINT during the calls that follow run the handler. *)
Definition Init : M Z :=
  g <- get g_debug ;;
  when (9 <=? g) (fprintf_stderr ("Program::Init" ++ nl)) ;;
  a <- get m_args ;;
  ok <- call (Open dev (serial a)) (CallOpen (serial a)) ;;
  if negb ok then
    fprintf_stderr
      ("Failed to open UT181A DMM. Please check device connection or settings."
       ++ nl) ;;
    match serial a with
    | Some s => fprintf_stderr ("Is the serial string '" ++ s ++ "' correct?" ++ nl)
    | None => ret tt
    end ;;
    ret (-1)
  else ret 0.

(** [Program::Done]. *)
Definition Done : M unit :=
  g <- get g_debug ;;
  when (9 <=? g) (fprintf_stderr ("Program::Done" ++ nl)) ;;
  call (Close dev) (fun _ => CallClose).

(** The [for] loop of [Run] from index [i] on, with [n] the number of
    indices from [i] up to [item_count], where no SIGINT arrives between
    the test of [quit_flag] and the call of [ReceiveRecord]: the value
    tested is the value handed over.  [Run_for_in] below reads the flag
    at both places. *)
Fixpoint Run_for (n : nat) (i : Z) : M unit :=
  match n with
  | O => ret tt
  | S n' =>
      q <- get quit_flag ;;
      if negb (q =? 0) then ret tt
      else
        a <- get m_args ;;
        let index := atoi (nth (Z.to_nat i) (items a) "") in
        call (ReceiveRecord dev index q) (fun _ => CallReceiveRecord index q) ;;
        Run_for n' (i + 1)
  end.

(** [Program::Run]. *)
Definition Run : M Z :=
  g <- get g_debug ;;
  when (9 <=? g) (fprintf_stderr ("Program::Run" ++ nl)) ;;
  a <- get m_args ;;
  if monitor a then
    fprintf_stderr ("Ctrl-C to quit the monitor" ++ nl) ;;
    q <- get quit_flag ;;
    b <- call (Monitor dev q) (CallMonitor q) ;;
    ret (if b : bool then 0 else -1)
  else if list_ a then
    fprintf_stderr ("Ctrl-C to abort if it takes too long" ++ nl) ;;
    q <- get quit_flag ;;
    call (ListRecord dev q) (fun _ => CallListRecord q) ;;
    ret 0
  else if 0 <? item_count a then
    fprintf_stderr ("Ctrl-C to abort the long operation" ++ nl) ;;
    Run_for (Z.to_nat (item_count a)) 0 ;;
    ret 0
  else
    g <- get g_debug ;;
    if 0 <? g then ret 0 else Help.

(** [Program::Main]. *)
Definition Main (argv : list string) : M Z :=
  rc <- ParseArguments argv ;;
  if negb (rc =? 0) then ret rc
  else
    a <- get m_args ;;
    set_g_debug (debug a) ;;
    rc <- Init ;;
    if negb (rc =? 0) then ret rc
    else
      rc <- Run ;;
      Done ;;
      ret rc.

(** *** The program in its environment

    Two things outside [main.cpp] bear on a run besides the device:
    whether [POSIXLY_CORRECT] is set, which fixes the [ordering] of
    [getopt_long], and when the user presses Ctrl-C.

    Once [Init] has installed the handler, a SIGINT runs [SignalHandler]
    wherever the main flow is (until then the signal has its default
    action and ends the process: the runs described are those that reach
    the [return] of [main]).  To the main flow it matters only between
    which of its reads of [quit_flag] and calls of the device the handler
    ran, so the signals are given per such point: an [arrivals] tells, for
    the points at which the main flow is about to read [quit_flag] or to
    enter the device, in the order it reaches them, whether a SIGINT
    arrives just before (none once the list is used up).  A SIGINT that
    arrives while a call of the device runs is part of the [reply] of the
    device, as before.

    The member functions above are the program where [POSIXLY_CORRECT] is
    not set and no SIGINT arrives outside a call of the device; the
    functions below are the program for every ordering and every
    [arrivals]. *)
Definition arrivals : Type := list bool.

(** A point of the main flow at which a SIGINT may arrive. *)
Definition arrive (sg : arrivals) : M arrivals :=
  match sg with
  | true :: sg' => emit Sigint ;; SignalHandler SIGINT ;; ret sg'
  | false :: sg' => ret sg'
  | [] => ret []
  end.

(** The loop of [ParseArguments] under the ordering [o]. *)
Fixpoint ParseArguments_loop_in (o : ordering) (fuel : nat) (argc : Z)
    (d : getopt_data) : M loop_exit :=
  match fuel with
  | O => ret OutOfFuel
  | S fuel' =>
      let r := getopt_long_in o argc short_options long_options d in
      emit_all (map GetoptStderr (printed r)) ;;
      if code r =? -1 then ret (Break (data r))
      else
        x <- ParseArguments_switch r ;;
        match x with
        | Some rc => ret (Return rc)
        | None => ParseArguments_loop_in o fuel' argc (data r)
        end
  end.

(** [Program::ParseArguments] under the ordering [o]. *)
Definition ParseArguments_in (o : ordering) (argv : list string) : M Z :=
  let argc := argc_of argv in
  let d0 := getopt_start argv in
  x <- ParseArguments_loop_in o (S (getopt_measure d0)) argc d0 ;;
  match x with
  | Return rc => ret rc
  | OutOfFuel => ret (-1)
  | Break d =>
      a <- get m_args ;;
      let n := argc - optind d in
      set_args {| list_ := list_ a; monitor := monitor a; debug := debug a;
                  serial := serial a; item_count := n; items := items a |} ;;
      when (9 <=? debug a)
        (printf ("Positional argument count: " ++ fmt_d n ++ nl)) ;;
      when (0 <? n)
        (set_args {| list_ := list_ a; monitor := monitor a; debug := debug a;
                     serial := serial a; item_count := n;
                     items := nonopts d ++ rest d |}) ;;
      ret 0
  end.

(** [Program::Init]: the handler is installed before [Open] is called. *)
Definition Init_in (sg : arrivals) : M (Z * arrivals) :=
  g <- get g_debug ;;
  when (9 <=? g) (fprintf_stderr ("Program::Init" ++ nl)) ;;
  a <- get m_args ;;
  sg1 <- arrive sg ;;
  ok <- call (Open dev (serial a)) (CallOpen (serial a)) ;;
  if negb ok then
    fprintf_stderr
      ("Failed to open UT181A DMM. Please check device connection or settings."
       ++ nl) ;;
    match serial a with
    | Some s => fprintf_stderr ("Is the serial string '" ++ s ++ "' correct?" ++ nl)
    | None => ret tt
    end ;;
    ret (-1, sg1)
  else ret (0, sg1).

(** [Program::Done]. *)
Definition Done_in (sg : arrivals) : M arrivals :=
  g <- get g_debug ;;
  when (9 <=? g) (fprintf_stderr ("Program::Done" ++ nl)) ;;
  sg1 <- arrive sg ;;
  call (Close dev) (fun _ => CallClose) ;;
  ret sg1.

(** The [for] loop of [Run].  [quit_flag] is read twice in an iteration:
    by the test at its head, and when [ReceiveRecord] is entered. *)
Fixpoint Run_for_in (n : nat) (i : Z) (sg : arrivals) : M arrivals :=
  match n with
  | O => ret sg
  | S n' =>
      sg1 <- arrive sg ;;
      q <- get quit_flag ;;
      emit (Poll q) ;;
      if negb (q =? 0) then ret sg1
      else
        a <- get m_args ;;
        let index := atoi (nth (Z.to_nat i) (items a) "") in
        sg2 <- arrive sg1 ;;
        q' <- get quit_flag ;;
        call (ReceiveRecord dev index q') (fun _ => CallReceiveRecord index q') ;;
        Run_for_in n' (i + 1) sg2
  end.

(** [Program::Run]. *)
Definition Run_in (sg : arrivals) : M (Z * arrivals) :=
  g <- get g_debug ;;
  when (9 <=? g) (fprintf_stderr ("Program::Run" ++ nl)) ;;
  a <- get m_args ;;
  if monitor a then
    fprintf_stderr ("Ctrl-C to quit the monitor" ++ nl) ;;
    sg1 <- arrive sg ;;
    q <- get quit_flag ;;
    b <- call (Monitor dev q) (CallMonitor q) ;;
    ret (if b : bool then 0 else -1, sg1)
  else if list_ a then
    fprintf_stderr ("Ctrl-C to abort if it takes too long" ++ nl) ;;
    sg1 <- arrive sg ;;
    q <- get quit_flag ;;
    call (ListRecord dev q) (fun _ => CallListRecord q) ;;
    ret (0, sg1)
  else if 0 <? item_count a then
    fprintf_stderr ("Ctrl-C to abort the long operation" ++ nl) ;;
    sg1 <- Run_for_in (Z.to_nat (item_count a)) 0 sg ;;
    ret (0, sg1)
  else
    g <- get g_debug ;;
    rc <- (if 0 <? g then ret 0 else Help) ;;
    ret (rc, sg).

(** [Program::Main]. *)
Definition Main_in (o : ordering) (sg : arrivals) (argv : list string) : M Z :=
  rc <- ParseArguments_in o argv ;;
  if negb (rc =? 0) then ret rc
  else
    a <- get m_args ;;
    set_g_debug (debug a) ;;
    x <- Init_in sg ;;
    if negb (fst x =? 0) then ret (fst x)
    else
      y <- Run_in (snd x) ;;
      Done_in (snd y) ;;
      ret (fst y).

(** [Program::~Program]: [items] is freed when it was allocated. *)
Definition Program_destructor : M unit :=
  a <- get m_args ;;
  match items a with
  | [] => ret tt
  | _ :: _ =>
      g <- get g_debug ;;
      when (9 <=? g) (printf ("Free memory" ++ nl)) ;;
      set_args {| list_ := list_ a; monitor := monitor a; debug := debug a;
                  serial := serial a; item_count := item_count a;
                  items := [] |}
  end.

End WithDevice.

(** [main]: a [Program] on the device [dmm] is constructed, [Main] runs,
    the [Program] is destroyed, and the value of [Main] is the exit
    status. *)
Definition main {D} (dev : Device D) (dmm : D) (argv : list string)
  : Z * state D :=
  bind (Main dev argv)
    (fun rc => bind (Program_destructor (D := D)) (fun _ => ret rc))
    (Program dmm).

(** [main] in its environment: the ordering [o] of [getopt_long] and the
    signals [sg]. *)
Definition main_in {D} (dev : Device D) (o : ordering) (sg : arrivals)
    (dmm : D) (argv : list string) : Z * state D :=
  bind (Main_in dev o sg argv)
    (fun rc => bind (Program_destructor (D := D)) (fun _ => ret rc))
    (Program dmm).

End Ut181a.

(* ===================================================================== *)
(** ** Devices to run the program on                                     *)
(* ===================================================================== *)

Module Mock.
Import CLib Ut181a.

(** A device that opens, never fails, on which no signal arrives. *)
Definition quiet : Device unit :=
  {| Open := fun _ d => Reply true d false;
     Close := fun d => Reply tt d false;
     Monitor := fun _ d => Reply true d false;
     ListRecord := fun _ d => Reply tt d false;
     ReceiveRecord := fun _ _ d => Reply tt d false |}.

(** No device is connected: [Open] fails. *)
Definition absent : Device unit :=
  {| Open := fun _ d => Reply false d false;
     Close := fun d => Reply tt d false;
     Monitor := fun _ d => Reply false d false;
     ListRecord := fun _ d => Reply tt d false;
     ReceiveRecord := fun _ _ d => Reply tt d false |}.

(** A device whose state counts the records received; the user presses
    Ctrl-C while record number [k] (counted from 1) is being received. *)
Definition interrupted_at (k : nat) : Device nat :=
  {| Open := fun _ d => Reply true d false;
     Close := fun d => Reply tt d false;
     Monitor := fun _ d => Reply true d true;
     ListRecord := fun _ d => Reply tt d false;
     ReceiveRecord := fun _ _ d => Reply tt (S d) (Nat.eqb (S d) k) |}.

(** The user presses Ctrl-C while the device is being opened. *)
Definition interrupted_open : Device unit :=
  {| Open := fun _ d => Reply true d true;
     Close := fun d => Reply tt d false;
     Monitor := fun _ d => Reply false d false;
     ListRecord := fun _ d => Reply tt d false;
     ReceiveRecord := fun _ _ d => Reply tt d false |}.

End Mock.

(* ===================================================================== *)
(** ** Observations on a run                                              *)
(* ===================================================================== *)

Module Obs.
Import CLib Ut181a.

(** Calls into the device, calls of a mode body, and text written. *)
Definition is_call (e : event) : bool :=
  match e with
  | CallOpen _ _ | CallClose | CallMonitor _ _ | CallListRecord _
  | CallReceiveRecord _ _ => true
  | _ => false
  end.

Definition is_mode_call (e : event) : bool :=
  match e with
  | CallMonitor _ _ | CallListRecord _ | CallReceiveRecord _ _ => true
  | _ => false
  end.

Definition is_output (e : event) : bool :=
  match e with
  | Stdout _ | Stderr _ | GetoptStderr _ => true
  | _ => false
  end.

Definition calls_of (t : list event) : list event := filter is_call t.
Definition outputs_of (t : list event) : list event := filter is_output t.

(** [subseq l1 l2]: [l1] is [l2] with some elements left out, the others
    in the order they have in [l2]. *)
Inductive subseq {A : Type} : list A -> list A -> Prop :=
| subseq_nil : subseq [] []
| subseq_skip x l1 l2 : subseq l1 l2 -> subseq l1 (x :: l2)
| subseq_keep x l1 l2 : subseq l1 l2 -> subseq (x :: l1) (x :: l2).

(** Elements of the command line that neither end the scan nor make it
    fail: positional arguments, [-m], [-l], and [-d], [-s], [--debug],
    [--serial] followed by their argument. *)
Definition flag_alone (a : string) : bool :=
  String.eqb a "-m" || String.eqb a "-l".

Definition flag_with_arg (a : string) : bool :=
  String.eqb a "-d" || String.eqb a "-s" ||
  String.eqb a "--debug" || String.eqb a "--serial".

Fixpoint benign (l : list string) : bool :=
  match l with
  | [] => true
  | a :: l' =>
      if NONOPTION_P a || flag_alone a then benign l'
      else if flag_with_arg a then
        match l' with
        | _ :: l'' => benign l''
        | [] => false
        end
      else false
  end.

(** A string that is a non-negative integer in decimal: one digit or
    more, and nothing else. *)
Fixpoint all_digits (s : string) : bool :=
  match s with
  | String c s' => isdigit c && all_digits s'
  | EmptyString => true
  end.

Definition valid_nonneg_integer (s : string) : bool :=
  match s with
  | EmptyString => false
  | _ => all_digits s
  end.

(** A string in which [atoi] finds a number: after white space and an
    optional sign comes a digit. *)
Definition starts_with_number (s : string) : bool :=
  match skip_space s with
  | String c r =>
      if Ascii.eqb c "-" || Ascii.eqb c "+"
      then match r with String c' _ => isdigit c' | EmptyString => false end
      else isdigit c
  | EmptyString => false
  end.

(** What [ParseArguments] prints when [debug] is 9 or more. *)
Definition run_line (text : string) (g : Z) : list event :=
  if 9 <=? g then [Stderr (text ++ nl)] else [].

(** What the destructor prints: a line when [items] was allocated and
    the debug level is 9 or more. *)
Definition free_line (a : args) (g : Z) : list event :=
  match items a with
  | [] => []
  | _ :: _ => if 9 <=? g then [Stdout ("Free memory" ++ nl)] else []
  end.

(** The mark a signal leaves right after the call it interrupted. *)
Definition sig_mark {D R} (r : reply D R) : list event :=
  if sigint r then [Sigint] else [].

Definition after_call {D R} (r : reply D R) (q : Z) : Z :=
  if sigint r then SIGINT else q.

(** The call that hands the target [t] to the device while the flag is
    clear. *)
Definition receive_call (t : string) : event :=
  CallReceiveRecord (atoi t) 0.

Section Receive.

Variable D : Type.
Variable dev : Device D.

(** What a member function that only prints leaves alone: the device,
    the flag and the debug level; and it only adds output to what
    happened so far. *)
Definition prints_only (st st' : state D) : Prop :=
  m_dmm st' = m_dmm st /\ quit_flag st' = quit_flag st /\
  g_debug st' = g_debug st /\
  exists out, trace st' = (trace st ++ out)%list /\
              Forall (fun e => is_output e = true) out.

(** Receiving the targets [l] one after the other, as long as the flag
    [q] is clear: what happens, the flag and the device afterwards. *)
Fixpoint receive_run (l : list string) (q : Z) (d : D)
  : list event * Z * D :=
  match l with
  | [] => ([], q, d)
  | t :: l' =>
      if negb (q =? 0) then ([], q, d)
      else
        let r := ReceiveRecord dev (atoi t) q d in
        let '(evs, q', d') := receive_run l' (after_call r q) (device r) in
        (CallReceiveRecord (atoi t) q :: sig_mark r ++ evs, q', d')
  end.

(** The state after a step that moved the device to [d], left the flag
    at [q] and added [evs] to what happened. *)
Definition advance (st : state D) (d : D) (q : Z) (evs : list event)
  : state D :=
  {| m_dmm := d; m_args := m_args st; quit_flag := q;
     g_debug := g_debug st; trace := trace st ++ evs |}.

(** The strings the loop of [Run] reads: [items[0 .. item_count)]. *)
Definition targets_read (a : args) : list string :=
  map (fun i => nth i (items a) "") (seq 0 (Z.to_nat (item_count a))).

(** What [Init] adds to the trace, [r] being the reply of [Open]. *)
Definition init_events (g : Z) (s : option string) (r : reply D bool)
  : list event :=
  run_line "Program::Init" g ++
  [CallOpen s (result r)] ++ sig_mark r ++
  (if result r then []
   else
     Stderr ("Failed to open UT181A DMM. Please check device connection or settings."
             ++ nl)
     :: match s with
        | Some x => [Stderr ("Is the serial string '" ++ x ++ "' correct?" ++ nl)]
        | None => []
        end).

(** What [Run] returns and the state it leaves. *)
Definition Run_outcome (st : state D) : Z * state D :=
  let a := m_args st in
  let g := g_debug st in
  let q := quit_flag st in
  let d := m_dmm st in
  if monitor a then
    let r := Monitor dev q d in
    (if result r then 0 else -1,
     advance st (device r) (after_call r q)
       (run_line "Program::Run" g ++
        [Stderr ("Ctrl-C to quit the monitor" ++ nl);
         CallMonitor q (result r)] ++ sig_mark r))
  else if list_ a then
    let r := ListRecord dev q d in
    (0,
     advance st (device r) (after_call r q)
       (run_line "Program::Run" g ++
        [Stderr ("Ctrl-C to abort if it takes too long" ++ nl);
         CallListRecord q] ++ sig_mark r))
  else if 0 <? item_count a then
    let '(evs, q', d') := receive_run (targets_read a) q d in
    (0,
     advance st d' q'
       (run_line "Program::Run" g ++
        [Stderr ("Ctrl-C to abort the long operation" ++ nl)] ++ evs))
  else
    (if 0 <? g then 0 else 1,
     advance st d q
       (run_line "Program::Run" g ++
        (if 0 <? g then [] else [Stdout help_msg]))).

End Receive.

(** What [ParseArguments] can write: a diagnostic of [getopt_long], the
    help text, the version line, the echo of a debug level of 9 or more,
    the count of the positional arguments. *)
Definition parse_output (e : event) : Prop :=
  (exists g, e = GetoptStderr g) \/
  e = Stdout help_msg \/
  e = Stdout (version_info ++ nl) \/
  (exists n, 9 <= n /\ e = Stdout ("Option -d with value: " ++ fmt_d n ++ nl)) \/
  (exists n, e = Stdout ("Positional argument count: " ++ fmt_d n ++ nl)).

(** What the body of [Run] adds after its trace line: the banner of the
    mode, the calls of the mode with the signals that interrupt them, or
    the help text. *)
Definition run_event (e : event) : Prop :=
  e = Stderr ("Ctrl-C to quit the monitor" ++ nl) \/
  e = Stderr ("Ctrl-C to abort if it takes too long" ++ nl) \/
  e = Stderr ("Ctrl-C to abort the long operation" ++ nl) \/
  e = Stdout help_msg \/
  is_mode_call e = true \/
  e = Sigint.

(** Harmless elements read from left to right: the positional arguments
    among them, the members they set, and the lines they make
    [ParseArguments] print. *)
Fixpoint positionals (l : list string) : list string :=
  match l with
  | [] => []
  | x :: l' =>
      if NONOPTION_P x then x :: positionals l'
      else if flag_alone x then positionals l'
      else match l' with
           | _ :: l'' => positionals l''
           | [] => []
           end
  end.

Fixpoint harmless_args (l : list string) (a : args) : args :=
  match l with
  | [] => a
  | x :: l' =>
      if NONOPTION_P x then harmless_args l' a
      else if String.eqb x "-m" then
        harmless_args l'
          {| list_ := list_ a; monitor := true; debug := debug a;
             serial := serial a; item_count := item_count a;
             items := items a |}
      else if String.eqb x "-l" then
        harmless_args l'
          {| list_ := true; monitor := monitor a; debug := debug a;
             serial := serial a; item_count := item_count a;
             items := items a |}
      else
        match l' with
        | v :: l'' =>
            if String.eqb x "-d" || String.eqb x "--debug" then
              harmless_args l''
                {| list_ := list_ a; monitor := monitor a; debug := atoi v;
                   serial := serial a; item_count := item_count a;
                   items := items a |}
            else if String.eqb x "-s" || String.eqb x "--serial" then
              harmless_args l''
                {| list_ := list_ a; monitor := monitor a; debug := debug a;
                   serial := Some v; item_count := item_count a;
                   items := items a |}
            else a
        | [] => a
        end
  end.

Fixpoint harmless_output (l : list string) : list event :=
  match l with
  | [] => []
  | x :: l' =>
      if NONOPTION_P x || flag_alone x then harmless_output l'
      else
        match l' with
        | v :: l'' =>
            (if (String.eqb x "-d" || String.eqb x "--debug") && (9 <=? atoi v)
             then [Stdout ("Option -d with value: " ++ fmt_d (atoi v) ++ nl)]
             else []) ++ harmless_output l''
        | [] => []
        end
  end.


(** *** Reading a command line from left to right

    What an element of the command line is to the scan of
    [ParseArguments]: an option that is passed over, complete in its
    element or with the next element as its argument, or an option that
    ends the scan: help, version, or an invalid option. *)
Inductive decisive : Type :=
| IsHelp
| IsVersion
| IsInvalid.

Inductive reading : Type :=
| Passes
| TakesNext
| Decides (x : decisive).

(** A cluster of short options, the element without its dash: [h] and
    [v] decide, [m] and [l] are passed over, [d] and [s] take what is left
    of the element as their argument, or the next element when nothing is
    left; any other character is invalid. *)
Fixpoint read_cluster (cs : string) : reading :=
  match cs with
  | EmptyString => Passes
  | String c more =>
      if Ascii.eqb c "h" then Decides IsHelp
      else if Ascii.eqb c "v" then Decides IsVersion
      else if Ascii.eqb c "m" || Ascii.eqb c "l" then read_cluster more
      else if Ascii.eqb c "d" || Ascii.eqb c "s" then
        match more with
        | EmptyString => TakesNext
        | String _ _ => Passes
        end
      else Decides IsInvalid
  end.

(** [nm] is the name [full] of a long option or the start of it. *)
Definition abbreviates (nm full : string) : bool :=
  negb (String.eqb nm "") && prefix nm full.

(** A long option, the element without its two dashes: a name, that may
    be abbreviated, and [=value] or nothing.  [help] and [version] take
    no value; [debug], [serial], [monitor] and [list] take one, after the
    [=] or as the next element. *)
Definition read_long (text : string) : reading :=
  let '(nm, value) := split_name text in
  if abbreviates nm "help" then
    match value with
    | None => Decides IsHelp
    | Some _ => Decides IsInvalid
    end
  else if abbreviates nm "version" then
    match value with
    | None => Decides IsVersion
    | Some _ => Decides IsInvalid
    end
  else if abbreviates nm "debug" || abbreviates nm "serial" ||
          abbreviates nm "monitor" || abbreviates nm "list" then
    match value with
    | None => TakesNext
    | Some _ => Passes
    end
  else Decides IsInvalid.

(** An element that starts with a dash and is neither ["-"] nor ["--"]. *)
Definition read_element (a : string) : reading :=
  match a with
  | String _ (String c more) =>
      if Ascii.eqb c "-" then read_long more
      else read_cluster (String c more)
  | _ => Passes
  end.

(** The first option of the command line [l] (the elements after
    [argv[0]]) that is help, version or invalid, if the options do not
    end before one is met.  The options end with the command line, at
    ["--"], and under [REQUIRE_ORDER] at the first positional argument;
    under [PERMUTE] a positional argument is passed over. *)
Fixpoint first_decisive (o : ordering) (l : list string) : option decisive :=
  match l with
  | [] => None
  | a :: l' =>
      if String.eqb a "--" then None
      else if NONOPTION_P a then
        match o with
        | REQUIRE_ORDER => None
        | PERMUTE => first_decisive o l'
        end
      else
        match read_element a with
        | Passes => first_decisive o l'
        | TakesNext =>
            match l' with
            | [] => Some IsInvalid
            | _ :: l'' => first_decisive o l''
            end
        | Decides x => Some x
        end
  end.

(** What [ParseArguments] returns for it. *)
Definition status_of (x : option decisive) : Z :=
  match x with
  | Some IsHelp => 1
  | Some IsVersion => 2
  | Some IsInvalid => -1
  | None => 0
  end.

(** The reading of a command line from inside a cluster [nc] of short
    options, [l] being the elements after it. *)
Definition reading_from (o : ordering) (nc : string) (l : list string)
  : option decisive :=
  match read_cluster nc with
  | Passes => first_decisive o l
  | TakesNext =>
      match l with
      | [] => Some IsInvalid
      | _ :: l' => first_decisive o l'
      end
  | Decides x => Some x
  end.

(** What the loop of [ParseArguments] makes the function return. *)
Definition loop_status (x : loop_exit) : Z :=
  match x with
  | Break _ => 0
  | Return rc => rc
  | OutOfFuel => -1
  end.

(** What a call of [getopt_long] that does not end the scan returns, by
    the reading [x] of the command line from where the call starts: the
    option that decides, or an option that is passed over, and then the
    reading goes on from where the call leaves the scan. *)
Definition scan_agrees (o : ordering) (r : getopt_result)
    (x : option decisive) : Prop :=
  (code r = chr "h" /\ x = Some IsHelp) \/
  (code r = chr "v" /\ x = Some IsVersion) \/
  (code r = chr "?" /\ x = Some IsInvalid) \/
  (In (code r) [chr "d"; chr "s"; chr "m"; chr "l"] /\
   x = reading_from o (nextchar (data r)) (rest (data r))).

(** The mark a signal leaves at a point of the main flow, and the flag
    after that point. *)
Definition arrival_mark (sg : arrivals) : list event :=
  match sg with
  | true :: _ => [Sigint]
  | _ => []
  end.

Definition after_arrival (sg : arrivals) (q : Z) : Z :=
  match sg with
  | true :: _ => SIGINT
  | _ => q
  end.

Section ReceiveIn.

Variable D : Type.
Variable dev : Device D.

(** Receiving the targets [l] one after the other under the signals
    [sg], from the flag [q] and the device [d]: what happens, the flag,
    the device and the signals that are left. *)
Fixpoint receive_run_in (l : list string) (sg : arrivals) (q : Z) (d : D)
  : list event * Z * D * arrivals :=
  match l with
  | [] => ([], q, d, sg)
  | t :: l' =>
      let q1 := after_arrival sg q in
      if negb (q1 =? 0) then ((arrival_mark sg ++ [Poll q1])%list, q1, d, tl sg)
      else
        let sg1 := tl sg in
        let q2 := after_arrival sg1 q1 in
        let r := ReceiveRecord dev (atoi t) q2 d in
        let '(evs, q', d', sg') :=
          receive_run_in l' (tl sg1) (after_call r q2) (device r) in
        ((arrival_mark sg ++ Poll q1 :: arrival_mark sg1 ++
          CallReceiveRecord (atoi t) q2 :: sig_mark r ++ evs)%list,
         q', d', sg')
  end.

(** What [Init] adds to the trace under the signals [sg], [r] being the
    reply of [Open]. *)
Definition init_events_in (g : Z) (s : option string) (sg : arrivals)
    (r : reply D bool) : list event :=
  (run_line "Program::Init" g ++ arrival_mark sg ++
   [CallOpen s (result r)] ++ sig_mark r ++
   (if result r then []
    else
      Stderr ("Failed to open UT181A DMM. Please check device connection or settings."
              ++ nl)
      :: match s with
         | Some x => [Stderr ("Is the serial string '" ++ x ++ "' correct?" ++ nl)]
         | None => []
         end))%list.

(** What [Done] adds. *)
Definition done_events_in (g : Z) (sg : arrivals) (r : reply D unit)
  : list event :=
  (run_line "Program::Done" g ++ arrival_mark sg ++ [CallClose] ++
   sig_mark r)%list.

(** What [Run] returns under the signals [sg], the signals it leaves and
    the state it leaves. *)
Definition Run_in_outcome (sg : arrivals) (st : state D)
  : (Z * arrivals) * state D :=
  let a := m_args st in
  let g := g_debug st in
  let d := m_dmm st in
  if monitor a then
    let q := after_arrival sg (quit_flag st) in
    let r := Monitor dev q d in
    ((if result r then 0 else -1, tl sg),
     advance st (device r) (after_call r q)
       (run_line "Program::Run" g ++
        [Stderr ("Ctrl-C to quit the monitor" ++ nl)] ++ arrival_mark sg ++
        [CallMonitor q (result r)] ++ sig_mark r)%list)
  else if list_ a then
    let q := after_arrival sg (quit_flag st) in
    let r := ListRecord dev q d in
    ((0, tl sg),
     advance st (device r) (after_call r q)
       (run_line "Program::Run" g ++
        [Stderr ("Ctrl-C to abort if it takes too long" ++ nl)] ++
        arrival_mark sg ++ [CallListRecord q] ++ sig_mark r)%list)
  else if 0 <? item_count a then
    let '(evs, q', d', sg') :=
      receive_run_in (targets_read a) sg (quit_flag st) d in
    ((0, sg'),
     advance st d' q'
       (run_line "Program::Run" g ++
        [Stderr ("Ctrl-C to abort the long operation" ++ nl)] ++ evs)%list)
  else
    ((if 0 <? g then 0 else 1, sg),
     advance st d (quit_flag st)
       (run_line "Program::Run" g ++
        (if 0 <? g then [] else [Stdout help_msg]))%list).

End ReceiveIn.

(** The calls that hand the targets [ts] to the device, the flag being
    [qs] as they are entered. *)
Definition receive_calls (ts : list string) (qs : list Z) : list event :=
  map (fun tq => CallReceiveRecord (atoi (fst tq)) (snd tq)) (combine ts qs).

(** Nothing but signals. *)
Definition signals_only (l : list event) : Prop :=
  Forall (fun e => e = Sigint) l.

(** A trace without the marks of the tests of the flag. *)
Definition is_poll (e : event) : bool :=
  match e with
  | Poll _ => true
  | _ => false
  end.

Definition without_polls (t : list event) : list event :=
  filter (fun e => negb (is_poll e)) t.

(** What the body of [Run] adds after its trace line when signals arrive
    at any time: as [run_event], and the tests of the flag. *)
Definition run_event_in (e : event) : Prop :=
  run_event e \/ exists q, e = Poll q.

End Obs.

(* ===================================================================== *)
(** ** Facts about the C library model                                   *)
(* ===================================================================== *)

Import CLib Ut181a Obs.

Lemma skip_nonoptions_app l :
  forall skipped l', skip_nonoptions l = (skipped, l') -> l = (skipped ++ l')%list.
Proof.
  induction l as [|a l IH]; simpl; intros skipped l' H.
  - inversion H; reflexivity.
  - destruct (NONOPTION_P a).
    + destruct (skip_nonoptions l) as [sk l2] eqn:E.
      inversion H; subst. simpl. f_equal. apply IH. reflexivity.
    + inversion H; reflexivity.
Qed.

Lemma skip_nonoptions_head l skipped a l' :
  skip_nonoptions l = (skipped, a :: l') -> NONOPTION_P a = false.
Proof.
  revert skipped; induction l as [|b l IH]; simpl; intros skipped H.
  - inversion H.
  - destruct (NONOPTION_P b) eqn:Eb.
    + destruct (skip_nonoptions l) as [sk l2] eqn:E.
      inversion H; subst. eapply IH. reflexivity.
    + inversion H; subst. exact Eb.
Qed.

Lemma measure_list_app l1 l2 :
  measure_list (l1 ++ l2)%list = (measure_list l1 + measure_list l2)%nat.
Proof.
  induction l1 as [|a l1 IH]; simpl; [reflexivity|].
  rewrite IH. lia.
Qed.

Lemma process_long_option_rest longopts text d :
  let r := process_long_option longopts text d in
  nextchar (data r) = "" /\
  (rest (data r) = rest d \/ exists a, rest d = a :: rest (data r)).
Proof.
  unfold process_long_option.
  destruct (split_name text) as [nm value]. cbv zeta.
  repeat match goal with
  | |- context [match ?x with _ => _ end] => destruct x eqn:?; simpl
  | |- context [if ?x then _ else _] => destruct x eqn:?; simpl
  end;
  (split; [reflexivity | first [left; reflexivity | right; eexists; reflexivity]]).
Qed.

Ltac break_match :=
  repeat match goal with
  | |- context [match ?x with _ => _ end] => destruct x eqn:?; simpl
  | |- context [if ?x then _ else _] => destruct x eqn:?; simpl
  end.

Lemma short_option_measure optstring c more d :
  (getopt_measure (data (short_option optstring c more d))
   <= String.length more + measure_list (rest d))%nat.
Proof.
  unfold short_option, getopt_measure.
  break_match; lia.
Qed.

Lemma chr_nonneg c : 0 <= chr c.
Proof. unfold chr. lia. Qed.

Lemma short_option_code optstring c more d :
  code (short_option optstring c more d) <> -1.
Proof.
  unfold short_option.
  break_match; try discriminate; pose proof (chr_nonneg c); lia.
Qed.

(** Every call that does not end the scan uses up part of the measure. *)
Lemma getopt_long_progress argc optstring longopts d :
  code (getopt_long argc optstring longopts d) <> -1 ->
  (getopt_measure (data (getopt_long argc optstring longopts d))
   < getopt_measure d)%nat.
Proof.
  unfold getopt_long.
  destruct (argc <? 1); [simpl; congruence|].
  destruct (nextchar d) as [|c more] eqn:Enc.
  - destruct (skip_nonoptions (rest d)) as [skipped l] eqn:Esk.
    pose proof (skip_nonoptions_app _ Esk) as Happ.
    assert (Hm : (measure_list l <= measure_list (rest d))%nat)
      by (rewrite Happ, measure_list_app; lia).
    destruct l as [|a l']; [simpl; congruence|].
    destruct (String.eqb a "--"); [simpl; congruence|].
    destruct a as [|c0 [|c1 text]]; try (simpl; congruence).
    simpl in Hm. intros _.
    destruct (Ascii.eqb c1 "-").
    + match goal with
      | |- context [process_long_option ?lo ?t ?d0] =>
          destruct (process_long_option_rest lo t d0) as [Hn Hr]
      end.
      unfold getopt_measure. rewrite Hn, Enc. simpl in *.
      destruct Hr as [Hr | [b Hr]];
        [rewrite Hr; lia | rewrite Hr in Hm; simpl in Hm; lia].
    + match goal with
      | |- context [short_option ?os ?c ?m ?d0] =>
          pose proof (short_option_measure os c m d0) as Hs
      end.
      unfold getopt_measure at 2. rewrite Enc. simpl in *. lia.
  - intros _.
    match goal with
    | |- context [short_option ?os ?c ?m ?d0] =>
        pose proof (short_option_measure os c m d0) as Hs
    end.
    unfold getopt_measure at 2. rewrite Enc. simpl in *. lia.
Qed.

(** The elements of the command line are all accounted for: taken as
    options, skipped as non-options, or not yet scanned. *)
Lemma getopt_long_count argc optstring longopts d :
  accounted (data (getopt_long argc optstring longopts d)) = accounted d.
Proof.
  unfold getopt_long, accounted.
  destruct (argc <? 1); [reflexivity|].
  destruct (nextchar d) as [|c more] eqn:Enc.
  - destruct (skip_nonoptions (rest d)) as [skipped l] eqn:Esk.
    rewrite (skip_nonoptions_app _ Esk).
    destruct l as [|a l'];
      [simpl; rewrite !length_app; simpl; lia|].
    destruct (String.eqb a "--");
      [simpl; rewrite !length_app; simpl; lia|].
    destruct a as [|c0 [|c1 text]];
      try (simpl; rewrite !length_app; simpl; lia).
    destruct (Ascii.eqb c1 "-").
    + unfold process_long_option.
      destruct (split_name text) as [nm value]. cbv zeta.
      break_match; rewrite ?length_app; simpl; lia.
    + unfold short_option.
      break_match; rewrite ?length_app; simpl; lia.
  - unfold short_option.
    break_match; rewrite ?length_app; simpl; lia.
Qed.

(** *** Subsequences *)

Lemma subseq_refl {A} (l : list A) : subseq l l.
Proof. induction l; constructor; assumption. Qed.

Lemma subseq_trans {A} (l1 l2 l3 : list A) :
  subseq l1 l2 -> subseq l2 l3 -> subseq l1 l3.
Proof.
  intros H12 H23. revert l1 H12.
  induction H23 as [|x l2 l3 H23 IH|x l2 l3 H23 IH]; intros l1 H12.
  - exact H12.
  - constructor. apply IH. exact H12.
  - inversion H12; subst.
    + constructor. apply IH. assumption.
    + apply subseq_keep. apply IH. assumption.
Qed.

Lemma subseq_app_keep {A} (p l1 l2 : list A) :
  subseq l1 l2 -> subseq (p ++ l1)%list (p ++ l2)%list.
Proof. intros H. induction p; simpl; [exact H | constructor; exact IHp]. Qed.

Lemma getopt_long_subseq argc optstring longopts d :
  let r := getopt_long argc optstring longopts d in
  subseq (nonopts (data r) ++ rest (data r))%list (nonopts d ++ rest d)%list.
Proof.
  assert (Hdrop1 : forall (p l : list string) a, subseq (p ++ l)%list (p ++ a :: l)%list)
    by (intros; apply subseq_app_keep; constructor; apply subseq_refl).
  assert (Hdrop2 : forall (p l : list string) a b,
             subseq (p ++ l)%list (p ++ a :: b :: l)%list)
    by (intros; apply subseq_app_keep; do 2 constructor; apply subseq_refl).
  unfold getopt_long.
  destruct (argc <? 1); [apply subseq_refl|].
  destruct (nextchar d) as [|c more] eqn:Enc.
  - destruct (skip_nonoptions (rest d)) as [skipped l] eqn:Esk.
    rewrite (skip_nonoptions_app _ Esk).
    destruct l as [|a l'];
      [simpl; rewrite <- ?app_assoc; apply subseq_refl|].
    destruct (String.eqb a "--").
    { simpl. rewrite app_nil_r, !app_assoc. apply Hdrop1. }
    rewrite (app_assoc (nonopts d) skipped (a :: l')).
    destruct a as [|c0 [|c1 text]]; try (simpl; apply subseq_refl).
    destruct (Ascii.eqb c1 "-").
    + unfold process_long_option.
      destruct (split_name text) as [nm value]. cbv zeta.
      break_match; solve [apply Hdrop1 | apply Hdrop2].
    + unfold short_option.
      break_match; solve [apply Hdrop1 | apply Hdrop2].
  - unfold short_option.
    break_match; solve [apply subseq_refl | apply (Hdrop1 (nonopts d))].
Qed.

Lemma find_option_In p longopts :
  forall i j o, find_option p i longopts = Some (j, o) ->
  In o longopts /\ p o = true.
Proof.
  induction longopts as [|x l IH]; simpl; intros i j o H; [discriminate|].
  destruct (p x) eqn:Ep.
  - inversion H; subst. auto.
  - destruct (IH _ _ _ H). auto.
Qed.

(** A long option gives ['?'], or the value of an entry of the table
    (0 when the entry has a flag cell). *)
Lemma process_long_option_entry longopts text d :
  let r := process_long_option longopts text d in
  code r = chr "?" \/
  exists o, In o longopts /\
    code r = match flag o with Some _ => 0 | None => val o end.
Proof.
  unfold process_long_option.
  destruct (split_name text) as [nm value]. cbv zeta.
  destruct (find_option (fun o => String.eqb (name o) nm) 0 longopts)
    as [[i o]|] eqn:E1.
  - apply find_option_In in E1. destruct E1 as [Hin _].
    break_match; auto; right; exists o;
      match goal with H : flag o = _ |- _ => rewrite H end; auto.
  - destruct (find_option (fun o => prefix nm (name o)) 0 longopts)
      as [[i o]|] eqn:E2; [|left; reflexivity].
    apply find_option_In in E2. destruct E2 as [Hin _].
    destruct (forallb _ longopts); [|left; reflexivity].
    break_match; auto; right; exists o;
      match goal with H : flag o = _ |- _ => rewrite H end; auto.
Qed.

Lemma long_options_entry o :
  In o long_options ->
  flag o = None /\
  In (val o) [chr "h"; chr "v"; chr "d"; chr "s"; chr "m"; chr "l"].
Proof.
  unfold long_options. simpl.
  intros H; repeat (destruct H as [H|H]; [subst o; simpl; tauto|]).
  contradiction.
Qed.

(** With the tables of the program, the scan ends only when nothing is
    left to scan. *)
Lemma process_long_option_code text d :
  code (process_long_option long_options text d) <> -1.
Proof.
  destruct (process_long_option_entry long_options text d) as [H|[o [Hin H]]].
  - rewrite H. discriminate.
  - destruct (long_options_entry Hin) as [Hf Hv].
    rewrite H, Hf. simpl in Hv.
    repeat (destruct Hv as [Hv|Hv]; [rewrite <- Hv; discriminate|]).
    contradiction.
Qed.

(** An entry that requires an argument is returned with its argument. *)
Lemma process_long_option_optarg longopts text d :
  let r := process_long_option longopts text d in
  code r = chr "?" \/
  exists o, In o longopts /\
    code r = match flag o with Some _ => 0 | None => val o end /\
    (has_arg o = 1 -> optarg (data r) <> None).
Proof.
  unfold process_long_option.
  destruct (split_name text) as [nm value]. cbv zeta.
  assert (Hsolve : forall o (c : Z) (oa : option string),
    In o longopts ->
    c = match flag o with Some _ => 0 | None => val o end ->
    (has_arg o = 1 -> oa <> None) ->
    c = chr "?" \/
    exists o', In o' longopts /\
      c = match flag o' with Some _ => 0 | None => val o' end /\
      (has_arg o' = 1 -> oa <> None))
    by (intros o c oa Hin Hc Ha; right; exists o; auto).
  destruct (find_option (fun o => String.eqb (name o) nm) 0 longopts)
    as [[i o]|] eqn:E1.
  - apply find_option_In in E1. destruct E1 as [Hin _].
    break_match; try (left; reflexivity);
      apply (Hsolve o); auto;
      solve [ match goal with H : flag o = _ |- _ => rewrite H end; reflexivity
            | intros; discriminate
            | intros H1; rewrite H1 in *; discriminate ].
  - destruct (find_option (fun o => prefix nm (name o)) 0 longopts)
      as [[i o]|] eqn:E2; [|left; reflexivity].
    apply find_option_In in E2. destruct E2 as [Hin _].
    destruct (forallb _ longopts); [|left; reflexivity].
    break_match; try (left; reflexivity);
      apply (Hsolve o); auto;
      solve [ match goal with H : flag o = _ |- _ => rewrite H end; reflexivity
            | intros; discriminate
            | intros H1; rewrite H1 in *; discriminate ].
Qed.

Lemma short_option_optarg c more d :
  let r := short_option short_options c more d in
  code r = chr "d" \/ code r = chr "s" -> optarg (data r) <> None.
Proof.
  unfold short_option, short_options. cbn [strchr].
  repeat match goal with
  | |- context [Ascii.eqb ?x c] =>
      destruct (Ascii.eqb x c) eqn:?;
      [ match goal with H : Ascii.eqb _ c = true |- _ =>
          apply Ascii.eqb_eq in H; subst c end |]
  end;
  cbn; try (intros [H|H]; discriminate H);
  destruct more; cbn; try (intros _; discriminate);
  destruct (rest d); cbn; try (intros _; discriminate);
  intros [H|H]; discriminate H.
Qed.

(** So [optarg] is not NULL where [ParseArguments] hands it to [atoi] or
    keeps it as the serial string. *)
Lemma getopt_long_optarg argc d :
  let r := getopt_long argc short_options long_options d in
  code r = chr "d" \/ code r = chr "s" -> optarg (data r) <> None.
Proof.
  unfold getopt_long. cbv zeta.
  destruct (argc <? 1); [cbn; intros [H|H]; discriminate H|].
  destruct (nextchar d) as [|c more].
  - destruct (skip_nonoptions (rest d)) as [skipped l].
    destruct l as [|a l']; [cbn; intros [H|H]; discriminate H|].
    destruct (String.eqb a "--"); [cbn; intros [H|H]; discriminate H|].
    destruct a as [|c0 [|c1 text]]; try (cbn; intros [H|H]; discriminate H).
    destruct (Ascii.eqb c1 "-").
    + match goal with
      | |- context [process_long_option ?lo ?t ?d0] =>
          destruct (process_long_option_optarg lo t d0) as [Hq|(o & Hin & Hc & Ha)]
      end.
      * rewrite Hq. intros [H|H]; discriminate H.
      * rewrite Hc. unfold long_options in Hin. cbn [In] in Hin.
        repeat (destruct Hin as [Hin|Hin];
                [subst o; cbn in *;
                 first [ intros [H|H]; discriminate H
                       | intros _; apply Ha; reflexivity ]|]).
        contradiction.
    + apply short_option_optarg.
  - apply short_option_optarg.
Qed.

(** *** A longer command line

    A call that returns an option (not -1, not ['?']) has looked only at
    the elements it used: more elements behind them change nothing. *)

Lemma skip_nonoptions_more l post :
  forall skipped a l',
  skip_nonoptions l = (skipped, a :: l') ->
  skip_nonoptions (l ++ post) = (skipped, a :: l' ++ post)%list.
Proof.
  induction l as [|b l IH]; cbn [skip_nonoptions app]; intros skipped a l' H.
  - discriminate H.
  - destruct (NONOPTION_P b).
    + destruct (skip_nonoptions l) as [sk l2] eqn:E.
      inversion H; subst. rewrite (IH _ _ _ eq_refl). reflexivity.
    + inversion H; subst. reflexivity.
Qed.

Lemma process_long_option_more longopts text d post :
  let r := process_long_option longopts text d in
  code r <> chr "?" ->
  process_long_option longopts text (append_rest post d)
  = append_rest_result post r.
Proof.
  unfold process_long_option, append_rest_result, append_rest.
  destruct (split_name text) as [nm value]. cbv zeta.
  cbn [optind nonopts rest nextchar optarg flag_cells].
  destruct (find_option (fun o => String.eqb (name o) nm) 0 longopts)
    as [[i o]|].
  - destruct value as [v|].
    + destruct (has_arg o =? 0); [cbn; congruence|].
      destruct (flag o); reflexivity.
    + destruct (has_arg o =? 1).
      * destruct (rest d); [cbn; congruence|].
        destruct (flag o); reflexivity.
      * destruct (flag o); reflexivity.
  - destruct (find_option (fun o => prefix nm (name o)) 0 longopts)
      as [[i o]|]; [|cbn; congruence].
    destruct (forallb _ longopts); [|cbn; congruence].
    destruct value as [v|].
    + destruct (has_arg o =? 0); [cbn; congruence|].
      destruct (flag o); reflexivity.
    + destruct (has_arg o =? 1).
      * destruct (rest d); [cbn; congruence|].
        destruct (flag o); reflexivity.
      * destruct (flag o); reflexivity.
Qed.

Lemma short_option_more optstring c more d post :
  let r := short_option optstring c more d in
  code r <> chr "?" ->
  short_option optstring c more (append_rest post d)
  = append_rest_result post r.
Proof.
  unfold short_option, append_rest_result, append_rest. cbv zeta.
  cbn [optind nonopts rest nextchar optarg flag_cells].
  destruct (strchr optstring c); [|cbn; congruence].
  destruct (Ascii.eqb c ":" || Ascii.eqb c ";"); [cbn; congruence|].
  destruct (Ascii.eqb (char_at s 1) ":"); [|reflexivity].
  destruct (Ascii.eqb (char_at s 2) ":"); [reflexivity|].
  destruct more; [|reflexivity].
  destruct (rest d); [cbn; congruence | reflexivity].
Qed.

Lemma getopt_long_more argc argc' optstring longopts d post :
  1 <= argc -> 1 <= argc' ->
  let r := getopt_long argc optstring longopts d in
  code r <> -1 -> code r <> chr "?" ->
  getopt_long argc' optstring longopts (append_rest post d)
  = append_rest_result post r.
Proof.
  intros Ha Ha'. unfold getopt_long. cbv zeta.
  rewrite (proj2 (Z.ltb_ge argc 1) Ha), (proj2 (Z.ltb_ge argc' 1) Ha').
  cbn [append_rest nextchar rest optind nonopts flag_cells].
  destruct (nextchar d) as [|c more] eqn:Enc.
  - destruct (skip_nonoptions (rest d)) as [skipped l] eqn:Esk.
    destruct l as [|a l']; [cbn; congruence|].
    rewrite (skip_nonoptions_more _ post Esk).
    destruct (String.eqb a "--"); [cbn; congruence|].
    destruct a as [|c0 [|c1 text]]; try (cbn; congruence).
    destruct (Ascii.eqb c1 "-"); intros _ Hq.
    + rewrite <- (process_long_option_more _ _ _ post Hq). reflexivity.
    + rewrite <- (short_option_more _ _ _ _ post Hq). reflexivity.
  - intros _ Hq.
    rewrite <- (short_option_more _ _ _ _ post Hq).
    unfold append_rest. cbn [optind nonopts rest nextchar optarg flag_cells].
    reflexivity.
Qed.

(** Only a call that returns ['?'] writes to stderr. *)
Lemma getopt_long_printed argc d :
  let r := getopt_long argc short_options long_options d in
  code r <> chr "?" -> printed r = [].
Proof.
  assert (Hshort : forall c more d0,
            code (short_option short_options c more d0) <> chr "?" ->
            printed (short_option short_options c more d0) = []).
  { intros c more d0. unfold short_option.
    break_match; try reflexivity; congruence. }
  assert (Hlong : forall text d0,
            code (process_long_option long_options text d0) <> chr "?" ->
            printed (process_long_option long_options text d0) = []).
  { intros text d0. unfold process_long_option.
    destruct (split_name text) as [nm value]. cbv zeta.
    destruct (find_option (fun o => String.eqb (name o) nm) 0 long_options)
      as [[i o]|].
    - break_match; try reflexivity; congruence.
    - destruct (find_option (fun o => prefix nm (name o)) 0 long_options)
        as [[i o]|]; [|cbn; congruence].
      destruct (forallb _ long_options); [|cbn; congruence].
      break_match; try reflexivity; congruence. }
  unfold getopt_long. cbv zeta.
  destruct (argc <? 1); [reflexivity|].
  destruct (nextchar d) as [|c more].
  - destruct (skip_nonoptions (rest d)) as [skipped l].
    destruct l as [|a l']; [reflexivity|].
    destruct (String.eqb a "--"); [reflexivity|].
    destruct a as [|c0 [|c1 text]]; try reflexivity.
    destruct (Ascii.eqb c1 "-"); [apply Hlong | apply Hshort].
  - apply Hshort.
Qed.

Lemma getopt_long_end argc d :
  let r := getopt_long argc short_options long_options d in
  1 <= argc -> code r = -1 ->
  rest (data r) = [] /\ nextchar (data r) = "".
Proof.
  unfold getopt_long. cbv zeta. intros Hargc.
  destruct (argc <? 1) eqn:Ea; [apply Z.ltb_lt in Ea; lia|].
  destruct (nextchar d) as [|c more] eqn:Enc.
  - destruct (skip_nonoptions (rest d)) as [skipped l] eqn:Esk.
    destruct l as [|a l']; [simpl; auto|].
    destruct (String.eqb a "--"); [simpl; auto|].
    pose proof (skip_nonoptions_head _ Esk) as Hopt.
    destruct a as [|c0 [|c1 text]]; try discriminate Hopt.
    destruct (Ascii.eqb c1 "-"); intros H.
    + apply process_long_option_code in H. contradiction.
    + apply short_option_code in H. contradiction.
  - intros H. apply short_option_code in H. contradiction.
Qed.

(* ===================================================================== *)
(** ** Facts about the program                                            *)
(* ===================================================================== *)

(** Unfolds the monad and the primitive actions. *)
Ltac monad :=
  cbv beta iota delta
    [bind ret get emit emit_all printf fprintf_stderr set_args set_g_debug
     when SignalHandler call Help Version];
  cbn [fst snd m_dmm m_args quit_flag g_debug trace
       list_ monitor debug serial item_count items].

Section ProgramFacts.

Variable D : Type.
Variable dev : Device D.

Lemma prints_only_refl (st : state D) : prints_only st st.
Proof.
  repeat split. exists []. rewrite app_nil_r. auto.
Qed.

Lemma prints_only_trans (st1 st2 st3 : state D) :
  prints_only st1 st2 -> prints_only st2 st3 -> prints_only st1 st3.
Proof.
  intros (Hd & Hq & Hg & o1 & Ht & Ho) (Hd' & Hq' & Hg' & o2 & Ht' & Ho').
  repeat split; try congruence.
  exists (o1 ++ o2)%list. split.
  - rewrite Ht', Ht, app_assoc. reflexivity.
  - apply Forall_app; auto.
Qed.

Ltac prints_only_tac :=
  unfold prints_only; cbn [m_dmm quit_flag g_debug trace];
  split; [reflexivity | split; [reflexivity | split; [reflexivity|]]];
  first
    [ exists []; rewrite app_nil_r; split; [reflexivity | constructor]
    | eexists; split;
      [ rewrite <- ?app_assoc; reflexivity
      | repeat constructor ] ].

(** *** [ParseArguments] *)

Lemma ParseArguments_switch_prints r (st : state D) :
  prints_only st (snd (ParseArguments_switch r st)) /\
  items (m_args (snd (ParseArguments_switch r st))) = items (m_args st) /\
  item_count (m_args (snd (ParseArguments_switch r st)))
  = item_count (m_args st).
Proof.
  unfold ParseArguments_switch. cbv zeta.
  destruct (flag _); destruct (optarg (data r));
  repeat (monad; match goal with
                 | |- context [if ?x then _ else _] => destruct x
                 end);
  monad; (split; [prints_only_tac | split; reflexivity]).
Qed.

Lemma ParseArguments_loop_prints argc fuel :
  forall d (st : state D),
  prints_only st (snd (ParseArguments_loop fuel argc d st)) /\
  items (m_args (snd (ParseArguments_loop fuel argc d st))) = items (m_args st) /\
  item_count (m_args (snd (ParseArguments_loop fuel argc d st)))
  = item_count (m_args st).
Proof.
  induction fuel as [|fuel IH]; intros d st.
  - simpl. split; [apply prints_only_refl | split; reflexivity].
  - cbn [ParseArguments_loop]. monad.
    set (r := getopt_long argc short_options long_options d).
    set (st1 := {| m_dmm := m_dmm st; m_args := m_args st;
                   quit_flag := quit_flag st; g_debug := g_debug st;
                   trace := (trace st ++ map GetoptStderr (printed r))%list |}).
    assert (H1 : prints_only st st1).
    { unfold prints_only, st1; cbn.
      split; [reflexivity | split; [reflexivity | split; [reflexivity|]]].
      eexists; split; [reflexivity|].
      apply Forall_forall. intros e He. apply in_map_iff in He.
      destruct He as [x [<- _]]. reflexivity. }
    destruct (code r =? -1).
    + split; [exact H1 | split; reflexivity].
    + destruct (ParseArguments_switch_prints r st1) as (H2 & H3 & H3').
      change (m_args st1) with (m_args st) in H3, H3'.
      destruct (ParseArguments_switch r st1) as [[rc|] st2] eqn:Esw;
        cbn [fst snd] in *.
      * split; [eapply prints_only_trans; eassumption | split; assumption].
      * destruct (IH (data r) st2) as (H4 & H5 & H5').
        split; [|split; congruence].
        eapply prints_only_trans; [exact H1|].
        eapply prints_only_trans; eassumption.
Qed.

Lemma ParseArguments_switch_rc r (st : state D) rc :
  fst (ParseArguments_switch r st) = Some rc -> rc = 1 \/ rc = 2 \/ rc = -1.
Proof.
  unfold ParseArguments_switch. cbv zeta.
  destruct (flag _); destruct (optarg (data r));
  repeat (monad; match goal with
                 | |- context [if ?x then _ else _] => destruct x
                 end);
  monad; intros H; inversion H; auto.
Qed.

Lemma ParseArguments_loop_rc argc fuel :
  forall d (st : state D) rc,
  fst (ParseArguments_loop fuel argc d st) = Return rc ->
  rc = 1 \/ rc = 2 \/ rc = -1.
Proof.
  induction fuel as [|fuel IH]; intros d st rc.
  - simpl. discriminate.
  - cbn [ParseArguments_loop]. monad.
    destruct (code _ =? -1); [discriminate|].
    match goal with
    | |- context [ParseArguments_switch ?r ?s] =>
        pose proof (@ParseArguments_switch_rc r s) as Hsw;
        destruct (ParseArguments_switch r s) as [[rc'|] st2]
    end; cbn [fst snd] in *.
    + intros H; inversion H; subst. apply Hsw. reflexivity.
    + apply IH.
Qed.

(** The bound on the iterations is never reached. *)
Lemma ParseArguments_loop_fuel argc fuel :
  forall d (st : state D),
  (getopt_measure d < fuel)%nat ->
  fst (ParseArguments_loop fuel argc d st) <> OutOfFuel.
Proof.
  induction fuel as [|fuel IH]; intros d st Hm; [lia|].
  cbn [ParseArguments_loop]. monad.
  destruct (code _ =? -1) eqn:Ec; [discriminate|].
  apply Z.eqb_neq in Ec.
  apply (getopt_long_progress argc short_options long_options d) in Ec.
  match goal with
  | |- context [ParseArguments_switch ?r ?s] =>
      destruct (ParseArguments_switch r s) as [[rc'|] st2]
  end; cbn [fst snd]; [discriminate|].
  apply IH. lia.
Qed.

(** More iterations than needed change nothing. *)
Lemma ParseArguments_loop_more argc fuel :
  forall fuel' d (st : state D),
  (getopt_measure d < fuel)%nat -> (getopt_measure d < fuel')%nat ->
  ParseArguments_loop fuel argc d st = ParseArguments_loop fuel' argc d st.
Proof.
  induction fuel as [|fuel IH]; intros fuel' d st Hm Hm'; [lia|].
  destruct fuel' as [|fuel']; [lia|].
  cbn [ParseArguments_loop]. monad.
  destruct (code _ =? -1) eqn:Ec; [reflexivity|].
  apply Z.eqb_neq in Ec.
  apply (getopt_long_progress argc short_options long_options d) in Ec.
  match goal with
  | |- context [ParseArguments_switch ?r ?s] =>
      destruct (ParseArguments_switch r s) as [[rc'|] st2]
  end; [reflexivity|].
  apply IH; lia.
Qed.

(** So the loop of [ParseArguments] always ends by [break] or [return]. *)
Lemma ParseArguments_loop_ends argv (st : state D) :
  fst (ParseArguments_loop (S (getopt_measure (getopt_start argv)))
         (argc_of argv) (getopt_start argv) st) <> OutOfFuel.
Proof. apply ParseArguments_loop_fuel. lia. Qed.

(** When the loop is left by [break], every element of the command line
    is an option already taken or one of the non-options, which are in
    the order of the command line. *)
Lemma ParseArguments_loop_break argc fuel :
  forall d (st : state D) d' st',
  ParseArguments_loop fuel argc d st = (Break d', st') ->
  accounted d' = accounted d /\
  subseq (nonopts d' ++ rest d')%list (nonopts d ++ rest d)%list /\
  (1 <= argc -> rest d' = []).
Proof.
  induction fuel as [|fuel IH]; intros d st d' st'.
  - simpl. discriminate.
  - cbn [ParseArguments_loop]. monad.
    pose proof (getopt_long_count argc short_options long_options d) as Hc.
    pose proof (getopt_long_subseq argc short_options long_options d) as Hs.
    pose proof (@getopt_long_end argc d) as He.
    cbv zeta in Hs, He.
    destruct (code _ =? -1) eqn:Ec.
    + intros H; inversion H; subst. apply Z.eqb_eq in Ec.
      split; [exact Hc|]. split; [exact Hs|].
      intros Ha. apply He; assumption.
    + match goal with
      | |- context [ParseArguments_switch ?r ?s] =>
          destruct (ParseArguments_switch r s) as [[rc'|] st2]
      end; [discriminate|].
      intros H. apply IH in H. destruct H as (H1 & H2 & H3).
      split; [congruence|]. split; [|exact H3].
      eapply subseq_trans; eassumption.
Qed.

Lemma ParseArguments_prints argv (st : state D) :
  prints_only st (snd (ParseArguments argv st)).
Proof.
  unfold ParseArguments. monad.
  destruct (ParseArguments_loop_prints (argc_of argv)
              (S (getopt_measure (getopt_start argv))) (getopt_start argv) st)
    as [H _].
  destruct (ParseArguments_loop _ _ _ st) as [[d|rc|] st1]; cbn [fst snd] in *;
    try exact H.
  eapply prints_only_trans; [exact H|].
  repeat (monad; match goal with
                 | |- context [if ?x then _ else _] => destruct x
                 end);
  monad; prints_only_tac.
Qed.

(** After a successful parse [items] holds [item_count] strings (none
    when [item_count] is not positive), a subsequence of the command
    line after [argv[0]]. *)
Lemma ParseArguments_items argv (st st' : state D) :
  ParseArguments argv st = (0, st') ->
  items (m_args st) = [] ->
  List.length (items (m_args st')) = Z.to_nat (item_count (m_args st')) /\
  subseq (items (m_args st')) (tl argv) /\
  (argv <> [] -> item_count (m_args st') = Z.of_nat (List.length (items (m_args st')))).
Proof.
  unfold ParseArguments. monad.
  pose proof (@ParseArguments_loop_rc (argc_of argv)
                (S (getopt_measure (getopt_start argv))) (getopt_start argv) st)
    as Hrc.
  pose proof (@ParseArguments_loop_break (argc_of argv)
                (S (getopt_measure (getopt_start argv))) (getopt_start argv) st)
    as Hbr.
  destruct (ParseArguments_loop_prints (argc_of argv)
              (S (getopt_measure (getopt_start argv))) (getopt_start argv) st)
    as (_ & Hit & _).
  destruct (ParseArguments_loop _ _ _ st) as [[d|rc|] st1]; cbn [fst snd] in *.
  - destruct (Hbr d st1 eq_refl) as (Hc & Hs & Hr). clear Hbr Hrc.
    unfold accounted, getopt_start in Hc.
    cbn [optind nonopts rest List.length app] in Hc, Hs.
    intros H Hnil. rewrite Hnil in Hit.
    set (n := argc_of argv - optind d) in *.
    assert (Hne : argv <> [] ->
                  n = Z.of_nat (List.length (nonopts d ++ rest d)%list)).
    { intros Hne. rewrite length_app. unfold n, argc_of.
      destruct argv as [|a0 argv]; [congruence|].
      cbn [tl List.length] in *. lia. }
    assert (He : argv = [] -> n = -1).
    { intros ->. cbn [tl] in Hs. inversion Hs as [E1 E2| |].
      symmetry in E1. apply app_eq_nil in E1. destruct E1 as [E1 E3].
      rewrite E1, E3 in Hc. unfold n, argc_of. cbn in *. lia. }
    assert (Hsub : forall l : list string, subseq [] l)
      by (induction l; constructor; assumption).
    revert H. destruct (9 <=? debug (m_args st1)); monad;
      destruct (0 <? n) eqn:En; monad;
      intros H; inversion H; subst st'; clear H;
      cbn [m_args items item_count];
      try apply Z.ltb_lt in En; try apply Z.ltb_ge in En.
    all: destruct argv as [|a0 argv];
      [ specialize (He eq_refl); try lia
      | specialize (Hne ltac:(discriminate)) ].
    all: rewrite ?Hit; cbn [List.length tl]; repeat split;
      auto; try lia; try (intros; lia); try congruence.
    all: rewrite Hit in *; cbn [List.length] in *; lia.
  - intros H; inversion H; subst. destruct (Hrc 0 eq_refl) as [|[|]]; discriminate.
  - intros H; inversion H.
Qed.

(** *** [Init], [Run] and [Done] *)

Lemma advance_nil (st : state D) :
  advance st (m_dmm st) (quit_flag st) [] = st.
Proof. destruct st. unfold advance. cbn. rewrite app_nil_r. reflexivity. Qed.

Lemma Init_eq (st : state D) :
  let r := Open dev (serial (m_args st)) (m_dmm st) in
  Init dev st =
  (if result r then 0 else -1,
   advance st (device r) (after_call r (quit_flag st))
     (init_events (g_debug st) (serial (m_args st)) r)).
Proof.
  unfold Init, init_events, advance, after_call, sig_mark, run_line.
  cbv zeta. monad.
  destruct (9 <=? g_debug st); monad;
  destruct (Open dev (serial (m_args st)) (m_dmm st)) as [ok d' sg];
  cbn [result device sigint];
  destruct sg; monad; destruct ok; monad; cbn [negb];
  destruct (serial (m_args st)); monad;
  rewrite <- ?app_assoc; reflexivity.
Qed.

Lemma Done_eq (st : state D) :
  let r := Close dev (m_dmm st) in
  Done dev st =
  (tt, advance st (device r) (after_call r (quit_flag st))
         (run_line "Program::Done" (g_debug st) ++ [CallClose] ++ sig_mark r)).
Proof.
  unfold Done, advance, after_call, sig_mark, run_line.
  cbv zeta. monad.
  destruct (9 <=? g_debug st); monad;
  destruct (Close dev (m_dmm st)) as [[] d' sg];
  cbn [result device sigint];
  destruct sg; monad; rewrite <- ?app_assoc; reflexivity.
Qed.

Lemma Run_for_eq n :
  forall i (st : state D), 0 <= i ->
  Run_for dev n i st =
  let '(evs, q', d') :=
    receive_run dev
      (map (fun k => nth k (items (m_args st)) "") (seq (Z.to_nat i) n))
      (quit_flag st) (m_dmm st) in
  (tt, advance st d' q' evs).
Proof.
  induction n as [|n IH]; intros i st Hi.
  - cbn. rewrite advance_nil. reflexivity.
  - cbn [Run_for seq map receive_run]. monad.
    destruct (negb (quit_flag st =? 0)) eqn:Eq.
    + rewrite advance_nil. reflexivity.
    + set (index := atoi (nth (Z.to_nat i) (items (m_args st)) "")).
      destruct (ReceiveRecord dev index (quit_flag st) (m_dmm st))
        as [[] d1 sg] eqn:Er.
      cbn [result device sigint].
      unfold after_call, sig_mark. cbn [sigint device].
      replace (S (Z.to_nat i)) with (Z.to_nat (i + 1)) by lia.
      destruct sg; monad; rewrite IH by lia; cbn [m_args quit_flag m_dmm];
      destruct (receive_run dev _ _ d1) as [[evs q'] d'];
      unfold advance; cbn [m_dmm m_args quit_flag g_debug trace];
      rewrite <- ?app_assoc; reflexivity.
Qed.

Lemma Run_eq (st : state D) : Run dev st = Run_outcome dev st.
Proof.
  unfold Run, Run_outcome, targets_read. cbv zeta. monad.
  destruct (9 <=? g_debug st) eqn:Eg; monad.
  all: destruct (monitor (m_args st)); monad.
  all: try (destruct (Monitor dev (quit_flag st) (m_dmm st)) as [b d' sg];
            unfold advance, after_call, sig_mark, run_line; rewrite ?Eg;
            cbn [result device sigint];
            destruct sg; monad; rewrite <- ?app_assoc; reflexivity).
  all: destruct (list_ (m_args st)); monad.
  all: try (destruct (ListRecord dev (quit_flag st) (m_dmm st)) as [b d' sg];
            unfold advance, after_call, sig_mark, run_line; rewrite ?Eg;
            cbn [result device sigint];
            destruct sg; monad; rewrite <- ?app_assoc; reflexivity).
  all: destruct (0 <? item_count (m_args st)); monad.
  all: try (rewrite Run_for_eq by lia; cbn [m_args quit_flag m_dmm Z.to_nat];
            destruct (receive_run dev _ _ _) as [[evs q'] d'];
            unfold advance, run_line; rewrite ?Eg;
            cbn [m_dmm m_args quit_flag g_debug trace];
            rewrite <- ?app_assoc; reflexivity).
  all: destruct (0 <? g_debug st); monad;
       unfold advance, run_line; rewrite ?Eg;
       cbn [m_dmm m_args quit_flag g_debug trace app];
       rewrite <- ?app_assoc, ?app_nil_r; destruct st; reflexivity.
Qed.

(** *** Calls in a trace *)

Lemma calls_of_app (t1 t2 : list event) :
  calls_of (t1 ++ t2) = (calls_of t1 ++ calls_of t2)%list.
Proof. apply filter_app. Qed.

Lemma calls_of_outputs (t : list event) :
  Forall (fun e => is_output e = true) t -> calls_of t = [].
Proof.
  induction 1 as [|e t He _ IH]; [reflexivity|].
  unfold calls_of in *. cbn [filter]. rewrite IH.
  destruct e; try discriminate He; reflexivity.
Qed.

Lemma calls_of_run_line text g : calls_of (run_line text g) = [].
Proof. unfold run_line. destruct (9 <=? g); reflexivity. Qed.

Lemma calls_of_sig_mark R (r : reply D R) : calls_of (sig_mark r) = [].
Proof. unfold sig_mark. destruct (sigint r); reflexivity. Qed.

Lemma In_sig_mark R (r : reply D R) e : In e (sig_mark r) -> e = Sigint /\ sigint r = true.
Proof.
  unfold sig_mark. destruct (sigint r); cbn; [|contradiction].
  intros [<-|[]]. auto.
Qed.

(** *** The loop over the targets *)

Lemma receive_run_set l d q :
  q <> 0 -> receive_run dev l q d = ([], q, d).
Proof.
  intros Hq. destruct l as [|t l]; [reflexivity|].
  cbn. apply Z.eqb_neq in Hq. rewrite Hq. reflexivity.
Qed.

Lemma receive_run_spec l :
  forall q d,
  let '(evs, q', d') := receive_run dev l q d in
  exists k : nat,
    (k <= List.length l)%nat /\
    calls_of evs = map receive_call (firstn k l) /\
    ((k < List.length l)%nat -> q <> 0 \/ In Sigint evs) /\
    (forall pre i q0 post,
        evs = (pre ++ CallReceiveRecord i q0 :: post)%list ->
        ~ In Sigint pre /\ q0 = 0) /\
    Forall (fun e => is_mode_call e = true \/ e = Sigint) evs.
Proof.
  induction l as [|t l IH]; intros q d.
  - cbn. exists 0%nat.
    split; [lia|]. split; [reflexivity|]. split; [lia|]. split.
    + intros pre i q0 post H. destruct pre; discriminate H.
    + constructor.
  - cbn [receive_run].
    destruct (q =? 0) eqn:Eq; cbn [negb].
    + apply Z.eqb_eq in Eq. subst q.
      set (r := ReceiveRecord dev (atoi t) 0 d).
      unfold after_call, sig_mark. destruct (sigint r) eqn:Es.
      * rewrite receive_run_set by (unfold SIGINT; lia).
        exists 1%nat. cbn [List.length firstn map app calls_of filter is_call].
        split; [lia|]. split; [reflexivity|]. split; [cbn; auto|]. split.
        -- intros pre i q0 post H.
           destruct pre as [|e pre]; cbn in H.
           ++ inversion H; subst. auto.
           ++ inversion H as [[He Hp]]. destruct pre as [|e' pre]; cbn in Hp;
              [discriminate Hp|]. inversion Hp as [[He' Hp']].
              destruct pre; discriminate Hp'.
        -- constructor; [left; reflexivity|].
           constructor; [right; reflexivity | constructor].
      * specialize (IH 0 (device r)).
        destruct (receive_run dev l 0 (device r)) as [[evs q'] d'].
        destruct IH as (k & Hk & Hc & Hs & Hp & Hf).
        exists (S k). cbn [List.length firstn map app calls_of filter is_call].
        split; [lia|]. split; [fold (calls_of evs); rewrite Hc; reflexivity|].
        split.
        -- intros Hlt. right. right. destruct (Hs ltac:(lia)) as [H|H];
             [congruence | exact H].
        -- split.
           ++ intros pre i q0 post H.
              destruct pre as [|e pre]; cbn in H.
              ** inversion H; subst. auto.
              ** inversion H as [[He Hpre]]. subst e.
                 destruct (Hp _ _ _ _ Hpre) as [Hn Hq0].
                 split; [|exact Hq0]. intros [Hbad|Hbad];
                   [discriminate Hbad | exact (Hn Hbad)].
           ++ constructor; [left; reflexivity | exact Hf].
    + apply Z.eqb_neq in Eq.
      exists 0%nat. cbn [List.length firstn map calls_of filter].
      split; [lia|]. split; [reflexivity|]. split; [auto|]. split.
      * intros pre i q0 post H. destruct pre; discriminate H.
      * constructor.
Qed.

(** Without a signal every target is received. *)
Lemma receive_run_quiet l :
  (forall i q d, sigint (ReceiveRecord dev i q d) = false) ->
  forall d, fst (fst (receive_run dev l 0 d)) = map receive_call l.
Proof.
  intros Hquiet. induction l as [|t l IH]; intros d; [reflexivity|].
  cbn [receive_run Z.eqb negb].
  unfold after_call, sig_mark. rewrite Hquiet.
  specialize (IH (device (ReceiveRecord dev (atoi t) 0 d))).
  destruct (receive_run dev l 0 _) as [[evs q'] d'].
  cbn [fst app map] in *. rewrite IH. reflexivity.
Qed.

Lemma targets_read_items (a : args) :
  List.length (items a) = Z.to_nat (item_count a) ->
  targets_read a = items a.
Proof.
  unfold targets_read. intros <-.
  apply nth_ext with (d := "") (d' := "").
  - rewrite length_map, length_seq. reflexivity.
  - intros n Hn. rewrite length_map, length_seq in Hn.
    rewrite (nth_indep _ _ (nth 0 (items a) "")) by (rewrite length_map, length_seq; exact Hn).
    rewrite (map_nth (fun i => nth i (items a) "")).
    rewrite seq_nth by exact Hn. reflexivity.
Qed.

(** *** [Main] *)

Lemma Main_eq argv (st : state D) :
  Main dev argv st =
  let '(rc0, st0) := ParseArguments argv st in
  if rc0 =? 0 then
    let a := m_args st0 in
    let st1 := {| m_dmm := m_dmm st0; m_args := a;
                  quit_flag := quit_flag st0; g_debug := debug a;
                  trace := trace st0 |} in
    let r := Open dev (serial a) (m_dmm st0) in
    let st2 := advance st1 (device r) (after_call r (quit_flag st0))
                 (init_events (debug a) (serial a) r) in
    if result r then
      let '(rc, st3) := Run_outcome dev st2 in
      let c := Close dev (m_dmm st3) in
      (rc, advance st3 (device c) (after_call c (quit_flag st3))
             (run_line "Program::Done" (g_debug st3) ++ [CallClose] ++ sig_mark c))
    else (-1, st2)
  else (rc0, st0).
Proof.
  unfold Main. monad.
  destruct (ParseArguments argv st) as [rc0 st0].
  destruct (rc0 =? 0); cbn [negb]; [|reflexivity].
  rewrite Init_eq. cbv zeta. cbn [m_args m_dmm quit_flag g_debug].
  destruct (result (Open dev (serial (m_args st0)) (m_dmm st0)));
    cbn [Z.eqb negb]; [|reflexivity].
  rewrite Run_eq.
  destruct (Run_outcome dev _) as [rc st3].
  rewrite Done_eq. reflexivity.
Qed.

Lemma Run_outcome_frame (st : state D) :
  g_debug (snd (Run_outcome dev st)) = g_debug st /\
  m_args (snd (Run_outcome dev st)) = m_args st /\
  exists new, trace (snd (Run_outcome dev st)) = (trace st ++ new)%list /\
              Forall (fun e => is_mode_call e = true) (calls_of new).
Proof.
  unfold Run_outcome. cbv zeta.
  destruct (monitor (m_args st)); [|destruct (list_ (m_args st));
    [|destruct (0 <? item_count (m_args st))]].
  - unfold advance; cbn [fst snd g_debug m_args trace].
    split; [reflexivity|]. split; [reflexivity|].
    eexists; split; [reflexivity|].
    rewrite !calls_of_app, calls_of_run_line, calls_of_sig_mark.
    cbn. repeat constructor.
  - unfold advance; cbn [fst snd g_debug m_args trace].
    split; [reflexivity|]. split; [reflexivity|].
    eexists; split; [reflexivity|].
    rewrite !calls_of_app, calls_of_run_line, calls_of_sig_mark.
    cbn. repeat constructor.
  - pose proof (receive_run_spec (targets_read (m_args st)) (quit_flag st) (m_dmm st)) as H.
    destruct (receive_run dev _ _ _) as [[evs q'] d'].
    destruct H as (k & _ & Hc & _ & _ & _).
    unfold advance; cbn [fst snd g_debug m_args trace].
    split; [reflexivity|]. split; [reflexivity|].
    eexists; split; [reflexivity|].
    rewrite !calls_of_app, calls_of_run_line, Hc. cbn [app calls_of filter is_call].
    apply Forall_forall. intros e He. apply in_map_iff in He.
    destruct He as [t [<- _]]. reflexivity.
  - unfold advance; cbn [fst snd g_debug m_args trace].
    split; [reflexivity|]. split; [reflexivity|].
    eexists; split; [reflexivity|].
    rewrite !calls_of_app, calls_of_run_line.
    destruct (0 <? g_debug st); constructor.
Qed.

Lemma calls_of_init_events g s (r : reply D bool) :
  calls_of (init_events g s r) = [CallOpen s (result r)].
Proof.
  unfold init_events.
  rewrite !calls_of_app, calls_of_run_line, calls_of_sig_mark.
  destruct (result r); [reflexivity|]. destruct s; reflexivity.
Qed.

(** [main] is [Main] on a fresh [Program], and the line of the
    destructor. *)
Lemma main_Main dmm argv :
  let run := Main dev argv (Program dmm) in
  fst (main dev dmm argv) = fst run /\
  trace (snd (main dev dmm argv)) =
    (trace (snd run) ++ free_line (m_args (snd run)) (g_debug (snd run)))%list.
Proof.
  cbv zeta. unfold main, Program_destructor, free_line. monad.
  destruct (Main dev argv (Program dmm)) as [rc st]. cbn [fst snd].
  destruct (items (m_args st)); monad; [rewrite app_nil_r; auto|].
  destruct (9 <=? g_debug st); monad; [auto | rewrite app_nil_r; auto].
Qed.

Lemma calls_of_free_line a g : calls_of (free_line a g) = [].
Proof.
  unfold free_line. destruct (items a); [reflexivity|].
  destruct (9 <=? g); reflexivity.
Qed.

Lemma In_free_line a g e :
  In e (free_line a g) -> e = Stdout ("Free memory" ++ nl) /\ items a <> [].
Proof.
  unfold free_line. destruct (items a); [contradiction|].
  destruct (9 <=? g); [|contradiction].
  intros [<-|[]]. split; [reflexivity | discriminate].
Qed.

(** [Main] on a fresh [Program]: the parse, which only prints, then
    [Init], and after a successful [Open] the mode and [Done]. *)
Lemma Main_fresh dmm argv :
  let '(rc0, st0) := ParseArguments argv (Program dmm) in
  let a := m_args st0 in
  let r := Open dev (serial a) dmm in
  let st2 := {| m_dmm := device r; m_args := a;
                quit_flag := after_call r 0; g_debug := debug a;
                trace := trace st0 ++ init_events (debug a) (serial a) r |} in
  Main dev argv (Program dmm) =
  (if rc0 =? 0 then
     if result r then
       let '(rc, st3) := Run_outcome dev st2 in
       let c := Close dev (m_dmm st3) in
       (rc, advance st3 (device c) (after_call c (quit_flag st3))
              (run_line "Program::Done" (debug a) ++ [CallClose] ++ sig_mark c))
     else (-1, st2)
   else (rc0, st0)) /\
  Forall (fun e => is_output e = true) (trace st0).
Proof.
  rewrite Main_eq.
  pose proof (ParseArguments_prints argv (Program dmm))
    as (Hd & Hq & Hg & out & Ht & Ho).
  destruct (ParseArguments argv (Program dmm)) as [rc0 st0].
  cbn [snd Program m_dmm quit_flag g_debug trace app] in *.
  rewrite Hd, Hq. cbv zeta. split; [|rewrite Ht; exact Ho].
  destruct (rc0 =? 0); [|reflexivity].
  unfold advance. cbn [m_dmm m_args quit_flag g_debug trace].
  destruct (result (Open dev (serial (m_args st0)) dmm)); [|reflexivity].
  match goal with
  | |- context [Run_outcome dev ?s] =>
      destruct (Run_outcome_frame s) as (Hg3 & _);
      destruct (Run_outcome dev s) as [rc st3]
  end.
  cbn [snd g_debug] in Hg3. rewrite Hg3. reflexivity.
Qed.

End ProgramFacts.

(* ===================================================================== *)
(** ** Facts about whole runs                                            *)
(* ===================================================================== *)

Section RunFacts.

Variable D : Type.
Variable dev : Device D.

(** The whole run when no mode is selected. *)
Lemma main_idle (dmm : D) (argv : list string) (st0 : state D) :
  ParseArguments argv (Program dmm) = (0, st0) ->
  monitor (m_args st0) = false ->
  list_ (m_args st0) = false ->
  item_count (m_args st0) <= 0 ->
  let a := m_args st0 in
  let g := debug a in
  let r := Open dev (serial a) dmm in
  let c := Close dev (device r) in
  fst (main dev dmm argv) =
    (if result r then (if 0 <? g then 0 else 1) else -1) /\
  trace (snd (main dev dmm argv)) =
    (trace st0 ++ init_events g (serial a) r ++
     if result r then
       run_line "Program::Run" g ++
       (if 0 <? g then [] else [Stdout help_msg]) ++
       run_line "Program::Done" g ++ [CallClose] ++ sig_mark c
     else [])%list.
Proof.
  intros Hp Hm Hl Hi. destruct (main_Main dev dmm argv) as [-> ->].
  assert (Hit : items (m_args st0) = []).
  { destruct (@ParseArguments_items D argv _ _ Hp eq_refl) as (Hlen & _).
    apply length_zero_iff_nil. lia. }
  pose proof (Main_fresh dev dmm argv) as H.
  rewrite Hp in H. cbv zeta in H. destruct H as [-> _]. cbv zeta.
  cbn [Z.eqb].
  destruct (result (Open dev (serial (m_args st0)) dmm)).
  - unfold Run_outcome. cbn [m_args g_debug quit_flag m_dmm].
    rewrite Hm, Hl. apply Z.ltb_ge in Hi. rewrite Hi.
    unfold advance, free_line. cbn [fst snd trace m_dmm m_args].
    rewrite Hit, app_nil_r.
    split; [reflexivity|]. rewrite <- !app_assoc. reflexivity.
  - unfold free_line. cbn [fst snd trace m_args]. rewrite Hit, !app_nil_r.
    auto.
Qed.

Lemma In_run_line text g e :
  In e (run_line text g) -> e = Stderr (text ++ nl) /\ 9 <= g.
Proof.
  unfold run_line. destruct (9 <=? g) eqn:E; [|contradiction].
  intros [<-|[]]. split; [reflexivity | apply Z.leb_le; exact E].
Qed.

Lemma In_init_events g s (r : reply D bool) e :
  In e (init_events g s r) ->
  (exists text, e = Stderr text) \/ e = CallOpen s (result r) \/ e = Sigint.
Proof.
  unfold init_events. intros H.
  apply in_app_or in H. destruct H as [H|H].
  { apply In_run_line in H. destruct H as [-> _]. left. eauto. }
  cbn [app] in H. destruct H as [<-|H]; [auto|].
  apply in_app_or in H. destruct H as [H|H].
  { apply In_sig_mark in H. destruct H as [-> _]. auto. }
  destruct (result r); [contradiction|].
  destruct H as [<-|H]; [left; eauto|].
  destruct s; [|contradiction]. destruct H as [<-|[]]. left. eauto.
Qed.

(** Locating an element of [l1 ++ l2 ++ l3] that occurs neither in [l1]
    nor in [l3]. *)
Lemma split_after_prefix {A} (x : A) (l1 : list A) :
  forall l pre post,
  (l1 ++ l)%list = (pre ++ x :: post)%list -> ~ In x l1 ->
  exists pre', pre = (l1 ++ pre')%list /\ l = (pre' ++ x :: post)%list.
Proof.
  induction l1 as [|a l1 IH]; intros l pre post H Hn.
  - exists pre. auto.
  - destruct pre as [|b pre]; cbn in H; inversion H; subst.
    + exfalso. apply Hn. left. reflexivity.
    + destruct (IH l pre post) as (pre' & -> & ->); [assumption | |].
      * intros Hin. apply Hn. right. exact Hin.
      * exists pre'. auto.
Qed.

Lemma split_before_suffix {A} (x : A) (l3 : list A) :
  forall pre l2 post,
  (l2 ++ l3)%list = (pre ++ x :: post)%list -> ~ In x l3 ->
  exists post', post = (post' ++ l3)%list /\ l2 = (pre ++ x :: post')%list.
Proof.
  induction pre as [|a pre IH]; intros l2 post H Hn.
  - destruct l2 as [|b l2]; cbn in H.
    + exfalso. apply Hn. rewrite H. left. reflexivity.
    + inversion H; subst. exists l2. auto.
  - destruct l2 as [|b l2]; cbn in H.
    + exfalso. apply Hn. rewrite H. right. apply in_or_app. right. left. reflexivity.
    + inversion H; subst.
      destruct (IH l2 post) as (post' & -> & ->); [assumption | assumption |].
      exists post'. auto.
Qed.

(** The whole run in Receive mode. *)
Lemma main_receive (dmm : D) (argv : list string) (st0 : state D) :
  ParseArguments argv (Program dmm) = (0, st0) ->
  monitor (m_args st0) = false ->
  list_ (m_args st0) = false ->
  0 < item_count (m_args st0) ->
  let a := m_args st0 in
  let r := Open dev (serial a) dmm in
  result r = true ->
  let '(evs, q', d') := receive_run dev (items a) (after_call r 0) (device r) in
  let c := Close dev d' in
  fst (main dev dmm argv) = 0 /\
  trace (snd (main dev dmm argv)) =
    ((trace st0 ++ init_events (debug a) (serial a) r ++
      run_line "Program::Run" (debug a) ++
      [Stderr ("Ctrl-C to abort the long operation" ++ nl)]) ++
     evs ++
     (run_line "Program::Done" (debug a) ++ [CallClose] ++ sig_mark c ++
      free_line a (debug a)))%list /\
  Forall (fun e => is_output e = true) (trace st0) /\
  subseq (items a) (tl argv).
Proof.
  intros Hp Hm Hl Hi. cbv zeta. intros Er.
  destruct (main_Main dev dmm argv) as [-> ->].
  pose proof (Main_fresh dev dmm argv) as H.
  rewrite Hp in H. cbv zeta in H. destruct H as [-> Ho].
  destruct (@ParseArguments_items D argv _ _ Hp eq_refl) as (Hlen & Hsub & _).
  rewrite Er. cbn [Z.eqb].
  unfold Run_outcome. cbn [m_args g_debug quit_flag m_dmm].
  rewrite Hm, Hl. apply Z.ltb_lt in Hi. rewrite Hi.
  rewrite (targets_read_items _ Hlen).
  destruct (receive_run dev _ _ _) as [[evs q'] d'].
  unfold advance. cbn [fst snd trace m_dmm m_args g_debug].
  split; [reflexivity|]. split; [|auto].
  rewrite <- !app_assoc. reflexivity.
Qed.

Lemma digits_value_no_digit s acc :
  match s with String c _ => isdigit c | EmptyString => false end = false ->
  digits_value acc s = acc.
Proof. destruct s as [|c s]; cbn; [reflexivity|]. intros ->. reflexivity. Qed.

(** Without a number at its head a string converts to 0. *)
Lemma atoi_no_number (t : string) : starts_with_number t = false -> atoi t = 0.
Proof.
  unfold starts_with_number, atoi, strtol.
  destruct (skip_space t) as [|c r]; [reflexivity|].
  destruct (Ascii.eqb c "-") eqn:Em; cbn [orb].
  - intros H. rewrite (digits_value_no_digit r 0 H). reflexivity.
  - destruct (Ascii.eqb c "+") eqn:Ep.
    + intros H. rewrite (digits_value_no_digit r 0 H). reflexivity.
    + intros H. rewrite (digits_value_no_digit (String c r) 0 H). reflexivity.
Qed.

(** *** Scanning the elements that are harmless *)

Lemma argc_ok argc : 1 <= argc -> (argc <? 1) = false.
Proof. intros H. apply Z.ltb_ge. exact H. Qed.

(** A non-option at the head of what is left is set aside. *)
Lemma getopt_long_skip argc optstring longopts d t l :
  1 <= argc ->
  nextchar d = "" -> rest d = t :: l -> NONOPTION_P t = true ->
  getopt_long argc optstring longopts d =
  getopt_long argc optstring longopts
    {| optind := optind d; nonopts := nonopts d ++ [t]; rest := l;
       nextchar := ""; optarg := optarg d; flag_cells := flag_cells d |}.
Proof.
  intros Ha Hn Hr Ht. unfold getopt_long.
  rewrite (argc_ok Ha), Hn, Hr.
  cbn [nextchar rest nonopts optind flag_cells skip_nonoptions].
  rewrite Ht. destruct (skip_nonoptions l) as [sk l2].
  destruct l2 as [|a l'];
    [rewrite <- !app_assoc; reflexivity|].
  destruct (String.eqb a "--");
    rewrite <- !app_assoc; reflexivity.
Qed.

(** The flags [-m], [-l], [-h], [-v], [--help] and [--version]. *)
Lemma getopt_long_flag argc d f c l :
  1 <= argc -> nextchar d = "" -> rest d = f :: l ->
  In (f, c) [("-m", "m"%char); ("-l", "l"%char); ("-h", "h"%char);
             ("-v", "v"%char); ("--help", "h"%char);
             ("--version", "v"%char)] ->
  let r := getopt_long argc short_options long_options d in
  code r = chr c /\ printed r = [] /\
  data r = {| optind := optind d + 1; nonopts := nonopts d; rest := l;
              nextchar := ""; optarg := None; flag_cells := flag_cells d |}.
Proof.
  intros Ha Hn Hr Hin. unfold getopt_long.
  rewrite (argc_ok Ha), Hn, Hr.
  cbn [In] in Hin.
  repeat (destruct Hin as [Hin|Hin];
          [injection Hin as <- <-; cbn; rewrite app_nil_r, ?Z.add_0_r; auto|]).
  contradiction.
Qed.

(** The options [-d], [-s], [--debug] and [--serial] take the next
    element as their argument, whatever it is. *)
Lemma getopt_long_arg argc d f c a l :
  1 <= argc -> nextchar d = "" -> rest d = f :: a :: l ->
  In (f, c) [("-d", "d"%char); ("-s", "s"%char); ("--debug", "d"%char);
             ("--serial", "s"%char)] ->
  let r := getopt_long argc short_options long_options d in
  code r = chr c /\ printed r = [] /\
  data r = {| optind := optind d + 2; nonopts := nonopts d; rest := l;
              nextchar := ""; optarg := Some a; flag_cells := flag_cells d |}.
Proof.
  intros Ha Hn Hr Hin. unfold getopt_long.
  rewrite (argc_ok Ha), Hn, Hr.
  cbn [In] in Hin.
  repeat (destruct Hin as [Hin|Hin];
          [injection Hin as <- <-; cbn; rewrite app_nil_r;
           replace (optind d + 1 + 1) with (optind d + 2) by lia; auto|]).
  contradiction.
Qed.

(** The cases of the switch for the values these elements give. *)
Lemma switch_h r (st : state D) :
  code r = chr "h" ->
  ParseArguments_switch r st =
  (Some 1, {| m_dmm := m_dmm st; m_args := m_args st;
              quit_flag := quit_flag st; g_debug := g_debug st;
              trace := trace st ++ [Stdout help_msg] |}).
Proof. intros Hc. unfold ParseArguments_switch. rewrite Hc. reflexivity. Qed.

Lemma switch_v r (st : state D) :
  code r = chr "v" ->
  ParseArguments_switch r st =
  (Some 2, {| m_dmm := m_dmm st; m_args := m_args st;
              quit_flag := quit_flag st; g_debug := g_debug st;
              trace := trace st ++ [Stdout (version_info ++ nl)] |}).
Proof. intros Hc. unfold ParseArguments_switch. rewrite Hc. reflexivity. Qed.

Lemma switch_m r (st : state D) :
  code r = chr "m" ->
  ParseArguments_switch r st =
  (None, {| m_dmm := m_dmm st;
            m_args := {| list_ := list_ (m_args st); monitor := true;
                         debug := debug (m_args st);
                         serial := serial (m_args st);
                         item_count := item_count (m_args st);
                         items := items (m_args st) |};
            quit_flag := quit_flag st; g_debug := g_debug st;
            trace := trace st |}).
Proof. intros Hc. unfold ParseArguments_switch. rewrite Hc. reflexivity. Qed.

Lemma switch_l r (st : state D) :
  code r = chr "l" ->
  ParseArguments_switch r st =
  (None, {| m_dmm := m_dmm st;
            m_args := {| list_ := true; monitor := monitor (m_args st);
                         debug := debug (m_args st);
                         serial := serial (m_args st);
                         item_count := item_count (m_args st);
                         items := items (m_args st) |};
            quit_flag := quit_flag st; g_debug := g_debug st;
            trace := trace st |}).
Proof. intros Hc. unfold ParseArguments_switch. rewrite Hc. reflexivity. Qed.

Lemma switch_s r (st : state D) :
  code r = chr "s" ->
  ParseArguments_switch r st =
  (None, {| m_dmm := m_dmm st;
            m_args := {| list_ := list_ (m_args st);
                         monitor := monitor (m_args st);
                         debug := debug (m_args st);
                         serial := optarg (data r);
                         item_count := item_count (m_args st);
                         items := items (m_args st) |};
            quit_flag := quit_flag st; g_debug := g_debug st;
            trace := trace st |}).
Proof. intros Hc. unfold ParseArguments_switch. rewrite Hc. reflexivity. Qed.

Lemma switch_d r (st : state D) a :
  code r = chr "d" -> optarg (data r) = Some a ->
  ParseArguments_switch r st =
  (None, {| m_dmm := m_dmm st;
            m_args := {| list_ := list_ (m_args st);
                         monitor := monitor (m_args st);
                         debug := atoi a;
                         serial := serial (m_args st);
                         item_count := item_count (m_args st);
                         items := items (m_args st) |};
            quit_flag := quit_flag st; g_debug := g_debug st;
            trace := trace st ++
                     if 9 <=? atoi a
                     then [Stdout ("Option -d with value: " ++ fmt_d (atoi a) ++ nl)]
                     else [] |}).
Proof.
  intros Hc Ho. unfold ParseArguments_switch. rewrite Hc, Ho.
  cbn [Z.eqb chr]. monad. destruct (9 <=? atoi a); monad;
    rewrite ?app_nil_r; reflexivity.
Qed.

(** One iteration of the loop of [ParseArguments]. *)
Lemma ParseArguments_loop_step fuel argc d (st : state D) :
  ParseArguments_loop (S fuel) argc d st =
  let r := getopt_long argc short_options long_options d in
  let st1 := {| m_dmm := m_dmm st; m_args := m_args st;
                quit_flag := quit_flag st; g_debug := g_debug st;
                trace := trace st ++ map GetoptStderr (printed r) |} in
  if code r =? -1 then (Break (data r), st1)
  else
    match ParseArguments_switch r st1 with
    | (Some rc, st2) => (Return rc, st2)
    | (None, st2) => ParseArguments_loop fuel argc (data r) st2
    end.
Proof.
  cbn [ParseArguments_loop]. monad. cbv zeta.
  destruct (code _ =? -1); [reflexivity|].
  destruct (ParseArguments_switch _ _) as [[rc|] st2]; reflexivity.
Qed.

(** What the harmless elements do to the loop. *)
Ltac scan_step getopt_fact switch_fact :=
  let Hc := fresh "Hc" in
  let Hp := fresh "Hp" in
  let Hd := fresh "Hd" in
  destruct getopt_fact as (Hc & Hp & Hd);
  rewrite ParseArguments_loop_step; cbv zeta; rewrite Hc, Hp;
  cbn [map Z.eqb chr N_of_ascii Z.of_N]; rewrite app_nil_r;
  rewrite switch_fact by (first [exact Hc | rewrite Hd; reflexivity]);
  rewrite ?Hd; reflexivity.

Lemma scan_m argc fuel d (st : state D) l :
  1 <= argc -> nextchar d = "" -> rest d = "-m" :: l ->
  ParseArguments_loop (S fuel) argc d st =
  ParseArguments_loop fuel argc
    {| optind := optind d + 1; nonopts := nonopts d; rest := l;
       nextchar := ""; optarg := None; flag_cells := flag_cells d |}
    {| m_dmm := m_dmm st;
       m_args := {| list_ := list_ (m_args st); monitor := true;
                    debug := debug (m_args st); serial := serial (m_args st);
                    item_count := item_count (m_args st);
                    items := items (m_args st) |};
       quit_flag := quit_flag st; g_debug := g_debug st;
       trace := trace st |}.
Proof.
  intros Ha Hn Hr.
  scan_step (@getopt_long_flag argc d "-m" "m"%char l Ha Hn Hr
               ltac:(cbn; tauto)) switch_m.
Qed.

Lemma scan_l argc fuel d (st : state D) l :
  1 <= argc -> nextchar d = "" -> rest d = "-l" :: l ->
  ParseArguments_loop (S fuel) argc d st =
  ParseArguments_loop fuel argc
    {| optind := optind d + 1; nonopts := nonopts d; rest := l;
       nextchar := ""; optarg := None; flag_cells := flag_cells d |}
    {| m_dmm := m_dmm st;
       m_args := {| list_ := true; monitor := monitor (m_args st);
                    debug := debug (m_args st); serial := serial (m_args st);
                    item_count := item_count (m_args st);
                    items := items (m_args st) |};
       quit_flag := quit_flag st; g_debug := g_debug st;
       trace := trace st |}.
Proof.
  intros Ha Hn Hr.
  scan_step (@getopt_long_flag argc d "-l" "l"%char l Ha Hn Hr
               ltac:(cbn; tauto)) switch_l.
Qed.

Lemma scan_s argc fuel d (st : state D) f a l :
  1 <= argc -> nextchar d = "" -> rest d = f :: a :: l ->
  In f ["-s"; "--serial"] ->
  ParseArguments_loop (S fuel) argc d st =
  ParseArguments_loop fuel argc
    {| optind := optind d + 2; nonopts := nonopts d; rest := l;
       nextchar := ""; optarg := Some a; flag_cells := flag_cells d |}
    {| m_dmm := m_dmm st;
       m_args := {| list_ := list_ (m_args st); monitor := monitor (m_args st);
                    debug := debug (m_args st); serial := Some a;
                    item_count := item_count (m_args st);
                    items := items (m_args st) |};
       quit_flag := quit_flag st; g_debug := g_debug st;
       trace := trace st |}.
Proof.
  intros Ha Hn Hr Hf.
  scan_step (@getopt_long_arg argc d f "s"%char a l Ha Hn Hr
               ltac:(cbn in *; intuition congruence)) switch_s.
Qed.

Lemma scan_d argc fuel d (st : state D) f a l :
  1 <= argc -> nextchar d = "" -> rest d = f :: a :: l ->
  In f ["-d"; "--debug"] ->
  ParseArguments_loop (S fuel) argc d st =
  ParseArguments_loop fuel argc
    {| optind := optind d + 2; nonopts := nonopts d; rest := l;
       nextchar := ""; optarg := Some a; flag_cells := flag_cells d |}
    {| m_dmm := m_dmm st;
       m_args := {| list_ := list_ (m_args st); monitor := monitor (m_args st);
                    debug := atoi a; serial := serial (m_args st);
                    item_count := item_count (m_args st);
                    items := items (m_args st) |};
       quit_flag := quit_flag st; g_debug := g_debug st;
       trace := trace st ++
                if 9 <=? atoi a
                then [Stdout ("Option -d with value: " ++ fmt_d (atoi a) ++ nl)]
                else [] |}.
Proof.
  intros Ha Hn Hr Hf.
  destruct (@getopt_long_arg argc d f "d"%char a l Ha Hn Hr
              ltac:(cbn in *; intuition congruence)) as (Hc & Hp & Hd).
  rewrite ParseArguments_loop_step; cbv zeta; rewrite Hc, Hp.
  cbn [map Z.eqb chr N_of_ascii Z.of_N]; rewrite app_nil_r.
  rewrite (@switch_d _ _ a Hc) by (rewrite Hd; reflexivity).
  rewrite Hd. reflexivity.
Qed.

Lemma scan_skip argc fuel d (st : state D) t l :
  1 <= argc -> nextchar d = "" -> rest d = t :: l -> NONOPTION_P t = true ->
  ParseArguments_loop (S fuel) argc d st =
  ParseArguments_loop (S fuel) argc
    {| optind := optind d; nonopts := nonopts d ++ [t]; rest := l;
       nextchar := ""; optarg := optarg d; flag_cells := flag_cells d |} st.
Proof.
  intros Ha Hn Hr Ht. rewrite !ParseArguments_loop_step.
  rewrite (getopt_long_skip short_options long_options d Ha Hn Hr Ht).
  reflexivity.
Qed.

(** Without a successful parse [Main] is over after [ParseArguments]. *)
Lemma Main_parse_only argv (st : state D) :
  fst (ParseArguments argv st) <> 0 ->
  Main dev argv st = ParseArguments argv st.
Proof.
  intros H. rewrite Main_eq.
  destruct (ParseArguments argv st) as [rc0 st0]. cbn [fst] in H.
  apply Z.eqb_neq in H. rewrite H. reflexivity.
Qed.

Lemma calls_of_stdout (out : list event) :
  Forall (fun e => exists text, e = Stdout text) out -> calls_of out = [].
Proof.
  intros H. apply calls_of_outputs.
  eapply Forall_impl; [|exact H]. intros e [text ->]. reflexivity.
Qed.

(** *** What follows a help or version flag *)

Lemma switch_more r (st : state D) post :
  ParseArguments_switch (append_rest_result post r) st
  = ParseArguments_switch r st.
Proof. reflexivity. Qed.

Lemma switch_error r (st : state D) :
  code r = chr "?" -> fst (ParseArguments_switch r st) = Some (-1).
Proof. intros Hc. unfold ParseArguments_switch. rewrite Hc. reflexivity. Qed.

(** The switch writes to stdout only. *)
Lemma switch_stdout r (st : state D) :
  exists out,
    trace (snd (ParseArguments_switch r st)) = (trace st ++ out)%list /\
    Forall (fun e => exists text, e = Stdout text) out.
Proof.
  unfold ParseArguments_switch. cbv zeta.
  destruct (flag _); destruct (optarg (data r));
  repeat (monad; match goal with
                 | |- context [if ?x then _ else _] => destruct x
                 end);
  monad;
  first
    [ exists []; rewrite app_nil_r; split; [reflexivity | constructor]
    | eexists; split;
      [ rewrite <- ?app_assoc; reflexivity
      | repeat (constructor; [eexists; reflexivity|]); constructor ] ].
Qed.

(** The switch returns 1 right after the help text, 2 right after the
    version text, and otherwise -1. *)
Lemma switch_return r (st : state D) rc st' :
  ParseArguments_switch r st = (Some rc, st') ->
  rc <> -1 ->
  (rc = 1 /\ trace st' = (trace st ++ [Stdout help_msg])%list) \/
  (rc = 2 /\ trace st' = (trace st ++ [Stdout (version_info ++ nl)])%list).
Proof.
  unfold ParseArguments_switch. cbv zeta.
  destruct (flag _); destruct (optarg (data r));
  repeat (monad; match goal with
                 | |- context [if ?x then _ else _] => destruct x
                 end);
  monad; intros H Hrc; inversion H; subst; try congruence; auto.
Qed.

(** A loop left by [return 1] or [return 2] has written to stdout only
    ([getopt_long] reported nothing), last the help text for 1 and the
    version text for 2. *)
Lemma ParseArguments_loop_stdout argc fuel :
  forall d (st : state D) rc st',
  ParseArguments_loop fuel argc d st = (Return rc, st') ->
  rc = 1 \/ rc = 2 ->
  exists out,
    trace st' =
      (trace st ++ out ++
       [Stdout (if rc =? 1 then help_msg else version_info ++ nl)])%list /\
    Forall (fun e => exists text, e = Stdout text) out.
Proof.
  induction fuel as [|fuel IH]; intros d st rc st' H Hrc; [discriminate H|].
  rewrite ParseArguments_loop_step in H. cbv zeta in H.
  destruct (code _ =? -1); [discriminate H|].
  destruct (Z.eq_dec (code (getopt_long argc short_options long_options d))
              (chr "?")) as [Hq|Hq].
  - match type of H with
    | context [ParseArguments_switch ?r ?s] =>
        pose proof (@switch_error r s Hq) as He;
        destruct (ParseArguments_switch r s) as [[rc'|] st2]
    end; cbn [fst] in He; [|discriminate He].
    inversion He; subst. inversion H; subst. destruct Hrc; discriminate.
  - rewrite (getopt_long_printed argc d Hq) in H. cbn [map] in H.
    match type of H with
    | context [ParseArguments_switch ?r ?s] =>
        destruct (@switch_stdout r s) as (o1 & Ht1 & Ho1);
        pose proof (@switch_return r s) as Hret;
        destruct (ParseArguments_switch r s) as [[rc'|] st2]
    end; cbn [snd trace] in Ht1; rewrite app_nil_r in Ht1.
    + inversion H; subst rc' st2.
      destruct (Hret rc st' eq_refl) as [[-> Hlast]|[-> Hlast]];
        [destruct Hrc; subst rc; discriminate| |];
        cbn [trace] in Hlast; rewrite app_nil_r in Hlast;
        (exists []; split; [exact Hlast | constructor]).
    + destruct (IH _ _ _ _ H Hrc) as (o2 & Ht2 & Ho2).
      exists (o1 ++ o2)%list. split.
      * rewrite Ht2, Ht1, <- !app_assoc. reflexivity.
      * apply Forall_app; auto.
Qed.

(** A loop left by [return 1] or [return 2] is left the same way, in
    the same state, on a longer command line. *)
Lemma ParseArguments_loop_longer argc argc' post fuel :
  forall fuel' d (st : state D) rc st',
  1 <= argc -> 1 <= argc' ->
  ParseArguments_loop fuel argc d st = (Return rc, st') ->
  rc = 1 \/ rc = 2 ->
  (getopt_measure (append_rest post d) < fuel')%nat ->
  ParseArguments_loop fuel' argc' (append_rest post d) st = (Return rc, st').
Proof.
  induction fuel as [|fuel IH]; intros fuel' d st rc st' Ha Ha' H Hrc Hm;
    [discriminate H|].
  destruct fuel' as [|fuel']; [lia|].
  rewrite ParseArguments_loop_step in H. rewrite ParseArguments_loop_step.
  cbv zeta in *.
  destruct (code (getopt_long argc short_options long_options d) =? -1)
    eqn:Ec; [discriminate H|].
  apply Z.eqb_neq in Ec.
  destruct (Z.eq_dec (code (getopt_long argc short_options long_options d))
              (chr "?")) as [Hq|Hq].
  - match type of H with
    | context [ParseArguments_switch ?r ?s] =>
        pose proof (@switch_error r s Hq) as He;
        destruct (ParseArguments_switch r s) as [[rc'|] st2]
    end; cbn [fst] in He; [|discriminate He].
    inversion He; subst. inversion H; subst. destruct Hrc; discriminate.
  - pose proof (getopt_long_progress argc' short_options long_options
                  (append_rest post d)) as Hprog.
    rewrite (getopt_long_more short_options long_options d post Ha Ha' Ec Hq)
      in *.
    cbn [code printed data append_rest_result] in *.
    apply Z.eqb_neq in Ec. rewrite Ec. apply Z.eqb_neq in Ec.
    rewrite switch_more.
    destruct (ParseArguments_switch _ _) as [[rc'|] st2]; [exact H|].
    apply (IH fuel' _ _ _ _ Ha Ha' H Hrc).
    specialize (Hprog Ec). lia.
Qed.

(** [ParseArguments] returning 1 or 2 returns the same, in the same
    state, whatever is added at the end of the command line. *)
Lemma ParseArguments_longer argv post (st : state D) rc st' :
  ParseArguments argv st = (rc, st') ->
  rc = 1 \/ rc = 2 ->
  ParseArguments (argv ++ post) st = (rc, st').
Proof.
  unfold ParseArguments. monad. intros H Hrc.
  destruct (ParseArguments_loop (S (getopt_measure (getopt_start argv)))
              (argc_of argv) (getopt_start argv) st)
    as [[d|rc0|] st1] eqn:E.
  - exfalso. revert H.
    repeat (monad; match goal with
                   | |- context [if ?x then _ else _] => destruct x
                   end);
    monad; intros H; inversion H; subst; destruct Hrc; discriminate.
  - inversion H; subst rc0 st1. clear H.
    destruct argv as [|a0 argv]; [cbn in E; discriminate E|].
    change (getopt_start ((a0 :: argv) ++ post))
      with (append_rest post (getopt_start (a0 :: argv))).
    erewrite (@ParseArguments_loop_longer (argc_of (a0 :: argv))
                (argc_of ((a0 :: argv) ++ post)) post);
      [reflexivity | | | exact E | exact Hrc | lia];
      unfold argc_of; cbn [List.length app]; lia.
  - inversion H; subst. destruct Hrc; discriminate.
Qed.

(** *** What a successful parse prints *)

(** The lines the parser prints on its way are not the help text. *)
Lemma switch_continue r (st st' : state D) :
  ParseArguments_switch r st = (None, st') ->
  exists out,
    trace st' = (trace st ++ out)%list /\
    Forall (fun e => exists text, e = Stdout text /\ text <> help_msg) out.
Proof.
  unfold ParseArguments_switch. cbv zeta.
  destruct (flag _); destruct (optarg (data r));
  repeat (monad; match goal with
                 | |- context [if ?x then _ else _] => destruct x
                 end);
  monad; intros H; inversion H; subst; clear H;
  first
    [ exists []; rewrite app_nil_r; split; [reflexivity | constructor]
    | eexists; split;
      [ rewrite <- ?app_assoc; reflexivity
      | repeat (constructor;
                [eexists; split;
                 [reflexivity
                 | let E := fresh in
                   intros E; unfold help_msg in E; cbn in E; discriminate E]|]);
        constructor ] ].
Qed.

Lemma ParseArguments_loop_break_output argc fuel :
  forall d (st : state D) d' st',
  ParseArguments_loop fuel argc d st = (Break d', st') ->
  exists out,
    trace st' = (trace st ++ out)%list /\
    Forall (fun e => exists text, e = Stdout text /\ text <> help_msg) out.
Proof.
  induction fuel as [|fuel IH]; intros d st d' st' H; [discriminate H|].
  rewrite ParseArguments_loop_step in H. cbv zeta in H.
  set (r := getopt_long argc short_options long_options d) in *.
  assert (Hp : printed r = []).
  { apply getopt_long_printed. intros Hq.
    destruct (code r =? -1) eqn:E.
    - apply Z.eqb_eq in E. fold r in Hq. rewrite E in Hq. discriminate Hq.
    - fold r in Hq. match type of H with
      | context [ParseArguments_switch r ?s] =>
          pose proof (switch_error r s Hq) as He;
          destruct (ParseArguments_switch r s) as [[rc'|] st2]
      end; cbn [fst] in He; [discriminate H | discriminate He]. }
  rewrite Hp in H. cbn [map] in H.
  destruct (code r =? -1).
  - inversion H; subst. exists []. cbn [trace]. split; [reflexivity | constructor].
  - match type of H with
    | context [ParseArguments_switch r ?s] =>
        pose proof (@switch_continue r s) as Hsw;
        destruct (ParseArguments_switch r s) as [[rc'|] st2]
    end; [discriminate H|].
    destruct (Hsw st2 eq_refl) as (o1 & Ht1 & Ho1).
    cbn [trace] in Ht1. rewrite app_nil_r in Ht1.
    destruct (IH _ _ _ _ H) as (o2 & Ht2 & Ho2).
    exists (o1 ++ o2)%list. split.
    + rewrite Ht2, Ht1, app_assoc. reflexivity.
    + apply Forall_app; auto.
Qed.

(** A parse that returns 0 has not printed the help text, and
    [getopt_long] has reported nothing. *)
Lemma ParseArguments_ok_output argv (st st' : state D) :
  ParseArguments argv st = (0, st') ->
  exists out,
    trace st' = (trace st ++ out)%list /\
    Forall (fun e => exists text, e = Stdout text /\ text <> help_msg) out.
Proof.
  unfold ParseArguments. monad.
  pose proof (@ParseArguments_loop_rc D (argc_of argv)
                (S (getopt_measure (getopt_start argv))) (getopt_start argv) st)
    as Hrc.
  pose proof (@ParseArguments_loop_break_output (argc_of argv)
                (S (getopt_measure (getopt_start argv))) (getopt_start argv) st)
    as Hbr.
  destruct (ParseArguments_loop _ _ _ st) as [[d|rc|] st1]; cbn [fst] in *.
  - destruct (Hbr d st1 eq_refl) as (o1 & Ht1 & Ho1). clear Hbr Hrc.
    repeat (monad; match goal with
                   | |- context [if ?x then _ else _] => destruct x
                   end);
    monad; intros H; inversion H; subst st'; clear H; cbn [trace];
    first
      [ exists o1; split; [exact Ht1 | exact Ho1]
      | eexists; split;
        [ rewrite Ht1, <- app_assoc; reflexivity
        | apply Forall_app; split; [exact Ho1|];
          constructor; [|constructor];
          eexists; split;
          [reflexivity
          | let E := fresh in
            intros E; unfold help_msg in E; cbn in E; discriminate E] ] ].
  - intros H; inversion H; subst.
    destruct (Hrc 0 eq_refl) as [|[|]]; discriminate.
  - intros H; inversion H.
Qed.

Lemma ParseArguments_ok_no_help argv dmm (st' : state D) :
  ParseArguments argv (Program dmm) = (0, st') ->
  ~ In (Stdout help_msg) (trace st').
Proof.
  intros H. destruct (ParseArguments_ok_output _ _ H) as (out & Ht & Ho).
  rewrite Ht. cbn [Program trace app]. intros Hin.
  rewrite Forall_forall in Ho. destruct (Ho _ Hin) as (text & E & Hne).
  injection E as E. congruence.
Qed.

End RunFacts.

(* ===================================================================== *)
(** ** Further facts                                                     *)
(* ===================================================================== *)

(** *** The values [getopt_long] returns *)

Lemma short_option_codes c more d :
  In (code (short_option short_options c more d))
     [chr "?"; chr "h"; chr "v"; chr "d"; chr "s"; chr "m"; chr "l"].
Proof.
  unfold short_option, short_options. cbn [strchr].
  repeat match goal with
  | |- context [Ascii.eqb ?x c] =>
      destruct (Ascii.eqb x c) eqn:?;
      [ match goal with H : Ascii.eqb _ c = true |- _ =>
          apply Ascii.eqb_eq in H; subst c end |]
  end;
  cbn; try tauto;
  destruct more; cbn; try tauto;
  destruct (rest d); cbn; tauto.
Qed.

Lemma getopt_long_codes argc d :
  In (code (getopt_long argc short_options long_options d))
     [-1; chr "?"; chr "h"; chr "v"; chr "d"; chr "s"; chr "m"; chr "l"].
Proof.
  assert (Hs : forall c more d0,
             In (code (short_option short_options c more d0))
                [-1; chr "?"; chr "h"; chr "v"; chr "d"; chr "s"; chr "m"; chr "l"])
    by (intros; right; apply short_option_codes).
  unfold getopt_long.
  destruct (argc <? 1); [left; reflexivity|].
  destruct (nextchar d) as [|c more]; [|apply Hs].
  destruct (skip_nonoptions (rest d)) as [skipped l].
  destruct l as [|a l']; [left; reflexivity|].
  destruct (String.eqb a "--"); [left; reflexivity|].
  destruct a as [|c0 [|c1 text]]; try (left; reflexivity).
  destruct (Ascii.eqb c1 "-"); [|apply Hs].
  match goal with
  | |- context [process_long_option ?lo ?t ?d0] =>
      destruct (process_long_option_entry lo t d0) as [H|[o [Hin H]]]
  end.
  - rewrite H. right. left. reflexivity.
  - destruct (long_options_entry Hin) as [Hf Hv].
    rewrite H, Hf. right. right. exact Hv.
Qed.

Lemma getopt_long_error argc d :
  let r := getopt_long argc short_options long_options d in
  code r = chr "?" -> exists e, printed r = [e].
Proof.
  assert (Hshort : forall c more d0,
            code (short_option short_options c more d0) = chr "?" ->
            exists e, printed (short_option short_options c more d0) = [e]).
  { intros c more d0. unfold short_option, short_options. cbn [strchr].
    repeat match goal with
    | |- context [Ascii.eqb ?x c] =>
        destruct (Ascii.eqb x c) eqn:?;
        [ match goal with H : Ascii.eqb _ c = true |- _ =>
            apply Ascii.eqb_eq in H; subst c end |]
    end;
    cbn; try (intros H; discriminate H); eauto;
    destruct more; cbn; try (intros H; discriminate H); eauto;
    destruct (rest d0); cbn; try (intros H; discriminate H); eauto. }
  assert (Hlong : forall text d0,
            code (process_long_option long_options text d0) = chr "?" ->
            exists e, printed (process_long_option long_options text d0) = [e]).
  { intros text d0. unfold process_long_option.
    destruct (split_name text) as [nm value]. cbv zeta.
    assert (Hval : forall o, In o long_options -> val o <> chr "?").
    { intros o Hin. destruct (long_options_entry Hin) as [_ Hv]. cbn in Hv.
      repeat (destruct Hv as [Hv|Hv]; [rewrite <- Hv; discriminate|]).
      contradiction. }
    destruct (find_option (fun o => String.eqb (name o) nm) 0 long_options)
      as [[i o]|] eqn:E1.
    - apply find_option_In in E1. destruct E1 as [Hin _].
      specialize (Hval o Hin).
      break_match; eauto; intros H; exfalso; first [discriminate H | auto].
    - destruct (find_option (fun o => prefix nm (name o)) 0 long_options)
        as [[i o]|] eqn:E2; [|cbn; eauto].
      apply find_option_In in E2. destruct E2 as [Hin _].
      specialize (Hval o Hin).
      destruct (forallb _ long_options); [|cbn; eauto].
      break_match; eauto; intros H; exfalso; first [discriminate H | auto]. }
  unfold getopt_long. cbv zeta.
  destruct (argc <? 1); [intros H; discriminate H|].
  destruct (nextchar d) as [|c more]; [|apply Hshort].
  destruct (skip_nonoptions (rest d)) as [skipped l].
  destruct l as [|a l']; [intros H; discriminate H|].
  destruct (String.eqb a "--"); [intros H; discriminate H|].
  destruct a as [|c0 [|c1 text]]; try (intros H; discriminate H).
  destruct (Ascii.eqb c1 "-"); [apply Hlong | apply Hshort].
Qed.

Section Inventory.
Variable D : Type.

Lemma switch_inventory r (st : state D) :
  In (code r)
     [-1; chr "?"; chr "h"; chr "v"; chr "d"; chr "s"; chr "m"; chr "l"] ->
  code r <> -1 ->
  exists out,
    trace (snd (ParseArguments_switch r st)) = (trace st ++ out)%list /\
    Forall parse_output out /\
    Forall (fun e => exists text, e = Stdout text) out.
Proof.
  intros Hin Hne.
  unfold ParseArguments_switch. cbv zeta.
  destruct (code r =? 0) eqn:E0.
  { exfalso. apply Z.eqb_eq in E0. rewrite E0 in Hin. cbn in Hin.
    repeat (destruct Hin as [Hin|Hin]; [discriminate Hin|]). exact Hin. }
  destruct (optarg (data r));
  repeat (monad; match goal with
                 | |- context [if ?x then _ else _] => destruct x eqn:?
                 end);
  monad.
  all: try (exists []; rewrite app_nil_r; split; [reflexivity|];
            split; constructor; fail).
  all: eexists; (split; [reflexivity|]); split;
    (constructor; [|constructor]); unfold parse_output; eauto.
  all: right; right; right; left; eexists;
    split; [apply Z.leb_le; eassumption | reflexivity].
Qed.

End Inventory.

Section ErrorFacts.
Variable D : Type.
Variable dev : Device D.

Lemma switch_q r (st : state D) :
  code r = chr "?" ->
  ParseArguments_switch r st =
  (Some (-1), {| m_dmm := m_dmm st; m_args := m_args st;
                 quit_flag := quit_flag st; g_debug := g_debug st;
                 trace := trace st ++ [Stdout help_msg] |}).
Proof. intros Hc. unfold ParseArguments_switch. rewrite Hc. reflexivity. Qed.

(** With the tables of the program the switch returns -1 only for
    ['?']. *)
Lemma switch_error_only r (st : state D) :
  In (code r)
     [-1; chr "?"; chr "h"; chr "v"; chr "d"; chr "s"; chr "m"; chr "l"] ->
  code r <> -1 ->
  fst (ParseArguments_switch r st) = Some (-1) -> code r = chr "?".
Proof.
  intros Hin Hne. cbn [In] in Hin.
  destruct Hin as [H|[H|[H|[H|[H|[H|[H|[H|[]]]]]]]]]; symmetry in H;
    try congruence.
  - rewrite (switch_h _ _ H). discriminate.
  - rewrite (switch_v _ _ H). discriminate.
  - unfold ParseArguments_switch. rewrite H. cbn [Z.eqb chr N_of_ascii Z.of_N Pos.eqb].
    monad. destruct (9 <=? _); monad; discriminate.
  - rewrite (switch_s _ _ H). discriminate.
  - rewrite (switch_m _ _ H). discriminate.
  - rewrite (switch_l _ _ H). discriminate.
Qed.

(** [ParseArguments] returns 0, 1, 2 or -1. *)
Lemma ParseArguments_rc argv (st : state D) :
  In (fst (ParseArguments argv st)) [0; 1; 2; -1].
Proof.
  unfold ParseArguments. monad.
  pose proof (@ParseArguments_loop_rc D (argc_of argv)
                (S (getopt_measure (getopt_start argv))) (getopt_start argv) st)
    as Hrc.
  destruct (ParseArguments_loop _ _ _ st) as [[d|rc|] st1]; cbn [fst] in *.
  - repeat (monad; match goal with
                   | |- context [if ?x then _ else _] => destruct x
                   end);
    monad; cbn; tauto.
  - monad. destruct (Hrc rc eq_refl) as [-> | [-> | ->]]; cbn; tauto.
  - monad. cbn; tauto.
Qed.

(** Without a successful parse the whole run is the parse. *)
Lemma main_parse_only dmm argv :
  fst (ParseArguments argv (Program dmm)) <> 0 ->
  main dev dmm argv = ParseArguments argv (Program dmm).
Proof.
  intros H. unfold main. monad.
  rewrite (Main_parse_only dev argv (Program dmm) H).
  destruct (@ParseArguments_loop_prints D (argc_of argv)
              (S (getopt_measure (getopt_start argv))) (getopt_start argv)
              (Program dmm)) as (_ & Hit & _).
  revert H Hit. unfold ParseArguments. monad.
  destruct (ParseArguments_loop _ _ _ (Program dmm)) as [[d|rc|] st1];
    cbn [fst snd Program m_args items].
  - intros H. exfalso. revert H.
    repeat (monad; match goal with
                   | |- context [if ?x then _ else _] => destruct x
                   end);
    monad; cbn [fst]; congruence.
  - intros _ Hit. unfold Program_destructor. monad. rewrite Hit. reflexivity.
  - intros _ Hit. unfold Program_destructor. monad. rewrite Hit. reflexivity.
Qed.

(** What [Run] adds to the trace. *)
Lemma Run_outcome_events (st : state D) :
  exists body,
    trace (snd (Run_outcome dev st)) =
      (trace st ++ run_line "Program::Run" (g_debug st) ++ body)%list /\
    Forall run_event body /\
    (fst (Run_outcome dev st) = 1 -> In (Stdout help_msg) body).
Proof.
  unfold Run_outcome. cbv zeta.
  destruct (monitor (m_args st)); [|destruct (list_ (m_args st));
    [|destruct (0 <? item_count (m_args st))]].
  - unfold advance; cbn [fst snd trace]. eexists; split; [reflexivity|].
    split; [|destruct (result _); discriminate].
    constructor; [left; reflexivity|].
    constructor; [right; right; right; right; left; reflexivity|].
    unfold sig_mark. destruct (sigint _); [|constructor].
    constructor; [|constructor].
    right; right; right; right; right; reflexivity.
  - unfold advance; cbn [fst snd trace]. eexists; split; [reflexivity|].
    split; [|discriminate].
    constructor; [right; left; reflexivity|].
    constructor; [right; right; right; right; left; reflexivity|].
    unfold sig_mark. destruct (sigint _); [|constructor].
    constructor; [|constructor].
    right; right; right; right; right; reflexivity.
  - pose proof (receive_run_spec dev (targets_read (m_args st))
                  (quit_flag st) (m_dmm st)) as H.
    destruct (receive_run dev _ _ _) as [[evs q'] d'].
    destruct H as (k & _ & _ & _ & _ & Hf).
    unfold advance; cbn [fst snd trace]. eexists; split; [reflexivity|].
    split; [|discriminate].
    constructor; [right; right; left; reflexivity|].
    eapply Forall_impl; [|exact Hf]. intros e [He|He];
      [right; right; right; right; left; exact He
      |right; right; right; right; right; exact He].
  - unfold advance; cbn [fst snd trace]. eexists; split; [reflexivity|].
    destruct (0 <? g_debug st); [split; [constructor | discriminate]|].
    split; [|intros _; left; reflexivity].
    constructor; [|constructor].
    right; right; right; left; reflexivity.
Qed.

Lemma Run_outcome_status (st : state D) :
  In (fst (Run_outcome dev st)) [0; 1; -1].
Proof.
  unfold Run_outcome. cbv zeta.
  destruct (monitor (m_args st)); [|destruct (list_ (m_args st));
    [|destruct (0 <? item_count (m_args st))]].
  - cbn [fst]. destruct (result _); cbn; tauto.
  - cbn; tauto.
  - destruct (receive_run dev _ _ _) as [[evs q'] d']. cbn; tauto.
  - cbn [fst]. destruct (0 <? g_debug st); cbn; tauto.
Qed.

(** The whole run after a successful parse. *)
Lemma main_parsed dmm argv (st0 : state D) :
  ParseArguments argv (Program dmm) = (0, st0) ->
  let a := m_args st0 in
  let g := debug a in
  let r := Open dev (serial a) dmm in
  exists body (c : reply D unit),
    trace (snd (main dev dmm argv)) =
      (trace st0 ++ init_events g (serial a) r ++
       (if result r then
          run_line "Program::Run" g ++ body ++
          run_line "Program::Done" g ++ [CallClose] ++ sig_mark c
        else []) ++
       free_line a g)%list /\
    Forall run_event body /\
    In (fst (main dev dmm argv)) [0; 1; -1] /\
    (fst (main dev dmm argv) = 1 -> In (Stdout help_msg) body) /\
    (result r = false -> fst (main dev dmm argv) = -1).
Proof.
  intros Hp. cbv zeta. destruct (main_Main dev dmm argv) as [-> ->].
  pose proof (Main_fresh dev dmm argv) as H.
  rewrite Hp in H. cbv zeta in H. destruct H as [-> _]. cbn [Z.eqb].
  destruct (result (Open dev (serial (m_args st0)) dmm)).
  - match goal with
    | |- context [Run_outcome dev ?s] =>
        destruct (Run_outcome_events s) as (body & Ht & Hb & Hone);
        destruct (Run_outcome_frame dev s) as (Hg & Ha & _);
        pose proof (Run_outcome_status s) as Hrc;
        destruct (Run_outcome dev s) as [rc st3]
    end.
    cbn [fst snd trace g_debug m_args] in *.
    exists body, (Close dev (m_dmm st3)). unfold advance. cbn [trace m_args g_debug].
    rewrite Ht, Ha, Hg, <- !app_assoc. split; [reflexivity|]. split; [exact Hb|].
    split; [exact Hrc|]. split; [exact Hone | discriminate].
  - exists [], (Close dev dmm). cbn [fst snd trace m_args g_debug].
    rewrite <- app_assoc. split; [reflexivity|].
    split; [constructor|]. split; [cbn; tauto|].
    split; [discriminate | reflexivity].
Qed.

End ErrorFacts.

Section MoreRunFacts.
Variable D : Type.
Variable dev : Device D.

(** A parse that returns 1 or 2 has written to stdout only, last the
    help text for 1 and the version text for 2. *)
Lemma ParseArguments_stdout argv (st st' : state D) rc :
  ParseArguments argv st = (rc, st') ->
  rc = 1 \/ rc = 2 ->
  exists out,
    trace st' =
      (trace st ++ out ++
       [Stdout (if rc =? 1 then help_msg else version_info ++ nl)])%list /\
    Forall (fun e => exists text, e = Stdout text) out.
Proof.
  unfold ParseArguments. monad. intros H Hrc.
  pose proof (@ParseArguments_loop_stdout D (argc_of argv)
                (S (getopt_measure (getopt_start argv)))
                (getopt_start argv) st) as Hout.
  destruct (ParseArguments_loop _ _ _ st) as [[d|rc0|] st1].
  - exfalso. revert H.
    repeat (monad; match goal with
                   | |- context [if ?x then _ else _] => destruct x
                   end);
    monad; intros H; inversion H; subst; destruct Hrc; discriminate.
  - inversion H; subst rc0 st1. apply (Hout rc st' eq_refl Hrc).
  - inversion H; subst. destruct Hrc; discriminate.
Qed.

End MoreRunFacts.

(** *** Harmless elements *)

Section Harmless.
Variable D : Type.

Lemma getopt_long_ignores_optarg argc optstring longopts d x :
  1 <= argc ->
  getopt_long argc optstring longopts
    {| optind := optind d; nonopts := nonopts d; rest := rest d;
       nextchar := nextchar d; optarg := x; flag_cells := flag_cells d |}
  = getopt_long argc optstring longopts d.
Proof.
  intros Ha. unfold getopt_long. rewrite (argc_ok Ha).
  cbn [optind nonopts rest nextchar flag_cells]. reflexivity.
Qed.

(** The loop goes on from [d'] as from [d] when the two agree on all but
    [optarg], which no call reads. *)
Lemma ParseArguments_loop_same argc fuel fuel' d d' (st : state D) :
  1 <= argc ->
  optind d' = optind d -> nonopts d' = nonopts d -> rest d' = rest d ->
  nextchar d' = nextchar d -> flag_cells d' = flag_cells d ->
  (getopt_measure d < fuel)%nat -> (getopt_measure d < fuel')%nat ->
  ParseArguments_loop fuel argc d st = ParseArguments_loop fuel' argc d' st.
Proof.
  intros Ha H1 H2 H3 H4 H5 Hm Hm'.
  rewrite (@ParseArguments_loop_more D argc fuel fuel' d st Hm Hm').
  destruct fuel' as [|fuel']; [lia|].
  rewrite !ParseArguments_loop_step.
  rewrite <- (getopt_long_ignores_optarg short_options long_options d
                (optarg d') Ha).
  rewrite <- H1, <- H2, <- H3, <- H4, <- H5.
  destruct d'; reflexivity.
Qed.

Lemma harmless_args_items l :
  forall a, items (harmless_args l a) = items a /\
            item_count (harmless_args l a) = item_count a.
Proof.
  assert (H : forall n l, (List.length l <= n)%nat ->
            forall a, items (harmless_args l a) = items a /\
                      item_count (harmless_args l a) = item_count a).
  { induction n as [|n IH]; intros l0 Hl a.
    - destruct l0; [cbn; auto | cbn in Hl; lia].
    - destruct l0 as [|x l']; [cbn; auto|]. cbn [List.length] in Hl.
      cbn [harmless_args].
      destruct (NONOPTION_P x); [apply IH; lia|].
      destruct (String.eqb x "-m");
        [destruct (IH l' ltac:(lia)
                     {| list_ := list_ a; monitor := true; debug := debug a;
                        serial := serial a; item_count := item_count a;
                        items := items a |}); auto|].
      destruct (String.eqb x "-l");
        [destruct (IH l' ltac:(lia)
                     {| list_ := true; monitor := monitor a; debug := debug a;
                        serial := serial a; item_count := item_count a;
                        items := items a |}); auto|].
      destruct l' as [|v l'']; [auto|]. cbn [List.length] in Hl.
      destruct (String.eqb x "-d" || String.eqb x "--debug");
        [destruct (IH l'' ltac:(lia)
                     {| list_ := list_ a; monitor := monitor a; debug := atoi v;
                        serial := serial a; item_count := item_count a;
                        items := items a |}); auto|].
      destruct (String.eqb x "-s" || String.eqb x "--serial");
        [destruct (IH l'' ltac:(lia)
                     {| list_ := list_ a; monitor := monitor a; debug := debug a;
                        serial := Some v; item_count := item_count a;
                        items := items a |}); auto|].
      auto. }
  intros a. apply (H (List.length l) l (le_n _)).
Qed.

Ltac use_IH :=
  match goal with
  | IH : forall pre, (List.length pre <= _)%nat -> _,
    Hb : benign ?pre = true, Ha : 1 <= ?argc,
    Hm' : (measure_list ?tail < ?fuel')%nat,
    Hmeas : forall k dk, _ -> _ -> getopt_measure dk = measure_list k
    |- ParseArguments_loop ?f ?argc ?d1 ?s1 = _ =>
      rewrite (IH pre ltac:(cbn [List.length] in *; lia) Hb argc f fuel' d1 s1
                 tail Ha eq_refl eq_refl);
      [ | rewrite (Hmeas (pre ++ tail)%list) by reflexivity; lia | exact Hm' ]
  end.

(** The loop of [ParseArguments] over harmless elements: it reaches what
    follows them with the positional arguments set aside, the members
    set and the echo lines printed as in the reading from left to right. *)
Lemma scan_harmless n :
  forall pre, (List.length pre <= n)%nat -> benign pre = true ->
  forall argc fuel fuel' d (st : state D) tail,
    1 <= argc -> nextchar d = "" -> rest d = (pre ++ tail)%list ->
    (getopt_measure d < fuel)%nat -> (measure_list tail < fuel')%nat ->
    ParseArguments_loop fuel argc d st =
    ParseArguments_loop fuel' argc
      {| optind := optind d + Z.of_nat (List.length pre)
                   - Z.of_nat (List.length (positionals pre));
         nonopts := nonopts d ++ positionals pre; rest := tail;
         nextchar := ""; optarg := None; flag_cells := flag_cells d |}
      {| m_dmm := m_dmm st; m_args := harmless_args pre (m_args st);
         quit_flag := quit_flag st; g_debug := g_debug st;
         trace := trace st ++ harmless_output pre |}.
Proof.
  induction n as [|n IH]; intros pre Hlen Hb argc fuel fuel' d st tail
    Ha Hn Hr Hm Hm'.
  - destruct pre; [|cbn in Hlen; lia].
    cbn [app List.length positionals harmless_args harmless_output] in *.
    rewrite !app_nil_r.
    replace {| m_dmm := m_dmm st; m_args := m_args st;
               quit_flag := quit_flag st; g_debug := g_debug st;
               trace := trace st |} with st by (destruct st; reflexivity).
    apply ParseArguments_loop_same; cbn [optind nonopts rest nextchar flag_cells];
      auto; try lia; try (rewrite app_nil_r; reflexivity).
    unfold getopt_measure. rewrite Hn, Hr. cbn. lia.
  - destruct pre as [|a pre].
    { apply (IH [] ltac:(cbn; lia) Hb argc fuel fuel' d st tail Ha Hn Hr Hm Hm'). }
    cbn [benign] in Hb. cbn [List.length] in Hlen. cbn [app] in Hr.
    assert (Hmeas : forall k dk, nextchar dk = "" -> rest dk = k ->
              getopt_measure dk = measure_list k).
    { intros k dk H1 H2. unfold getopt_measure. rewrite H1, H2. reflexivity. }
    rewrite (Hmeas _ d Hn Hr) in Hm. cbn [measure_list] in Hm.
    destruct fuel as [|fuel]; [lia|].
    destruct (NONOPTION_P a) eqn:Hno; cbn [orb] in Hb.
    + (* a positional argument *)
      rewrite (scan_skip fuel d st Ha Hn Hr Hno).
      use_IH.
      cbn [optind nonopts flag_cells positionals harmless_args harmless_output
           List.length orb].
      rewrite Hno. cbn [orb List.length].
      f_equal. f_equal; [lia | rewrite <- app_assoc; reflexivity].
    + destruct (flag_alone a) eqn:Hfl.
      * unfold flag_alone in Hfl. apply orb_true_iff in Hfl.
        destruct Hfl as [E|E]; apply String.eqb_eq in E; subst a.
        -- rewrite (scan_m fuel d st Ha Hn Hr).
           use_IH.
           cbn. f_equal. f_equal. lia.
        -- rewrite (scan_l fuel d st Ha Hn Hr).
           use_IH.
           cbn. f_equal. f_equal. lia.
      * destruct (flag_with_arg a) eqn:Hfw; [|discriminate Hb].
        destruct pre as [|b pre]; [discriminate Hb|].
        cbn [List.length] in Hlen. cbn [app measure_list] in Hr, Hm.
        unfold flag_with_arg in Hfw. rewrite !orb_true_iff in Hfw.
        destruct Hfw as [[[E|E]|E]|E]; apply String.eqb_eq in E; subst a.
        -- rewrite (@scan_d D argc fuel d st "-d" b _ Ha Hn Hr
                      ltac:(cbn; tauto)).
           use_IH.
           cbn. rewrite <- app_assoc. f_equal. f_equal. lia.
        -- rewrite (@scan_s D argc fuel d st "-s" b _ Ha Hn Hr
                      ltac:(cbn; tauto)).
           use_IH.
           cbn. f_equal. f_equal. lia.
        -- rewrite (@scan_d D argc fuel d st "--debug" b _ Ha Hn Hr
                      ltac:(cbn; tauto)).
           use_IH.
           cbn. rewrite <- app_assoc. f_equal. f_equal. lia.
        -- rewrite (@scan_s D argc fuel d st "--serial" b _ Ha Hn Hr
                      ltac:(cbn; tauto)).
           use_IH.
           cbn. f_equal. f_equal. lia.
Qed.

End Harmless.

Section HarmlessLines.
Variable D : Type.
Variable dev : Device D.

(** The members after the parse of a command line whose harmless
    elements are [pre] and whose positional arguments are [targets]. *)
Lemma ParseArguments_scanned (prog : string) (pre tail targets : list string)
    (dmm : D) (k : Z) :
  benign pre = true ->
  (forall argc d,
      1 <= argc -> nextchar d = "" -> rest d = tail ->
      let r := getopt_long argc short_options long_options d in
      code r = -1 /\ printed r = [] /\
      optind (data r) = optind d + k /\
      (nonopts (data r) ++ rest (data r))%list = (nonopts d ++ targets)%list) ->
  Z.of_nat (List.length tail) = k + Z.of_nat (List.length targets) ->
  let a := harmless_args pre (m_args (Program dmm)) in
  let n := Z.of_nat (List.length (positionals pre ++ targets)) in
  ParseArguments (prog :: pre ++ tail) (Program dmm) =
  (0, {| m_dmm := dmm;
         m_args := {| list_ := list_ a; monitor := monitor a;
                      debug := debug a; serial := serial a;
                      item_count := n;
                      items := (positionals pre ++ targets)%list |};
         quit_flag := 0; g_debug := 0;
         trace := harmless_output pre ++
                  if 9 <=? debug a
                  then [Stdout ("Positional argument count: "
                                ++ fmt_d n ++ nl)]
                  else [] |}).
Proof.
  intros Hb Hend Hk. cbv zeta.
  unfold ParseArguments. monad.
  assert (Hargc : 1 <= argc_of (prog :: pre ++ tail))
    by (unfold argc_of; cbn [List.length]; lia).
  rewrite (@scan_harmless D (List.length pre) pre (le_n _) Hb
             (argc_of (prog :: pre ++ tail)) _ (S (measure_list tail))
             (getopt_start (prog :: pre ++ tail)) (Program dmm) tail
             Hargc eq_refl eq_refl); [|lia|lia].
  rewrite ParseArguments_loop_step. cbv zeta.
  match goal with
  | |- context [getopt_long ?argc _ _ ?d] =>
      destruct (Hend argc d Hargc eq_refl eq_refl) as (Hc & Hp & Ho & Hn)
  end.
  rewrite Hc, Hp. cbn [Z.eqb Pos.eqb map]. monad. rewrite Ho, Hn.
  clear Hc Hp Ho Hn.
  cbn [getopt_start optind nonopts app Program m_dmm m_args quit_flag g_debug
       trace] in *.
  set (a := harmless_args pre _) in *.
  destruct (harmless_args_items pre
              {| list_ := false; monitor := false; debug := 0; serial := None;
                 item_count := 0; items := [] |}) as [Hit _].
  fold a in Hit. cbn [items] in Hit.
  assert (En : argc_of (prog :: pre ++ tail)
               - (1 + Z.of_nat (List.length pre)
                  - Z.of_nat (List.length (positionals pre)) + k)
               = Z.of_nat (List.length (positionals pre ++ targets))).
  { unfold argc_of. cbn [List.length]. rewrite !length_app. lia. }
  rewrite En. rewrite app_nil_r.
  destruct (9 <=? debug a); monad;
    destruct (0 <? Z.of_nat (List.length (positionals pre ++ targets))) eqn:E0;
    monad; rewrite ?app_nil_r; try reflexivity.
  all: apply Z.ltb_ge in E0;
    assert (Hnil : (positionals pre ++ targets)%list = [])
      by (apply length_zero_iff_nil; lia);
    rewrite Hnil, Hit; reflexivity.
Qed.

End HarmlessLines.

(** *** Decimal numerals *)

(** [digits_value] reads the digits [printf] writes. *)
Lemma digits_value_acc (d : Decimal.uint) :
  forall acc : positive,
  digits_value (Z.pos acc) (NilEmpty.string_of_uint d)
  = Z.pos (Pos.of_uint_acc d acc).
Proof.
  induction d; intros acc; cbn [NilEmpty.string_of_uint Pos.of_uint_acc];
    [reflexivity|..];
    unfold digits_value; fold digits_value;
    match goal with
    | |- (if isdigit ?c then _ else _) = _ =>
        change (isdigit c) with true; cbv iota
    end;
    match goal with
    | |- digits_value ?v _ = Z.pos (Pos.of_uint_acc _ ?p) =>
        replace v with (Z.pos p)
          by (match goal with
              | |- context [chr ?c] =>
                  let k := eval vm_compute in (chr c) in
                  change (chr c) with k
              end; lia)
    end; apply IHd.
Qed.

Lemma digits_value_uint (d : Decimal.uint) :
  digits_value 0 (NilEmpty.string_of_uint d) = Z.of_N (Pos.of_uint d).
Proof.
  induction d; cbn [NilEmpty.string_of_uint Pos.of_uint];
    [reflexivity|..];
    unfold digits_value; fold digits_value;
    match goal with
    | |- (if isdigit ?c then _ else _) = _ =>
        change (isdigit c) with true; cbv iota
    end;
    [ exact IHd | .. ];
    match goal with
    | |- digits_value ?v _ = Z.of_N (N.pos (Pos.of_uint_acc _ ?p)) =>
        change v with (Z.pos p)
    end; apply digits_value_acc.
Qed.

(** The numeral of a positive number starts with a digit. *)
Lemma string_of_uint_head (d : Decimal.uint) :
  d <> Decimal.Nil ->
  exists c s, NilEmpty.string_of_uint d = String c s /\
              isdigit c = true /\ isspace c = false /\
              Ascii.eqb c "-" = false /\ Ascii.eqb c "+" = false.
Proof.
  destruct d; [congruence|..]; intros _; cbn [NilEmpty.string_of_uint];
    eexists; eexists; (split; [reflexivity|]); repeat split; reflexivity.
Qed.

Lemma strtol_pos (p : positive) :
  Z.pos p <= LONG_MAX ->
  strtol (NilEmpty.string_of_uint (Pos.to_uint p)) = Z.pos p.
Proof.
  intros Hp.
  pose proof (digits_value_uint (Pos.to_uint p)) as Hv.
  rewrite DecimalPos.Unsigned.of_to in Hv. cbn [Z.of_N] in Hv.
  destruct (string_of_uint_head (Unsigned.to_uint_nonnil p))
    as (c & s & E & Hd & Hs & Hm & Hpl).
  rewrite E in *. unfold strtol. cbn [skip_space]. rewrite Hs, Hm, Hpl, Hv.
  destruct (LONG_MAX <? Z.pos p) eqn:El; [apply Z.ltb_lt in El; lia|].
  reflexivity.
Qed.

Lemma strtol_neg (p : positive) :
  LONG_MIN <= Z.neg p ->
  strtol (String "-" (NilEmpty.string_of_uint (Pos.to_uint p))) = Z.neg p.
Proof.
  intros Hp.
  pose proof (digits_value_uint (Pos.to_uint p)) as Hv.
  rewrite DecimalPos.Unsigned.of_to in Hv. cbn [Z.of_N] in Hv.
  unfold strtol. cbn [skip_space].
  change (isspace "-") with false. cbv iota.
  change (Ascii.eqb "-" "-") with true. cbv iota. rewrite Hv.
  destruct (- Z.pos p <? LONG_MIN) eqn:El; [apply Z.ltb_lt in El; lia|].
  reflexivity.
Qed.

Lemma NilZero_string_of_uint_pos (p : positive) :
  NilZero.string_of_uint (Pos.to_uint p)
  = NilEmpty.string_of_uint (Pos.to_uint p).
Proof.
  pose proof (Unsigned.to_uint_nonnil p) as H.
  destruct (Pos.to_uint p); [congruence|..]; reflexivity.
Qed.

(** [atoi] reads back what [%d] writes, for every [int]. *)
Lemma atoi_fmt_d (n : Z) :
  INT_MIN <= n < 2 ^ 31 -> atoi (fmt_d n) = n.
Proof.
  intros Hn. unfold atoi, fmt_d.
  assert (Hint : to_int n = n).
  { unfold to_int. rewrite Z.mod_small; unfold INT_MIN in *; lia. }
  destruct n as [|p|p]; cbn [Z.to_int NilZero.string_of_int].
  - reflexivity.
  - rewrite NilZero_string_of_uint_pos, strtol_pos; [exact Hint|].
    unfold LONG_MAX. lia.
  - rewrite NilZero_string_of_uint_pos, strtol_neg; [exact Hint|].
    unfold LONG_MIN, INT_MIN in *. lia.
Qed.

(** The numeral of a number that is not negative is not taken for an
    option. *)
Lemma NONOPTION_P_fmt_d (n : Z) : 0 <= n -> NONOPTION_P (fmt_d n) = true.
Proof.
  intros Hn. unfold fmt_d.
  destruct n as [|p|p]; cbn [Z.to_int NilZero.string_of_int]; [reflexivity| |lia].
  rewrite NilZero_string_of_uint_pos.
  destruct (string_of_uint_head (Unsigned.to_uint_nonnil p))
    as (c & s & E & Hd & Hs & Hm & Hpl).
  rewrite E. unfold NONOPTION_P. destruct s; [reflexivity|].
  rewrite Hm. reflexivity.
Qed.

Section HarmlessEnds.
Variable D : Type.
Variable dev : Device D.

(** The scan ends when nothing is left, and at ["--"], after which every
    element is a non-option. *)
Lemma getopt_long_nothing_left argc d :
  1 <= argc -> nextchar d = "" -> rest d = [] ->
  let r := getopt_long argc short_options long_options d in
  code r = -1 /\ printed r = [] /\
  optind (data r) = optind d + 0 /\
  (nonopts (data r) ++ rest (data r))%list = (nonopts d ++ [])%list.
Proof.
  intros Ha Hn Hr. unfold getopt_long. rewrite (argc_ok Ha), Hn, Hr.
  cbn. rewrite !app_nil_r. repeat split. lia.
Qed.

Lemma getopt_long_double_dash argc d post :
  1 <= argc -> nextchar d = "" -> rest d = "--" :: post ->
  let r := getopt_long argc short_options long_options d in
  code r = -1 /\ printed r = [] /\
  optind (data r) = optind d + 1 /\
  (nonopts (data r) ++ rest (data r))%list = (nonopts d ++ post)%list.
Proof.
  intros Ha Hn Hr. unfold getopt_long. rewrite (argc_ok Ha), Hn, Hr.
  cbn. rewrite !app_nil_r. repeat split.
Qed.

Lemma ParseArguments_harmless (prog : string) (l : list string) (dmm : D) :
  benign l = true ->
  let a := harmless_args l (m_args (Program dmm)) in
  let n := Z.of_nat (List.length (positionals l)) in
  ParseArguments (prog :: l) (Program dmm) =
  (0, {| m_dmm := dmm;
         m_args := {| list_ := list_ a; monitor := monitor a;
                      debug := debug a; serial := serial a;
                      item_count := n; items := positionals l |};
         quit_flag := 0; g_debug := 0;
         trace := harmless_output l ++
                  if 9 <=? debug a
                  then [Stdout ("Positional argument count: "
                                ++ fmt_d n ++ nl)]
                  else [] |}).
Proof.
  intros Hb.
  pose proof (@ParseArguments_scanned D prog l [] [] dmm 0 Hb
                (fun argc d => @getopt_long_nothing_left argc d) eq_refl) as H.
  rewrite !app_nil_r in H. exact H.
Qed.

End HarmlessEnds.

(* ===================================================================== *)
(** ** Facts about the program in its environment                        *)
(* ===================================================================== *)

(** *** The scan under either ordering *)

(** Under [PERMUTE] the scan is the one of [getopt_long]. *)
Lemma getopt_long_in_PERMUTE argc optstring longopts d :
  getopt_long_in PERMUTE argc optstring longopts d
  = getopt_long argc optstring longopts d.
Proof.
  unfold getopt_long_in, getopt_long.
  destruct (argc <? 1); [reflexivity|].
  destruct (nextchar d); [|reflexivity].
  destruct (skip_nonoptions (rest d)) as [skipped l] eqn:Esk.
  destruct l as [|a l']; [reflexivity|].
  rewrite (skip_nonoptions_head _ Esk).
  reflexivity.
Qed.

Lemma getopt_long_in_progress o argc optstring longopts d :
  code (getopt_long_in o argc optstring longopts d) <> -1 ->
  (getopt_measure (data (getopt_long_in o argc optstring longopts d))
   < getopt_measure d)%nat.
Proof.
  destruct o; [|rewrite getopt_long_in_PERMUTE; apply getopt_long_progress].
  unfold getopt_long_in.
  destruct (argc <? 1); [simpl; congruence|].
  destruct (nextchar d) as [|c more] eqn:Enc.
  - destruct (rest d) as [|a l'] eqn:Er; [simpl; congruence|].
    destruct (String.eqb a "--"); [simpl; congruence|].
    destruct (NONOPTION_P a); [simpl; congruence|].
    destruct a as [|c0 [|c1 text]]; try (simpl; congruence).
    intros _.
    destruct (Ascii.eqb c1 "-").
    + match goal with
      | |- context [process_long_option ?lo ?t ?d0] =>
          destruct (process_long_option_rest lo t d0) as [Hn Hr]
      end.
      unfold getopt_measure. rewrite Hn, Enc, Er. cbn [rest] in Hr.
      match goal with
      | |- context [measure_list (rest (data ?r))] =>
          set (rr := rest (data r)) in *
      end.
      destruct Hr as [Hr | [b Hr]]; rewrite Hr; simpl; lia.
    + match goal with
      | |- context [short_option ?os ?c ?m ?d0] =>
          pose proof (short_option_measure os c m d0) as Hs
      end.
      unfold getopt_measure at 2. rewrite Enc, Er. simpl in *. lia.
  - intros _.
    match goal with
    | |- context [short_option ?os ?c ?m ?d0] =>
        pose proof (short_option_measure os c m d0) as Hs
    end.
    unfold getopt_measure at 2. rewrite Enc. simpl in *. lia.
Qed.

Lemma getopt_long_in_count o argc optstring longopts d :
  accounted (data (getopt_long_in o argc optstring longopts d)) = accounted d.
Proof.
  destruct o; [|rewrite getopt_long_in_PERMUTE; apply getopt_long_count].
  unfold getopt_long_in, accounted.
  destruct (argc <? 1); [reflexivity|].
  destruct (nextchar d) as [|c more] eqn:Enc.
  - destruct (rest d) as [|a l'] eqn:Er;
      [simpl; rewrite !length_app; simpl; lia|].
    destruct (String.eqb a "--");
      [simpl; rewrite !length_app; simpl; lia|].
    destruct (NONOPTION_P a);
      [simpl; rewrite !length_app; simpl; lia|].
    destruct a as [|c0 [|c1 text]];
      try (simpl; rewrite !length_app; simpl; lia).
    destruct (Ascii.eqb c1 "-").
    + unfold process_long_option.
      destruct (split_name text) as [nm value]. cbv zeta.
      break_match; rewrite ?length_app; simpl; lia.
    + unfold short_option.
      break_match; rewrite ?length_app; simpl; lia.
  - unfold short_option.
    break_match; rewrite ?length_app; simpl; lia.
Qed.

Lemma getopt_long_in_subseq o argc optstring longopts d :
  let r := getopt_long_in o argc optstring longopts d in
  subseq (nonopts (data r) ++ rest (data r))%list (nonopts d ++ rest d)%list.
Proof.
  destruct o;
    [|rewrite getopt_long_in_PERMUTE;
      apply (getopt_long_subseq argc optstring longopts d)].
  assert (Hdrop1 : forall (p l : list string) a, subseq (p ++ l)%list (p ++ a :: l)%list)
    by (intros; apply subseq_app_keep; constructor; apply subseq_refl).
  assert (Hdrop2 : forall (p l : list string) a b,
             subseq (p ++ l)%list (p ++ a :: b :: l)%list)
    by (intros; apply subseq_app_keep; do 2 constructor; apply subseq_refl).
  unfold getopt_long_in.
  destruct (argc <? 1); [apply subseq_refl|].
  destruct (nextchar d) as [|c more] eqn:Enc.
  - destruct (rest d) as [|a l'] eqn:Er;
      [simpl; rewrite ?app_nil_r; apply subseq_refl|].
    destruct (String.eqb a "--").
    { simpl. rewrite app_nil_r. apply Hdrop1. }
    destruct (NONOPTION_P a).
    { simpl. rewrite app_nil_r. apply subseq_refl. }
    destruct a as [|c0 [|c1 text]];
      try (simpl; rewrite ?app_nil_r; apply subseq_refl).
    cbv zeta. rewrite !app_nil_r.
    destruct (Ascii.eqb c1 "-").
    + unfold process_long_option.
      destruct (split_name text) as [nm value]. cbv zeta.
      break_match; solve [apply Hdrop1 | apply Hdrop2].
    + unfold short_option.
      break_match; solve [apply Hdrop1 | apply Hdrop2].
  - unfold short_option.
    break_match; solve [apply subseq_refl | apply (Hdrop1 (nonopts d))].
Qed.

Section EnvironmentFacts.

Variable D : Type.
Variable dev : Device D.

(** *** [ParseArguments] under either ordering *)

Lemma ParseArguments_loop_in_PERMUTE fuel argc :
  forall d (st : state D),
  ParseArguments_loop_in PERMUTE fuel argc d st
  = ParseArguments_loop fuel argc d st.
Proof.
  induction fuel as [|fuel IH]; intros d st; [reflexivity|].
  cbn [ParseArguments_loop_in ParseArguments_loop].
  rewrite getopt_long_in_PERMUTE. monad.
  destruct (code _ =? -1); [reflexivity|].
  destruct (ParseArguments_switch _ _) as [[rc|] st2]; [reflexivity|].
  apply IH.
Qed.

Lemma ParseArguments_in_PERMUTE argv (st : state D) :
  ParseArguments_in PERMUTE argv st = ParseArguments argv st.
Proof.
  unfold ParseArguments_in, ParseArguments. cbv zeta. unfold bind at 1 3.
  rewrite ParseArguments_loop_in_PERMUTE. reflexivity.
Qed.

Lemma ParseArguments_loop_in_step o fuel argc d (st : state D) :
  ParseArguments_loop_in o (S fuel) argc d st =
  let r := getopt_long_in o argc short_options long_options d in
  let st1 := {| m_dmm := m_dmm st; m_args := m_args st;
                quit_flag := quit_flag st; g_debug := g_debug st;
                trace := trace st ++ map GetoptStderr (printed r) |} in
  if code r =? -1 then (Break (data r), st1)
  else
    match ParseArguments_switch r st1 with
    | (Some rc, st2) => (Return rc, st2)
    | (None, st2) => ParseArguments_loop_in o fuel argc (data r) st2
    end.
Proof.
  cbn [ParseArguments_loop_in]. monad. cbv zeta.
  destruct (code _ =? -1); [reflexivity|].
  destruct (ParseArguments_switch _ _) as [[rc|] st2]; reflexivity.
Qed.

Lemma ParseArguments_loop_in_prints o argc fuel :
  forall d (st : state D),
  prints_only st (snd (ParseArguments_loop_in o fuel argc d st)) /\
  items (m_args (snd (ParseArguments_loop_in o fuel argc d st)))
  = items (m_args st) /\
  item_count (m_args (snd (ParseArguments_loop_in o fuel argc d st)))
  = item_count (m_args st).
Proof.
  induction fuel as [|fuel IH]; intros d st.
  - simpl. split; [apply prints_only_refl | split; reflexivity].
  - rewrite ParseArguments_loop_in_step. cbv zeta.
    set (r := getopt_long_in o argc short_options long_options d).
    set (st1 := {| m_dmm := m_dmm st; m_args := m_args st;
                   quit_flag := quit_flag st; g_debug := g_debug st;
                   trace := (trace st ++ map GetoptStderr (printed r))%list |}).
    assert (H1 : prints_only st st1).
    { unfold prints_only, st1; cbn.
      split; [reflexivity | split; [reflexivity | split; [reflexivity|]]].
      eexists; split; [reflexivity|].
      apply Forall_forall. intros e He. apply in_map_iff in He.
      destruct He as [x [<- _]]. reflexivity. }
    destruct (code r =? -1).
    + split; [exact H1 | split; reflexivity].
    + destruct (ParseArguments_switch_prints r st1) as (H2 & H3 & H3').
      change (m_args st1) with (m_args st) in H3, H3'.
      destruct (ParseArguments_switch r st1) as [[rc|] st2] eqn:Esw;
        cbn [fst snd] in *.
      * split; [eapply prints_only_trans; eassumption | split; assumption].
      * destruct (IH (data r) st2) as (H4 & H5 & H5').
        split; [|split; congruence].
        eapply prints_only_trans; [exact H1|].
        eapply prints_only_trans; eassumption.
Qed.

Lemma ParseArguments_loop_in_rc o argc fuel :
  forall d (st : state D) rc,
  fst (ParseArguments_loop_in o fuel argc d st) = Return rc ->
  rc = 1 \/ rc = 2 \/ rc = -1.
Proof.
  induction fuel as [|fuel IH]; intros d st rc.
  - simpl. discriminate.
  - rewrite ParseArguments_loop_in_step. cbv zeta.
    destruct (code _ =? -1); [discriminate|].
    match goal with
    | |- context [ParseArguments_switch ?r ?s] =>
        pose proof (@ParseArguments_switch_rc D r s) as Hsw;
        destruct (ParseArguments_switch r s) as [[rc'|] st2]
    end; cbn [fst snd] in *.
    + intros H; inversion H; subst. apply Hsw. reflexivity.
    + apply IH.
Qed.

(** The bound on the iterations is never reached. *)
Lemma ParseArguments_loop_in_fuel o argc fuel :
  forall d (st : state D),
  (getopt_measure d < fuel)%nat ->
  fst (ParseArguments_loop_in o fuel argc d st) <> OutOfFuel.
Proof.
  induction fuel as [|fuel IH]; intros d st Hm; [lia|].
  rewrite ParseArguments_loop_in_step. cbv zeta.
  destruct (code _ =? -1) eqn:Ec; [discriminate|].
  apply Z.eqb_neq in Ec.
  apply (getopt_long_in_progress o argc short_options long_options d) in Ec.
  match goal with
  | |- context [ParseArguments_switch ?r ?s] =>
      destruct (ParseArguments_switch r s) as [[rc'|] st2]
  end; cbn [fst snd]; [discriminate|].
  apply IH. lia.
Qed.

Lemma ParseArguments_loop_in_break o argc fuel :
  forall d (st : state D) d' st',
  ParseArguments_loop_in o fuel argc d st = (Break d', st') ->
  accounted d' = accounted d /\
  subseq (nonopts d' ++ rest d')%list (nonopts d ++ rest d)%list.
Proof.
  induction fuel as [|fuel IH]; intros d st d' st'.
  - simpl. discriminate.
  - rewrite ParseArguments_loop_in_step. cbv zeta.
    pose proof (getopt_long_in_count o argc short_options long_options d) as Hc.
    pose proof (getopt_long_in_subseq o argc short_options long_options d) as Hs.
    cbv zeta in Hs.
    destruct (code _ =? -1) eqn:Ec.
    + intros H; inversion H; subst.
      split; [exact Hc | exact Hs].
    + match goal with
      | |- context [ParseArguments_switch ?r ?s] =>
          destruct (ParseArguments_switch r s) as [[rc'|] st2]
      end; [discriminate|].
      intros H. apply IH in H. destruct H as (H1 & H2).
      split; [congruence|].
      eapply subseq_trans; eassumption.
Qed.

Lemma ParseArguments_in_prints o argv (st : state D) :
  prints_only st (snd (ParseArguments_in o argv st)).
Proof.
  destruct o; [|rewrite ParseArguments_in_PERMUTE; apply ParseArguments_prints].
  unfold ParseArguments_in. monad.
  destruct (ParseArguments_loop_in_prints REQUIRE_ORDER (argc_of argv)
              (S (getopt_measure (getopt_start argv))) (getopt_start argv) st)
    as [H _].
  destruct (ParseArguments_loop_in _ _ _ _ st) as [[d|rc|] st1];
    cbn [fst snd] in *; try exact H.
  eapply prints_only_trans; [exact H|].
  unfold prints_only.
  repeat (monad; match goal with
                 | |- context [if ?x then _ else _] => destruct x
                 end);
  monad;
  (split; [reflexivity | split; [reflexivity | split; [reflexivity|]]]);
  first
    [ exists []; rewrite app_nil_r; split; [reflexivity | constructor]
    | eexists; split;
      [ rewrite <- ?app_assoc; reflexivity
      | repeat constructor ] ].
Qed.

(** After a successful parse [items] holds [item_count] strings (none
    when [item_count] is not positive), a subsequence of the command
    line after [argv[0]], under either ordering. *)
Lemma ParseArguments_in_items o argv (st st' : state D) :
  ParseArguments_in o argv st = (0, st') ->
  items (m_args st) = [] ->
  List.length (items (m_args st')) = Z.to_nat (item_count (m_args st')) /\
  subseq (items (m_args st')) (tl argv) /\
  (argv <> [] -> item_count (m_args st') = Z.of_nat (List.length (items (m_args st')))).
Proof.
  unfold ParseArguments_in. monad.
  pose proof (@ParseArguments_loop_in_rc o (argc_of argv)
                (S (getopt_measure (getopt_start argv))) (getopt_start argv) st)
    as Hrc.
  pose proof (@ParseArguments_loop_in_break o (argc_of argv)
                (S (getopt_measure (getopt_start argv))) (getopt_start argv) st)
    as Hbr.
  destruct (ParseArguments_loop_in_prints o (argc_of argv)
              (S (getopt_measure (getopt_start argv))) (getopt_start argv) st)
    as (_ & Hit & _).
  destruct (ParseArguments_loop_in _ _ _ _ st) as [[d|rc|] st1];
    cbn [fst snd] in *.
  - destruct (Hbr d st1 eq_refl) as (Hc & Hs). clear Hbr Hrc.
    unfold accounted, getopt_start in Hc.
    cbn [optind nonopts rest List.length app] in Hc, Hs.
    intros H Hnil. rewrite Hnil in Hit.
    set (n := argc_of argv - optind d) in *.
    assert (Hne : argv <> [] ->
                  n = Z.of_nat (List.length (nonopts d ++ rest d)%list)).
    { intros Hne. rewrite length_app. unfold n, argc_of.
      destruct argv as [|a0 argv]; [congruence|].
      cbn [tl List.length] in *. lia. }
    assert (He : argv = [] -> n = -1).
    { intros ->. cbn [tl] in Hs. inversion Hs as [E1 E2| |].
      symmetry in E1. apply app_eq_nil in E1. destruct E1 as [E1 E3].
      rewrite E1, E3 in Hc. unfold n, argc_of. cbn in *. lia. }
    assert (Hsub : forall l : list string, subseq [] l)
      by (induction l; constructor; assumption).
    revert H. destruct (9 <=? debug (m_args st1)); monad;
      destruct (0 <? n) eqn:En; monad;
      intros H; inversion H; subst st'; clear H;
      cbn [m_args items item_count];
      try apply Z.ltb_lt in En; try apply Z.ltb_ge in En.
    all: destruct argv as [|a0 argv];
      [ specialize (He eq_refl); try lia
      | specialize (Hne ltac:(discriminate)) ].
    all: rewrite ?Hit; cbn [List.length tl]; repeat split;
      auto; try lia; try (intros; lia); try congruence.
    all: rewrite Hit in *; cbn [List.length] in *; lia.
  - intros H; inversion H; subst. destruct (Hrc 0 eq_refl) as [|[|]]; discriminate.
  - intros H; inversion H.
Qed.

End EnvironmentFacts.

Lemma first_decisive_skip l :
  forall skipped l', skip_nonoptions l = (skipped, l') ->
  first_decisive PERMUTE l = first_decisive PERMUTE l'.
Proof.
  induction l as [|a l IH]; intros skipped l' H; cbn [skip_nonoptions] in H.
  - inversion H. reflexivity.
  - destruct (NONOPTION_P a) eqn:En.
    + destruct (skip_nonoptions l) as [sk l2] eqn:Esk.
      inversion H; subst. cbn [first_decisive]. rewrite En.
      destruct (String.eqb a "--") eqn:Ea.
      * apply String.eqb_eq in Ea. subst a. discriminate En.
      * eapply IH. reflexivity.
    + inversion H. reflexivity.
Qed.

(** One short option of a cluster, by the character it is. *)
Lemma short_option_step c more d :
  let r := short_option short_options c more d in
  (c = "h"%char /\ code r = chr "h") \/
  (c = "v"%char /\ code r = chr "v") \/
  ((c = "m"%char \/ c = "l"%char) /\ code r = chr c /\
   nextchar (data r) = more /\ rest (data r) = rest d) \/
  ((c = "d"%char \/ c = "s"%char) /\ more <> "" /\ code r = chr c /\
   nextchar (data r) = "" /\ rest (data r) = rest d) \/
  ((c = "d"%char \/ c = "s"%char) /\ more = "" /\ rest d = [] /\
   code r = chr "?") \/
  ((c = "d"%char \/ c = "s"%char) /\ more = "" /\
   exists a l', rest d = a :: l' /\ code r = chr c /\
                nextchar (data r) = "" /\ rest (data r) = l') \/
  (read_cluster (String c more) = Decides IsInvalid /\ code r = chr "?").
Proof.
  cbv zeta. unfold short_option, short_options. cbn [strchr].
  destruct (Ascii.eqb "h" c) eqn:Eh.
  { apply Ascii.eqb_eq in Eh. subst c. left. split; reflexivity. }
  destruct (Ascii.eqb "v" c) eqn:Ev.
  { apply Ascii.eqb_eq in Ev. subst c. right. left. split; reflexivity. }
  destruct (Ascii.eqb "d" c) eqn:Ed.
  { apply Ascii.eqb_eq in Ed. subst c.
    cbn [Ascii.eqb Bool.eqb orb andb char_at String.get].
    destruct more as [|c' more'].
    - destruct (rest d) as [|a l'] eqn:Er.
      + do 4 right. left. repeat split; auto.
      + do 5 right. left. split; [auto|]. split; [reflexivity|].
        exists a, l'. repeat split; reflexivity.
    - do 3 right. left. repeat split; auto. discriminate. }
  destruct (Ascii.eqb ":" c) eqn:Ec.
  { apply Ascii.eqb_eq in Ec. subst c. do 6 right. split; reflexivity. }
  destruct (Ascii.eqb "s" c) eqn:Es.
  { apply Ascii.eqb_eq in Es. subst c.
    cbn [Ascii.eqb Bool.eqb orb andb char_at String.get].
    destruct more as [|c' more'].
    - destruct (rest d) as [|a l'] eqn:Er.
      + do 4 right. left. repeat split; auto.
      + do 5 right. left. split; [auto|]. split; [reflexivity|].
        exists a, l'. repeat split; reflexivity.
    - do 3 right. left. repeat split; auto. discriminate. }
  destruct (Ascii.eqb "m" c) eqn:Em.
  { apply Ascii.eqb_eq in Em. subst c. do 2 right. left.
    repeat split; auto. }
  destruct (Ascii.eqb "l" c) eqn:El.
  { apply Ascii.eqb_eq in El. subst c. do 2 right. left.
    repeat split; auto. }
  do 6 right. split; [|reflexivity].
  cbn [read_cluster].
  rewrite (Ascii.eqb_sym c "h"), (Ascii.eqb_sym c "v"), (Ascii.eqb_sym c "m"),
    (Ascii.eqb_sym c "l"), (Ascii.eqb_sym c "d"), (Ascii.eqb_sym c "s"),
    Eh, Ev, Em, El, Ed, Es.
  reflexivity.
Qed.

Lemma prefix_cons (c : ascii) (p s : string) :
  prefix (String c p) s = true ->
  exists s', s = String c s' /\ prefix p s' = true.
Proof.
  destruct s as [|b s']; cbn [prefix]; [discriminate|].
  destruct (ascii_dec c b) as [<-|]; [|discriminate].
  intros H. exists s'. auto.
Qed.

Lemma prefix_refl (s : string) : prefix s s = true.
Proof.
  induction s as [|c s IH]; cbn [prefix]; [reflexivity|].
  destruct (ascii_dec c c); [exact IH | congruence].
Qed.

Lemma eqb_not_prefix (full nm : string) :
  prefix nm full = false -> String.eqb full nm = false.
Proof.
  intros H. destruct (String.eqb full nm) eqn:E; [|reflexivity].
  apply String.eqb_eq in E. subst. rewrite prefix_refl in H. discriminate.
Qed.

(** The names a long option can be given by. *)
Ltac spell_out H :=
  let Hne := fresh "Hne" in
  apply andb_prop in H; destruct H as [Hne H];
  match type of H with
  | prefix ?nm _ = true => destruct nm; [discriminate Hne|]
  end;
  clear Hne;
  repeat first
    [ match type of H with
      | prefix (String _ _) _ = true =>
          apply prefix_cons in H;
          let s := fresh "s" in
          let E := fresh "E" in
          destruct H as (s & E & H);
          first [discriminate E | injection E as <- <-]
      end
    | match type of H with
      | prefix ?nm _ = true => is_var nm; destruct nm
      end ].

Ltac pick_case :=
  first
    [ left; split; reflexivity
    | right; left; split; reflexivity
    | right; right; left; split; reflexivity
    | do 3 right; left; split; [reflexivity|];
      split; [cbn; tauto | split; reflexivity]
    | do 4 right; left; split; [reflexivity|]; split; reflexivity
    | do 5 right; split; [reflexivity|];
      eexists; eexists; split; [reflexivity|];
      split; [cbn; tauto | split; reflexivity] ].

(** One long option, by what it reads as. *)
Lemma process_long_option_step text d :
  let r := process_long_option long_options text d in
  (read_long text = Decides IsHelp /\ code r = chr "h") \/
  (read_long text = Decides IsVersion /\ code r = chr "v") \/
  (read_long text = Decides IsInvalid /\ code r = chr "?") \/
  (read_long text = Passes /\
   In (code r) [chr "d"; chr "s"; chr "m"; chr "l"] /\
   nextchar (data r) = "" /\ rest (data r) = rest d) \/
  (read_long text = TakesNext /\ rest d = [] /\ code r = chr "?") \/
  (read_long text = TakesNext /\
   exists a l', rest d = a :: l' /\
     In (code r) [chr "d"; chr "s"; chr "m"; chr "l"] /\
     nextchar (data r) = "" /\ rest (data r) = l').
Proof.
  cbv zeta. unfold process_long_option, read_long.
  destruct (split_name text) as [nm value].
  destruct (abbreviates nm "help") eqn:E1.
  { spell_out E1;
      destruct value; pick_case. }
  destruct (abbreviates nm "version") eqn:E2.
  { spell_out E2;
      destruct value; pick_case. }
  destruct (abbreviates nm "debug") eqn:E3.
  { spell_out E3;
      (destruct value; [pick_case | destruct (rest d) eqn:Er; pick_case]). }
  destruct (abbreviates nm "serial") eqn:E4.
  { spell_out E4;
      (destruct value; [pick_case | destruct (rest d) eqn:Er; pick_case]). }
  destruct (abbreviates nm "monitor") eqn:E5.
  { spell_out E5;
      (destruct value; [pick_case | destruct (rest d) eqn:Er; pick_case]). }
  destruct (abbreviates nm "list") eqn:E6.
  { spell_out E6;
      (destruct value; [pick_case | destruct (rest d) eqn:Er; pick_case]). }
  cbn [orb].
  right. right. left. split; [reflexivity|].
  destruct nm as [|c nm]; [reflexivity|].
  unfold abbreviates in *. cbn [String.eqb negb andb] in *.
  cbn [find_option long_options name].
  rewrite !eqb_not_prefix by assumption.
  rewrite E1, E2, E3, E4, E5, E6. reflexivity.
Qed.

Lemma short_option_reading o c more d :
  scan_agrees o (short_option short_options c more d)
    (reading_from o (String c more) (rest d)).
Proof.
  unfold scan_agrees, reading_from.
  destruct (short_option_step c more d)
    as [[-> Hc]|[[-> Hc]|[(Hm & Hc & Hn & Hr)|[(Hd & Hm & Hc & Hn & Hr)
       |[(Hd & Hm & Hr & Hc)|[(Hd & Hm & a & l' & Hr & Hc & Hn & Hr')
       |[Hx Hc]]]]]]].
  - left. split; [exact Hc | reflexivity].
  - right. left. split; [exact Hc | reflexivity].
  - do 3 right. rewrite Hc, Hn, Hr.
    destruct Hm as [-> | ->]; (split; [cbn; tauto | reflexivity]).
  - do 3 right. rewrite Hc, Hn, Hr.
    destruct more as [|c' more']; [congruence|].
    destruct Hd as [-> | ->]; (split; [cbn; tauto | reflexivity]).
  - right. right. left. rewrite Hc, Hm, Hr.
    destruct Hd as [-> | ->]; (split; reflexivity).
  - do 3 right. rewrite Hc, Hn, Hr', Hm, Hr.
    destruct Hd as [-> | ->]; (split; [cbn; tauto | reflexivity]).
  - right. right. left. rewrite Hx. split; [exact Hc | reflexivity].
Qed.

Lemma long_option_reading o text d :
  scan_agrees o (process_long_option long_options text d)
    (match read_long text with
     | Passes => first_decisive o (rest d)
     | TakesNext =>
         match rest d with
         | [] => Some IsInvalid
         | _ :: l' => first_decisive o l'
         end
     | Decides x => Some x
     end).
Proof.
  unfold scan_agrees, reading_from.
  destruct (process_long_option_step text d)
    as [[-> Hc]|[[-> Hc]|[[-> Hc]|[(-> & Hc & Hn & Hr)
       |[(-> & Hr & Hc)|(-> & a & l' & Hr & Hc & Hn & Hr')]]]]].
  - left. split; [exact Hc | reflexivity].
  - right. left. split; [exact Hc | reflexivity].
  - right. right. left. split; [exact Hc | reflexivity].
  - do 3 right. rewrite Hn, Hr. split; [exact Hc | reflexivity].
  - right. right. left. rewrite Hr. split; [exact Hc | reflexivity].
  - do 3 right. rewrite Hn, Hr', Hr. split; [exact Hc | reflexivity].
Qed.

(** One call of [getopt_long] against the reading of the command line. *)
Lemma getopt_long_in_reading o argc d :
  1 <= argc ->
  let r := getopt_long_in o argc short_options long_options d in
  let x := reading_from o (nextchar d) (rest d) in
  (code r = -1 /\ x = None) \/ scan_agrees o r x.
Proof.
  intros Ha. cbv zeta. unfold getopt_long_in. rewrite (argc_ok Ha).
  destruct (nextchar d) as [|c more] eqn:Enc.
  - assert (Hx : exists skipped l,
               match o with
               | PERMUTE => skip_nonoptions (rest d)
               | REQUIRE_ORDER => ([], rest d)
               end = (skipped, l) /\
               first_decisive o (rest d) = first_decisive o l /\
               (o = PERMUTE ->
                match l with a :: _ => NONOPTION_P a = false | [] => True end)).
    { destruct o.
      - exists [], (rest d). repeat split. discriminate.
      - destruct (skip_nonoptions (rest d)) as [skipped l] eqn:Esk.
        exists skipped, l. split; [reflexivity|].
        split; [exact (first_decisive_skip _ Esk)|].
        intros _. destruct l as [|a l']; [exact I|].
        exact (skip_nonoptions_head _ Esk). }
    destruct Hx as (skipped & l & -> & Hfd & Hno).
    change (reading_from o "" (rest d)) with (first_decisive o (rest d)).
    rewrite Hfd.
    destruct l as [|a l']; [left; split; reflexivity|].
    cbn [first_decisive].
    destruct (String.eqb a "--") eqn:Ea; [left; split; reflexivity|].
    destruct (NONOPTION_P a) eqn:En.
    { destruct o; [left; split; reflexivity|].
      specialize (Hno eq_refl). congruence. }
    destruct a as [|c0 [|c1 text]]; try discriminate En.
    right. cbn [read_element].
    destruct (Ascii.eqb c1 "-") eqn:Ec.
    + match goal with
      | |- scan_agrees _ (process_long_option _ _ ?dd) _ =>
          exact (long_option_reading o text dd)
      end.
    + match goal with
      | |- scan_agrees _ (short_option _ _ _ ?dd) _ =>
          exact (short_option_reading o c1 text dd)
      end.
  - right.
    match goal with
    | |- scan_agrees _ (short_option _ _ _ ?dd) _ =>
        exact (short_option_reading o c more dd)
    end.
Qed.

Section ReadingFacts.

Variable D : Type.

Lemma switch_passes r (st : state D) :
  In (code r) [chr "d"; chr "s"; chr "m"; chr "l"] ->
  fst (ParseArguments_switch r st) = None.
Proof.
  intros H. unfold ParseArguments_switch. cbv zeta.
  cbn [In] in H.
  destruct H as [H|[H|[H|[H|[]]]]]; rewrite <- H;
    cbn [Z.eqb chr N_of_ascii Z.of_N Pos.eqb N.add N.mul Pos.add Pos.mul
         Pos.succ]; monad; try reflexivity.
  destruct (9 <=? _); reflexivity.
Qed.

(** The status [ParseArguments] returns is the one of the first option
    that decides, in the reading of the command line from left to
    right. *)
Lemma ParseArguments_loop_in_reading o argc fuel :
  forall d (st : state D),
  1 <= argc -> (getopt_measure d < fuel)%nat ->
  loop_status (fst (ParseArguments_loop_in o fuel argc d st))
  = status_of (reading_from o (nextchar d) (rest d)).
Proof.
  induction fuel as [|fuel IH]; intros d st Ha Hm; [lia|].
  rewrite ParseArguments_loop_in_step. cbv zeta.
  pose proof (getopt_long_in_reading o d Ha) as Hr. cbv zeta in Hr.
  pose proof (getopt_long_in_progress o argc short_options long_options d)
    as Hp.
  set (r := getopt_long_in o argc short_options long_options d) in *.
  set (st1 := {| m_dmm := m_dmm st; m_args := m_args st;
                 quit_flag := quit_flag st; g_debug := g_debug st;
                 trace := trace st ++ map GetoptStderr (printed r) |}).
  destruct Hr as [[Hc ->]|[[Hc ->]|[[Hc ->]|[[Hc ->]|[Hc ->]]]]].
  - rewrite Hc. reflexivity.
  - rewrite Hc. cbn [Z.eqb chr N_of_ascii Z.of_N].
    rewrite (switch_h r st1 Hc). reflexivity.
  - rewrite Hc. cbn [Z.eqb chr N_of_ascii Z.of_N].
    rewrite (switch_v r st1 Hc). reflexivity.
  - rewrite Hc. cbn [Z.eqb chr N_of_ascii Z.of_N].
    pose proof (switch_error r st1 Hc) as Hs.
    destruct (ParseArguments_switch r st1) as [[rc|] st2];
      cbn [fst] in Hs; inversion Hs. reflexivity.
  - assert (Hne : code r <> -1).
    { cbn [In] in Hc. intros E. rewrite E in Hc.
      destruct Hc as [H|[H|[H|[H|[]]]]]; discriminate H. }
    specialize (Hp Hne).
    destruct (code r =? -1) eqn:E; [apply Z.eqb_eq in E; congruence|].
    pose proof (switch_passes r st1 Hc) as Hs.
    destruct (ParseArguments_switch r st1) as [[rc|] st2];
      cbn [fst] in Hs; [discriminate Hs|].
    apply IH; [exact Ha | lia].
Qed.

Lemma ParseArguments_in_reading o prog l (st : state D) :
  fst (ParseArguments_in o (prog :: l) st) = status_of (first_decisive o l).
Proof.
  pose proof (@ParseArguments_loop_in_reading o (argc_of (prog :: l))
                (S (getopt_measure (getopt_start (prog :: l))))
                (getopt_start (prog :: l)) st) as H.
  cbn [getopt_start nextchar rest tl] in H.
  unfold reading_from in H. cbn [read_cluster] in H.
  rewrite <- H.
  2:{ unfold argc_of. cbn [List.length]. lia. }
  2:{ cbn [getopt_start]. lia. }
  unfold ParseArguments_in. monad. cbn [getopt_start].
  destruct (ParseArguments_loop_in _ _ _ _ st) as [[d|rc|] st1];
    cbn [fst loop_status]; try reflexivity.
  repeat (monad; match goal with
                 | |- context [if ?x then _ else _] => destruct x
                 end);
  reflexivity.
Qed.

End ReadingFacts.

Section SignalFacts.

Variable D : Type.
Variable dev : Device D.

Lemma arrive_eq sg (st : state D) :
  arrive sg st =
  (tl sg, advance st (m_dmm st) (after_arrival sg (quit_flag st))
            (arrival_mark sg)).
Proof.
  unfold arrive, advance, after_arrival, arrival_mark.
  destruct sg as [|[] sg]; monad; cbn [tl];
    rewrite ?app_nil_r; destruct st; reflexivity.
Qed.

Lemma Init_in_eq sg (st : state D) :
  let r := Open dev (serial (m_args st)) (m_dmm st) in
  Init_in dev sg st =
  ((if result r then 0 else -1, tl sg),
   advance st (device r) (after_call r (after_arrival sg (quit_flag st)))
     (init_events_in (g_debug st) (serial (m_args st)) sg r)).
Proof.
  unfold Init_in, init_events_in, advance, after_call, sig_mark, run_line.
  cbv zeta. unfold bind at 1 2 3 4. unfold get at 1 2.
  cbn [fst snd]. 
  destruct (9 <=? g_debug st); unfold when, fprintf_stderr;
    [unfold emit at 1|unfold ret at 1]; cbn [m_args];
    rewrite arrive_eq; unfold advance;
    cbn [m_dmm m_args quit_flag g_debug trace]; monad;
    destruct (Open dev (serial (m_args st)) (m_dmm st)) as [ok d' s];
    cbn [result device sigint];
    destruct s; monad; destruct ok; monad; cbn [negb];
    destruct (serial (m_args st)); monad;
    rewrite <- ?app_assoc; reflexivity.
Qed.

Lemma Done_in_eq sg (st : state D) :
  let r := Close dev (m_dmm st) in
  Done_in dev sg st =
  (tl sg,
   advance st (device r) (after_call r (after_arrival sg (quit_flag st)))
     (done_events_in (g_debug st) sg r)).
Proof.
  unfold Done_in, done_events_in, advance, after_call, sig_mark, run_line.
  cbv zeta. unfold bind at 1 2 3. unfold get at 1.
  cbn [fst snd].
  destruct (9 <=? g_debug st); unfold when, fprintf_stderr;
    [unfold emit at 1|unfold ret at 1];
    rewrite arrive_eq; unfold advance;
    cbn [m_dmm m_args quit_flag g_debug trace]; monad;
    destruct (Close dev (m_dmm st)) as [[] d' s];
    cbn [result device sigint];
    destruct s; monad; rewrite <- ?app_assoc; reflexivity.
Qed.

Lemma Run_for_in_eq n :
  forall i sg (st : state D), 0 <= i ->
  Run_for_in dev n i sg st =
  let '(evs, q', d', sg') :=
    receive_run_in dev
      (map (fun k => nth k (items (m_args st)) "") (seq (Z.to_nat i) n))
      sg (quit_flag st) (m_dmm st) in
  (sg', advance st d' q' evs).
Proof.
  induction n as [|n IH]; intros i sg st Hi.
  - cbn. rewrite advance_nil. reflexivity.
  - cbn [Run_for_in seq map receive_run_in].
    replace (S (Z.to_nat i)) with (Z.to_nat (i + 1)) by lia.
    set (index := atoi (nth (Z.to_nat i) (items (m_args st)) "")).
    assert (Hstep : forall sg2 q2 (st1 : state D),
              m_dmm st1 = m_dmm st -> m_args st1 = m_args st ->
              quit_flag st1 = q2 ->
              bind (call (ReceiveRecord dev index q2)
                      (fun _ => CallReceiveRecord index q2))
                (fun _ => Run_for_in dev n (i + 1) sg2) st1 =
              let r := ReceiveRecord dev index q2 (m_dmm st) in
              let '(evs, q', d', sg') :=
                receive_run_in dev
                  (map (fun k => nth k (items (m_args st)) "")
                     (seq (Z.to_nat (i + 1)) n))
                  sg2 (after_call r q2) (device r) in
              (sg', advance st1 d' q'
                      (CallReceiveRecord index q2 :: sig_mark r ++ evs))).
    { intros sg2 q2 st1 Hd Ha Hq. cbv zeta. monad. rewrite Hd.
      destruct (ReceiveRecord dev index q2 (m_dmm st)) as [[] d1 s].
      cbn [result device sigint].
      unfold after_call, sig_mark. cbn [sigint device].
      destruct s; monad; rewrite IH by lia;
        unfold advance; cbn [m_args quit_flag m_dmm g_debug trace];
        rewrite ?Ha, ?Hq;
        match goal with
        | |- context [receive_run_in dev ?l ?g ?q d1] =>
            destruct (receive_run_in dev l g q d1) as [[[evs q'] d'] sg']
        end;
        rewrite <- ?app_assoc; reflexivity. }
    unfold bind at 1. rewrite arrive_eq.
    unfold bind at 1. unfold get at 1. cbn [fst snd].
    unfold bind at 1. unfold emit at 1. cbn [fst snd].
    set (q1 := after_arrival sg (quit_flag st)).
    change (quit_flag (advance st (m_dmm st) q1 (arrival_mark sg))) with q1.
    destruct (negb (q1 =? 0)) eqn:Eq.
    + unfold ret, advance. cbn [m_dmm m_args quit_flag g_debug trace].
      rewrite <- app_assoc. reflexivity.
    + unfold bind at 1. unfold get at 1. cbn [fst snd].
      unfold bind at 1. rewrite arrive_eq. cbn [fst snd].
      unfold bind at 1. unfold get at 1. cbn [fst snd].
      fold index.
      rewrite Hstep by reflexivity. cbv zeta.
      unfold advance. cbn [m_dmm m_args quit_flag g_debug trace].
      match goal with
      | |- context [receive_run_in dev ?l ?g ?q ?d] =>
          destruct (receive_run_in dev l g q d) as [[[evs q'] d'] sg']
      end.
      unfold advance; cbn [m_dmm m_args quit_flag g_debug trace].
      rewrite <- ?app_assoc. cbn [app]. rewrite <- ?app_assoc. reflexivity.
Qed.

Lemma Run_in_eq sg (st : state D) :
  Run_in dev sg st = Run_in_outcome dev sg st.
Proof.
  unfold Run_in, Run_in_outcome, targets_read. cbv zeta.
  unfold bind at 1 2 3. unfold get at 1 2. cbn [fst snd].
  destruct (9 <=? g_debug st) eqn:Eg; unfold when, fprintf_stderr;
    [unfold emit at 1|unfold ret at 1]; cbn [m_args].
  all: destruct (monitor (m_args st)).
  all: try (destruct sg as [|[] sg];
            unfold arrive, after_arrival, arrival_mark; cbn [tl]; monad;
            match goal with
            | |- context [Monitor dev ?q ?d] =>
                destruct (Monitor dev q d) as [b d' s]
            end;
            unfold advance, after_call, sig_mark, run_line; rewrite ?Eg;
            cbn [result device sigint];
            destruct s; monad; rewrite <- ?app_assoc; reflexivity).
  all: destruct (list_ (m_args st)).
  all: try (destruct sg as [|[] sg];
            unfold arrive, after_arrival, arrival_mark; cbn [tl]; monad;
            match goal with
            | |- context [ListRecord dev ?q ?d] =>
                destruct (ListRecord dev q d) as [b d' s]
            end;
            unfold advance, after_call, sig_mark, run_line; rewrite ?Eg;
            cbn [result device sigint];
            destruct s; monad; rewrite <- ?app_assoc; reflexivity).
  all: destruct (0 <? item_count (m_args st)).
  all: try (monad; rewrite Run_for_in_eq by lia;
            cbn [m_args quit_flag m_dmm Z.to_nat];
            match goal with
            | |- context [receive_run_in dev ?l ?g ?q ?d] =>
                destruct (receive_run_in dev l g q d) as [[[evs q'] d'] sg']
            end;
            unfold advance, run_line; rewrite ?Eg;
            cbn [m_dmm m_args quit_flag g_debug trace];
            rewrite <- ?app_assoc; reflexivity).
  all: monad; destruct (0 <? g_debug st); monad;
       unfold advance, run_line; rewrite ?Eg;
       cbn [m_dmm m_args quit_flag g_debug trace app];
       rewrite <- ?app_assoc, ?app_nil_r; destruct st; reflexivity.
Qed.

End SignalFacts.

Section MainInFacts.

Variable D : Type.
Variable dev : Device D.

Lemma Run_in_outcome_frame sg (st : state D) :
  g_debug (snd (Run_in_outcome dev sg st)) = g_debug st /\
  m_args (snd (Run_in_outcome dev sg st)) = m_args st /\
  exists new, trace (snd (Run_in_outcome dev sg st)) = (trace st ++ new)%list.
Proof.
  unfold Run_in_outcome. cbv zeta.
  destruct (monitor (m_args st)); [|destruct (list_ (m_args st));
    [|destruct (0 <? item_count (m_args st))]].
  3: destruct (receive_run_in dev _ _ _ _) as [[[evs q'] d'] sg'].
  all: unfold advance; cbn [fst snd g_debug m_args trace];
    split; [reflexivity|]; split; [reflexivity|];
    eexists; reflexivity.
Qed.

Lemma Main_in_eq o sg argv (st : state D) :
  Main_in dev o sg argv st =
  let '(rc0, st0) := ParseArguments_in o argv st in
  if rc0 =? 0 then
    let a := m_args st0 in
    let st1 := {| m_dmm := m_dmm st0; m_args := a;
                  quit_flag := quit_flag st0; g_debug := debug a;
                  trace := trace st0 |} in
    let r := Open dev (serial a) (m_dmm st0) in
    let st2 := advance st1 (device r)
                 (after_call r (after_arrival sg (quit_flag st0)))
                 (init_events_in (debug a) (serial a) sg r) in
    if result r then
      let '(rc, sg3, st3) := Run_in_outcome dev (tl sg) st2 in
      let c := Close dev (m_dmm st3) in
      (rc, advance st3 (device c)
             (after_call c (after_arrival sg3 (quit_flag st3)))
             (done_events_in (g_debug st3) sg3 c))
    else (-1, st2)
  else (rc0, st0).
Proof.
  unfold Main_in. unfold bind at 1.
  destruct (ParseArguments_in o argv st) as [rc0 st0].
  destruct (rc0 =? 0); cbn [negb]; [|reflexivity].
  unfold bind at 1. unfold get at 1. cbn [fst snd].
  unfold bind at 1. unfold set_g_debug at 1. cbn [fst snd].
  unfold bind at 1.
  rewrite Init_in_eq. cbv zeta. cbn [m_args m_dmm quit_flag g_debug fst snd].
  destruct (result (Open dev (serial (m_args st0)) (m_dmm st0)));
    cbn [Z.eqb negb]; [|reflexivity].
  unfold bind at 1.
  rewrite Run_in_eq.
  destruct (Run_in_outcome dev _ _) as [[rc sg3] st3].
  cbn [fst snd]. unfold bind at 1.
  rewrite Done_in_eq. reflexivity.
Qed.

(** [main_in] is [Main_in] on a fresh [Program], and the line of the
    destructor. *)
Lemma main_in_Main o sg dmm argv :
  let run := Main_in dev o sg argv (Program dmm) in
  fst (main_in dev o sg dmm argv) = fst run /\
  trace (snd (main_in dev o sg dmm argv)) =
    (trace (snd run) ++ free_line (m_args (snd run)) (g_debug (snd run)))%list.
Proof.
  cbv zeta. unfold main_in, Program_destructor, free_line. monad.
  destruct (Main_in dev o sg argv (Program dmm)) as [rc st]. cbn [fst snd].
  destruct (items (m_args st)); monad; [rewrite app_nil_r; auto|].
  destruct (9 <=? g_debug st); monad; [auto | rewrite app_nil_r; auto].
Qed.

Lemma Main_in_fresh o sg dmm argv :
  let '(rc0, st0) := ParseArguments_in o argv (Program dmm) in
  let a := m_args st0 in
  let r := Open dev (serial a) dmm in
  let st2 := {| m_dmm := device r; m_args := a;
                quit_flag := after_call r (after_arrival sg 0);
                g_debug := debug a;
                trace := trace st0 ++ init_events_in (debug a) (serial a) sg r |} in
  Main_in dev o sg argv (Program dmm) =
  (if rc0 =? 0 then
     if result r then
       let '(rc, sg3, st3) := Run_in_outcome dev (tl sg) st2 in
       let c := Close dev (m_dmm st3) in
       (rc, advance st3 (device c)
              (after_call c (after_arrival sg3 (quit_flag st3)))
              (done_events_in (debug a) sg3 c))
     else (-1, st2)
   else (rc0, st0)) /\
  Forall (fun e => is_output e = true) (trace st0).
Proof.
  rewrite Main_in_eq.
  pose proof (ParseArguments_in_prints o argv (Program dmm))
    as (Hd & Hq & Hg & out & Ht & Ho).
  destruct (ParseArguments_in o argv (Program dmm)) as [rc0 st0].
  cbn [snd Program m_dmm quit_flag g_debug trace app] in *.
  rewrite Hd, Hq. cbv zeta. split; [|rewrite Ht; exact Ho].
  destruct (rc0 =? 0); [|reflexivity].
  unfold advance. cbn [m_dmm m_args quit_flag g_debug trace].
  destruct (result (Open dev (serial (m_args st0)) dmm)); [|reflexivity].
  match goal with
  | |- context [Run_in_outcome dev ?g ?s] =>
      destruct (Run_in_outcome_frame g s) as (Hg3 & _);
      destruct (Run_in_outcome dev g s) as [[rc sg3] st3]
  end.
  cbn [snd g_debug] in Hg3. rewrite Hg3. reflexivity.
Qed.

(** The whole run in Receive mode. *)
Lemma main_in_receive o sg (dmm : D) (argv : list string) (st0 : state D) :
  ParseArguments_in o argv (Program dmm) = (0, st0) ->
  monitor (m_args st0) = false ->
  list_ (m_args st0) = false ->
  0 < item_count (m_args st0) ->
  let a := m_args st0 in
  let r := Open dev (serial a) dmm in
  result r = true ->
  let '(evs, q', d', sg') :=
    receive_run_in dev (items a) (tl sg) (after_call r (after_arrival sg 0))
      (device r) in
  let c := Close dev d' in
  fst (main_in dev o sg dmm argv) = 0 /\
  trace (snd (main_in dev o sg dmm argv)) =
    ((trace st0 ++ init_events_in (debug a) (serial a) sg r ++
      run_line "Program::Run" (debug a) ++
      [Stderr ("Ctrl-C to abort the long operation" ++ nl)]) ++
     evs ++
     (done_events_in (debug a) sg' c ++ free_line a (debug a)))%list /\
  Forall (fun e => is_output e = true) (trace st0) /\
  subseq (items a) (tl argv).
Proof.
  intros Hp Hm Hl Hi. cbv zeta. intros Er.
  destruct (main_in_Main o sg dmm argv) as [-> ->].
  pose proof (Main_in_fresh o sg dmm argv) as H.
  rewrite Hp in H. cbv zeta in H. destruct H as [-> Ho].
  destruct (@ParseArguments_in_items D o argv _ _ Hp eq_refl)
    as (Hlen & Hsub & _).
  rewrite Er. cbn [Z.eqb].
  unfold Run_in_outcome. cbn [m_args g_debug quit_flag m_dmm].
  rewrite Hm, Hl. apply Z.ltb_lt in Hi. rewrite Hi.
  rewrite (targets_read_items _ Hlen).
  destruct (receive_run_in dev _ _ _ _) as [[[evs q'] d'] sg'].
  unfold advance. cbn [fst snd trace m_dmm m_args g_debug].
  split; [reflexivity|]. split; [|auto].
  rewrite <- !app_assoc. reflexivity.
Qed.

(** *** Runs that end with the parse, runs that go on *)

Lemma Main_in_parse_only o sg argv (st : state D) :
  fst (ParseArguments_in o argv st) <> 0 ->
  Main_in dev o sg argv st = ParseArguments_in o argv st.
Proof.
  intros H. rewrite Main_in_eq.
  destruct (ParseArguments_in o argv st) as [rc0 st0]. cbn [fst] in H.
  apply Z.eqb_neq in H. rewrite H. reflexivity.
Qed.

(** A parse that fails or ends with help or version leaves [items]
    alone. *)
Lemma ParseArguments_in_no_items o argv (st : state D) :
  fst (ParseArguments_in o argv st) <> 0 ->
  items (m_args (snd (ParseArguments_in o argv st))) = items (m_args st).
Proof.
  unfold ParseArguments_in. monad.
  destruct (ParseArguments_loop_in_prints o (argc_of argv)
              (S (getopt_measure (getopt_start argv))) (getopt_start argv) st)
    as (_ & Hit & _).
  destruct (ParseArguments_loop_in _ _ _ _ st) as [[d|rc|] st1];
    cbn [fst snd] in *; try (intros _; exact Hit).
  intros H. exfalso. apply H.
  repeat (monad; match goal with
                 | |- context [if ?x then _ else _] => destruct x
                 end);
  reflexivity.
Qed.



(** A run whose parse does not return 0 is over with the parse: the
    status is what the parse returned and the device is not called. *)
Lemma main_in_parse_only o sg (dmm : D) argv :
  fst (ParseArguments_in o argv (Program dmm)) <> 0 ->
  fst (main_in dev o sg dmm argv) = fst (ParseArguments_in o argv (Program dmm)) /\
  trace (snd (main_in dev o sg dmm argv))
  = trace (snd (ParseArguments_in o argv (Program dmm))) /\
  calls_of (trace (snd (main_in dev o sg dmm argv))) = [].
Proof.
  intros H. destruct (main_in_Main o sg dmm argv) as [-> ->].
  rewrite (Main_in_parse_only o sg argv (Program dmm) H).
  pose proof (ParseArguments_in_no_items o argv (Program dmm) H) as Hit.
  cbn [Program m_args items] in Hit.
  unfold free_line. rewrite Hit, app_nil_r.
  split; [reflexivity|]. split; [reflexivity|].
  destruct (ParseArguments_in_prints o argv (Program dmm))
    as (_ & _ & _ & out & Ht & Ho).
  rewrite Ht. cbn [Program trace app]. apply calls_of_outputs. exact Ho.
Qed.

(** A run whose parse returns 0 calls [Open]. *)
Lemma main_in_parse_ok o sg (dmm : D) argv :
  fst (ParseArguments_in o argv (Program dmm)) = 0 ->
  exists s ok, In (CallOpen s ok) (trace (snd (main_in dev o sg dmm argv))).
Proof.
  intros H. destruct (main_in_Main o sg dmm argv) as [_ ->].
  pose proof (Main_in_fresh o sg dmm argv) as Hm.
  destruct (ParseArguments_in o argv (Program dmm)) as [rc0 st0].
  cbn [fst] in H. subst rc0. cbv zeta in Hm. destruct Hm as [-> _].
  cbn [Z.eqb].
  exists (serial (m_args st0)),
         (result (Open dev (serial (m_args st0)) dmm)).
  apply in_or_app. left.
  assert (Hin : forall g sg0 (r : reply D bool),
            In (CallOpen (serial (m_args st0)) (result r))
               (init_events_in g (serial (m_args st0)) sg0 r)).
  { intros g sg0 r. unfold init_events_in. rewrite !in_app_iff.
    right. right. left. left. reflexivity. }
  destruct (result (Open dev (serial (m_args st0)) dmm)) eqn:Er.
  - match goal with
    | |- context [Run_in_outcome dev ?g ?s] =>
        destruct (Run_in_outcome_frame g s) as (_ & _ & new & Hn);
        destruct (Run_in_outcome dev g s) as [[rc sg3] st3]
    end.
    cbn [snd trace] in Hn. unfold advance. cbn [snd trace].
    rewrite Hn, !in_app_iff. left. left. right.
    rewrite <- Er. apply Hin.
  - cbn [snd trace]. rewrite in_app_iff. right. rewrite <- Er. apply Hin.
Qed.

End MainInFacts.

Lemma cons_split {A} (a x : A) (l pre post : list A) :
  a :: l = (pre ++ x :: post)%list ->
  (pre = [] /\ a = x /\ l = post) \/
  (exists pre', pre = a :: pre' /\ l = (pre' ++ x :: post)%list).
Proof.
  destruct pre as [|b pre]; cbn [app]; intros H; inversion H; subst.
  - left. auto.
  - right. exists pre. auto.
Qed.

Lemma arrival_cases sg q :
  (arrival_mark sg = [] /\ after_arrival sg q = q) \/
  (arrival_mark sg = [Sigint] /\ after_arrival sg q = SIGINT).
Proof. destruct sg as [|[] sg]; cbn; auto. Qed.

Section ReceiveInFacts.

Variable D : Type.
Variable dev : Device D.

Lemma reply_cases R (r : reply D R) q :
  (sig_mark r = [] /\ after_call r q = q) \/
  (sig_mark r = [Sigint] /\ after_call r q = SIGINT).
Proof. unfold sig_mark, after_call. destruct (sigint r); auto. Qed.

Ltac peel H :=
  let pre' := fresh "pre" in
  let E := fresh "E" in
  apply cons_split in H;
  destruct H as [(-> & E & <-) | (pre' & -> & H)];
  [ try discriminate E | ].

Ltac shape_case :=
  first [ left; reflexivity
        | right; left; reflexivity
        | right; right; eexists; reflexivity ].

Ltac no_more H := exfalso; exact (app_cons_not_nil _ _ _ H).

(** The loop over the targets [l], entered with the flag at [q]: the
    calls it makes, and where the signals fall with respect to the tests
    of the flag and the calls. *)
Lemma receive_run_in_spec l :
  forall sg q d,
  let '(evs, q', d', sg') := receive_run_in dev l sg q d in
  (exists qs : list Z,
     (List.length qs <= List.length l)%nat /\
     Forall (fun x => x = 0 \/ x = SIGINT) qs /\
     calls_of evs = receive_calls (firstn (List.length qs) l) qs /\
     ((List.length qs < List.length l)%nat -> q <> 0 \/ In Sigint evs)) /\
  (forall pre i x post,
      evs = (pre ++ CallReceiveRecord i x :: post)%list ->
      q = 0 /\
      exists p m, pre = (p ++ Poll 0 :: m)%list /\ ~ In Sigint p /\
                  signals_only m /\
                  (m = [] -> x = 0) /\ (m <> [] -> x = SIGINT)) /\
  (forall pre x post,
      evs = (pre ++ Poll x :: post)%list ->
      q <> 0 \/ In Sigint pre ->
      x <> 0 /\ post = []) /\
  (forall pre post,
      evs = (pre ++ Poll 0 :: post)%list ->
      exists m i x post',
        post = (m ++ CallReceiveRecord i x :: post')%list /\ signals_only m) /\
  Forall (fun e => is_mode_call e = true \/ e = Sigint \/ exists x, e = Poll x)
    evs.
Proof.
  induction l as [|t l IH]; intros sg q d.
  - cbn [receive_run_in].
    split; [exists []; cbn; repeat split; auto; lia|].
    split; [intros [|? ?] ? ? ? H; discriminate H|].
    split; [intros [|? ?] ? ? H; discriminate H|].
    split; [intros [|? ?] ? H; discriminate H|].
    constructor.
  - cbn [receive_run_in].
    destruct (negb (after_arrival sg q =? 0)) eqn:Eq.
    + (* the flag is set when the turn of [t] begins *)
      apply negb_true_iff, Z.eqb_neq in Eq.
      assert (Hq : q <> 0 \/ In Sigint (arrival_mark sg ++ [Poll (after_arrival sg q)])).
      { destruct (arrival_cases sg q) as [[Hm Hq]|[Hm Hq]]; rewrite Hm.
        - left. congruence.
        - right. left. reflexivity. }
      destruct (arrival_cases sg q) as [[Hm Ha]|[Hm Ha]];
        rewrite Hm in *; rewrite Ha in *; cbn [app] in *.
      all: split;
        [ exists []; cbn [List.length firstn receive_calls combine map];
          split; [lia|]; split; [constructor|]; split; [reflexivity|];
          intros _; exact Hq |].
      all: split; [intros pre i x post H; repeat peel H; no_more H|].
      all: split; [intros pre x post H _; repeat peel H;
                   try no_more H;
                   match goal with
                   | E : Poll _ = Poll _ |- _ => inversion E; subst
                   end; split; [assumption | reflexivity]|].
      all: split; [intros pre post H; repeat peel H;
                   try no_more H;
                   match goal with
                   | E : Poll _ = Poll _ |- _ => inversion E; congruence
                   end|].
      all: repeat (constructor; [shape_case|]); constructor.
    + (* the flag is clear: [t] is handed to the device *)
      apply negb_false_iff, Z.eqb_eq in Eq.
      assert (Hq0 : q = 0 /\ arrival_mark sg = []).
      { destruct (arrival_cases sg q) as [[Hm Ha]|[Hm Ha]].
        - split; congruence.
        - rewrite Ha in Eq. discriminate Eq. }
      destruct Hq0 as [-> Hm0]. rewrite Eq, Hm0. cbn [app].
      set (q2 := after_arrival (tl sg) 0).
      set (r := ReceiveRecord dev (atoi t) q2 d).
      specialize (IH (tl (tl sg)) (after_call r q2) (device r)).
      destruct (receive_run_in dev l _ _ _) as [[[evs q'] d'] sg'].
      destruct IH as ((qs & Hlen & Hqs & Hcalls & Hshort) & HB1 & HB2 & HC & Hall).
      assert (Hq2 : q2 = 0 \/ q2 = SIGINT).
      { unfold q2. destruct (arrival_cases (tl sg) 0) as [[_ ->]|[_ ->]]; auto. }
      split; [|split; [|split; [|split]]].
      * exists (q2 :: qs). cbn [List.length firstn].
        split; [lia|]. split; [constructor; assumption|].
        split.
        { unfold receive_calls. cbn [combine map fst snd].
          fold (receive_calls (firstn (List.length qs) l) qs).
          assert (Hc : calls_of (arrival_mark (tl sg)) = [])
            by (destruct (tl sg) as [|[] ?]; reflexivity).
          change (calls_of (Poll 0 :: arrival_mark (tl sg) ++
                    CallReceiveRecord (atoi t) q2 :: sig_mark r ++ evs))
            with (calls_of (arrival_mark (tl sg) ++
                    [CallReceiveRecord (atoi t) q2] ++ sig_mark r ++ evs)).
          rewrite !calls_of_app, Hc, calls_of_sig_mark, Hcalls.
          reflexivity. }
        intros Hlt. right.
        assert (Hlt' : (List.length qs < List.length l)%nat) by lia.
        right. rewrite in_app_iff. cbn [In]. rewrite in_app_iff.
        destruct (Hshort Hlt') as [Hne|Hin]; [|tauto].
        destruct (reply_cases r q2) as [[_ Hr]|[Hr _]].
        -- rewrite Hr in Hne. left. unfold q2 in *.
           destruct (arrival_cases (tl sg) 0) as [[_ Ha]|[Ha _]];
             [congruence | rewrite Ha; left; reflexivity].
        -- right. right. left. rewrite Hr. left. reflexivity.
      * intros pre i x post H. split; [reflexivity|].
        peel H.
        destruct (arrival_cases (tl sg) 0) as [[Hm Ha]|[Hm Ha]];
          fold q2 in Ha; rewrite Hm in *; cbn [app] in H.
        -- peel H.
           { match goal with
             | E : CallReceiveRecord _ _ = _ |- _ => inversion E; subst
             end.
             exists [], []. cbn [app].
             repeat split; auto; try constructor; congruence. }
           destruct (reply_cases r q2) as [[Hs Hr]|[Hs Hr]];
             rewrite Hs in H; cbn [app] in H; [|peel H];
             destruct (HB1 _ _ _ _ H) as (Hz & p & m & -> & Hp & Hm' & Hx);
             [|rewrite Hr in Hz; discriminate Hz].
           exists (Poll 0 :: CallReceiveRecord (atoi t) q2 :: p), m.
           split; [reflexivity|]. split; [|split; assumption].
           cbn [In]. intros [H0|[H0|H0]];
             [discriminate H0 | discriminate H0 | exact (Hp H0)].
        -- peel H. peel H.
           { match goal with
             | E : CallReceiveRecord _ _ = _ |- _ => inversion E; subst
             end.
             exists [], [Sigint]. cbn [app].
             repeat split; auto; try (repeat constructor); congruence. }
           destruct (reply_cases r q2) as [[Hs Hr]|[Hs Hr]];
             rewrite Hs in H; cbn [app] in H; [|peel H];
             destruct (HB1 _ _ _ _ H) as (Hz & _);
             rewrite Hr in Hz; rewrite ?Ha in Hz; discriminate Hz.
      * intros pre x post H Hpre.
        destruct Hpre as [Hpre|Hpre]; [congruence|].
        peel H; [contradiction|].
        destruct Hpre as [Hpre|Hpre]; [discriminate Hpre|].
        destruct (arrival_cases (tl sg) 0) as [[Hm Ha]|[Hm Ha]];
          fold q2 in Ha; rewrite Hm in *; cbn [app] in H.
        -- peel H.
           destruct Hpre as [Hpre|Hpre]; [discriminate Hpre|].
           destruct (reply_cases r q2) as [[Hs Hr]|[Hs Hr]];
             rewrite Hs in H; cbn [app] in H.
           ++ apply (HB2 _ _ _ H). right. exact Hpre.
           ++ peel H. apply (HB2 _ _ _ H). left. rewrite Hr. discriminate.
        -- peel H. peel H.
           destruct (reply_cases r q2) as [[Hs Hr]|[Hs Hr]];
             rewrite Hs in H; cbn [app] in H; [|peel H];
             apply (HB2 _ _ _ H); left; rewrite Hr, ?Ha; discriminate.
      * intros pre post H.
        peel H.
        { exists (arrival_mark (tl sg)), (atoi t), q2, (sig_mark r ++ evs)%list.
          split; [reflexivity|].
          destruct (tl sg) as [|[] ?]; repeat constructor. }
        destruct (arrival_cases (tl sg) 0) as [[Hm Ha]|[Hm Ha]];
          rewrite Hm in *; cbn [app] in H; [|peel H]; peel H;
          (destruct (reply_cases r q2) as [[Hs Hr]|[Hs Hr]];
           rewrite Hs in H; cbn [app] in H; [|peel H];
           exact (HC _ _ H)).
      * constructor; [shape_case|].
        apply Forall_app. split.
        { destruct (tl sg) as [|[] ?]; cbn [arrival_mark];
            repeat (constructor; [shape_case|]); constructor. }
        constructor; [shape_case|].
        apply Forall_app. split; [|exact Hall].
        unfold sig_mark. destruct (sigint r);
          repeat (constructor; [shape_case|]); constructor.
Qed.

End ReceiveInFacts.

Section SignalRunFacts.

Variable D : Type.
Variable dev : Device D.

Lemma In_arrival_mark sg e : In e (arrival_mark sg) -> e = Sigint.
Proof.
  destruct sg as [|[] sg]; cbn [arrival_mark In];
    intros H; try contradiction.
  destruct H as [H|[]]. auto.
Qed.

Lemma calls_of_arrival_mark sg : calls_of (arrival_mark sg) = [].
Proof. destruct sg as [|[] sg]; reflexivity. Qed.

Lemma In_init_events_in g s sg (r : reply D bool) e :
  In e (init_events_in g s sg r) ->
  (exists text, e = Stderr text) \/ e = CallOpen s (result r) \/ e = Sigint.
Proof.
  unfold init_events_in. intros H.
  apply in_app_or in H. destruct H as [H|H].
  { apply In_run_line in H. destruct H as [-> _]. left. eauto. }
  apply in_app_or in H. destruct H as [H|H].
  { apply In_arrival_mark in H. auto. }
  cbn [app] in H. destruct H as [<-|H]; [auto|].
  apply in_app_or in H. destruct H as [H|H].
  { apply In_sig_mark in H. destruct H as [-> _]. auto. }
  destruct (result r); [contradiction|].
  destruct H as [<-|H]; [left; eauto|].
  destruct s; [|contradiction]. destruct H as [<-|[]]. left. eauto.
Qed.

(** A signal before the loop is entered sets the flag, and only that
    does. *)
Lemma Sigint_init_events_in g s sg (r : reply D bool) :
  In Sigint (init_events_in g s sg r) <->
  after_call r (after_arrival sg 0) <> 0.
Proof.
  unfold init_events_in. rewrite !in_app_iff. split.
  - intros [H|[H|[H|[H|H]]]].
    + apply In_run_line in H. destruct H as [H _]. discriminate H.
    + destruct (arrival_cases sg 0) as [[Hm Ha]|[Hm Ha]].
      * rewrite Hm in H. contradiction.
      * rewrite Ha. unfold after_call. destruct (sigint r); discriminate.
    + destruct H as [H|[]]. discriminate H.
    + apply In_sig_mark in H. destruct H as [_ H].
      unfold after_call. rewrite H. discriminate.
    + destruct (result r); [contradiction|].
      destruct H as [H|H]; [discriminate H|].
      destruct s; [|contradiction]. destruct H as [H|[]]. discriminate H.
  - intros H. destruct (reply_cases r (after_arrival sg 0)) as [[_ Hr]|[Hr _]].
    + rewrite Hr in H.
      destruct (arrival_cases sg 0) as [[_ Ha]|[Ha _]]; [congruence|].
      right. left. rewrite Ha. left. reflexivity.
    + right. right. right. left. rewrite Hr. left. reflexivity.
Qed.

Lemma calls_of_init_events_in g s sg (r : reply D bool) :
  calls_of (init_events_in g s sg r) = [CallOpen s (result r)].
Proof.
  unfold init_events_in.
  rewrite !calls_of_app, calls_of_run_line, calls_of_arrival_mark,
    calls_of_sig_mark.
  destruct (result r); [reflexivity|]. destruct s; reflexivity.
Qed.

Lemma In_done_events_in g sg (r : reply D unit) e :
  In e (done_events_in g sg r) ->
  (exists text, e = Stderr text) \/ e = CallClose \/ e = Sigint.
Proof.
  unfold done_events_in. rewrite !in_app_iff. intros [H|[H|[H|H]]].
  - apply In_run_line in H. destruct H as [-> _]. left. eauto.
  - apply In_arrival_mark in H. auto.
  - destruct H as [<-|[]]. auto.
  - apply In_sig_mark in H. destruct H as [-> _]. auto.
Qed.

Lemma calls_of_done_events_in g sg (r : reply D unit) :
  calls_of (done_events_in g sg r) = [CallClose].
Proof.
  unfold done_events_in.
  rewrite !calls_of_app, calls_of_run_line, calls_of_arrival_mark,
    calls_of_sig_mark.
  reflexivity.
Qed.

End SignalRunFacts.


Section DefaultEnvironment.

Variable D : Type.
Variable dev : Device D.

Lemma without_polls_app (t1 t2 : list event) :
  without_polls (t1 ++ t2) = (without_polls t1 ++ without_polls t2)%list.
Proof. apply filter_app. Qed.

Lemma without_polls_id (t : list event) :
  Forall (fun e => is_poll e = false) t -> without_polls t = t.
Proof.
  induction 1 as [|e t He _ IH]; [reflexivity|].
  cbn [without_polls filter]. rewrite He. cbn [negb].
  fold (without_polls t). rewrite IH. reflexivity.
Qed.

Lemma without_polls_cons e (t : list event) :
  is_poll e = false -> without_polls (e :: t) = e :: without_polls t.
Proof. intros H. cbn [without_polls filter]. rewrite H. reflexivity. Qed.

Lemma without_polls_outputs (t : list event) :
  Forall (fun e => is_output e = true) t -> without_polls t = t.
Proof.
  intros H. apply without_polls_id. eapply Forall_impl; [|exact H].
  intros e He. destruct e; try reflexivity; discriminate He.
Qed.

Lemma without_polls_run_line text g :
  without_polls (run_line text g) = run_line text g.
Proof. unfold run_line. destruct (9 <=? g); reflexivity. Qed.

Lemma without_polls_sig_mark R (r : reply D R) :
  without_polls (sig_mark r) = sig_mark r.
Proof. unfold sig_mark. destruct (sigint r); reflexivity. Qed.

Lemma without_polls_free_line a g :
  without_polls (free_line a g) = free_line a g.
Proof.
  unfold free_line. destruct (items a); [reflexivity|].
  destruct (9 <=? g); reflexivity.
Qed.

(** Without signals between the calls the loop over the targets is the
    loop of [Run_for], the tests of the flag apart. *)
Lemma receive_run_in_quiet l :
  forall q d,
  let '(evs, q', d', sg') := receive_run_in dev l [] q d in
  receive_run dev l q d = (without_polls evs, q', d').
Proof.
  induction l as [|t l IH]; intros q d; [reflexivity|].
  cbn [receive_run_in receive_run after_arrival arrival_mark tl app].
  destruct (negb (q =? 0)) eqn:Eq; [reflexivity|].
  apply negb_false_iff, Z.eqb_eq in Eq. subst q.
  set (r := ReceiveRecord dev (atoi t) 0 d).
  specialize (IH (after_call r 0) (device r)).
  destruct (receive_run_in dev l [] _ _) as [[[evs q'] d'] sg'].
  rewrite IH.
  cbn [without_polls filter is_poll negb].
  fold (without_polls (sig_mark r ++ evs)).
  rewrite without_polls_app, without_polls_sig_mark. reflexivity.
Qed.

Lemma Run_in_outcome_quiet (st st' : state D) :
  m_dmm st' = m_dmm st -> m_args st' = m_args st ->
  quit_flag st' = quit_flag st -> g_debug st' = g_debug st ->
  without_polls (trace st') = trace st ->
  let '(rc, sg, st1') := Run_in_outcome dev [] st' in
  let '(rc0, st1) := Run_outcome dev st in
  rc = rc0 /\ sg = [] /\
  m_dmm st1' = m_dmm st1 /\ m_args st1' = m_args st1 /\
  quit_flag st1' = quit_flag st1 /\ g_debug st1' = g_debug st1 /\
  without_polls (trace st1') = trace st1.
Proof.
  intros Hd Ha Hq Hg Ht. unfold Run_in_outcome, Run_outcome. cbv zeta.
  rewrite Hd, Ha, Hq, Hg.
  cbn [after_arrival arrival_mark tl app].
  destruct (monitor (m_args st)); [|destruct (list_ (m_args st));
    [|destruct (0 <? item_count (m_args st))]].
  3: pose proof (receive_run_in_quiet (targets_read (m_args st))
                   (quit_flag st) (m_dmm st)) as Hr;
     destruct (receive_run_in dev _ _ _ _) as [[[evs q'] d'] sg'] eqn:Ein;
     rewrite Hr.
  all: unfold advance; cbn [m_dmm m_args quit_flag g_debug trace];
    rewrite Ha, Hg; repeat split; try reflexivity.
  3: { clear Hr. revert Ein. generalize (targets_read (m_args st)).
       generalize (quit_flag st). generalize (m_dmm st).
       intros d q l. revert q d evs q' d' sg'.
       induction l as [|t l IH]; intros q d evs q' d' sg';
         cbn [receive_run_in after_arrival arrival_mark tl app].
       - intros E; inversion E; reflexivity.
       - destruct (negb (q =? 0)); [intros E; inversion E; reflexivity|].
         destruct (receive_run_in dev l [] _ _) as [[[evs1 q1] d1] sg1] eqn:E1.
         intros E; inversion E; subst. eapply IH. exact E1. }
  all: rewrite !without_polls_app, Ht, ?without_polls_run_line;
    repeat (rewrite without_polls_cons by reflexivity);
    rewrite ?without_polls_app, ?without_polls_sig_mark; try reflexivity.
  destruct (0 <? g_debug st); reflexivity.
Qed.

(** The program above is the program in the default environment:
    [POSIXLY_CORRECT] not set, no signal outside the calls of the device.
    The two runs end with the same status and do the same things, the
    marks of the tests of the flag apart. *)
Lemma main_in_default (dmm : D) (argv : list string) :
  fst (main_in dev PERMUTE [] dmm argv) = fst (main dev dmm argv) /\
  without_polls (trace (snd (main_in dev PERMUTE [] dmm argv)))
  = trace (snd (main dev dmm argv)).
Proof.
  destruct (main_in_Main dev PERMUTE [] dmm argv) as [-> ->].
  destruct (main_Main dev dmm argv) as [-> ->].
  pose proof (Main_in_fresh dev PERMUTE [] dmm argv) as Hin.
  pose proof (Main_fresh dev dmm argv) as H0.
  rewrite ParseArguments_in_PERMUTE in Hin.
  destruct (ParseArguments argv (Program dmm)) as [rc0 st0].
  cbv zeta in Hin, H0.
  destruct Hin as [-> Ho]. destruct H0 as [-> _].
  pose proof (without_polls_outputs Ho) as Hw.
  cbn [after_arrival arrival_mark tl].
  assert (Hinit : forall g s (r : reply D bool),
            init_events_in g s [] r = init_events g s r) by reflexivity.
  assert (Hwi : forall g s (r : reply D bool),
            without_polls (init_events g s r) = init_events g s r).
  { intros g s r. unfold init_events.
    rewrite !without_polls_app, without_polls_run_line, without_polls_sig_mark.
    destruct (result r); [reflexivity|]. destruct s; reflexivity. }
  rewrite Hinit.
  destruct (rc0 =? 0).
  2:{ cbn [fst snd]. rewrite without_polls_app, Hw, without_polls_free_line.
      auto. }
  destruct (result (Open dev (serial (m_args st0)) dmm)).
  2:{ cbn [fst snd trace m_args g_debug].
      rewrite !without_polls_app, Hw, Hwi, without_polls_free_line. auto. }
  match goal with
  | |- context [Run_in_outcome dev [] ?s'] =>
      match goal with
      | |- context [Run_outcome dev ?s] =>
          pose proof (@Run_in_outcome_quiet s s' eq_refl eq_refl eq_refl
                        eq_refl) as Hrun;
          destruct (Run_in_outcome_frame dev [] s') as (_ & Ha' & _);
          destruct (Run_outcome_frame dev s) as (_ & Ha0 & _)
      end
  end.
  cbn [trace] in Hrun. rewrite without_polls_app, Hw, Hwi in Hrun.
  specialize (Hrun eq_refl).
  destruct (Run_in_outcome dev [] _) as [[rc sg3] st3'].
  destruct (Run_outcome dev _) as [rc1 st3].
  destruct Hrun as (-> & -> & Hd & Ha & Hq & Hg & Ht).
  cbn [snd m_args] in Ha', Ha0.
  unfold advance, done_events_in.
  cbn [fst snd trace m_args g_debug after_arrival arrival_mark app].
  rewrite ?Hd, ?Ha, ?Hq, ?Hg. split; [reflexivity|].
  rewrite !without_polls_app, Ht, without_polls_run_line.
  rewrite without_polls_cons by reflexivity.
  rewrite without_polls_sig_mark, without_polls_free_line.
  reflexivity.
Qed.

End DefaultEnvironment.

(** *** Whole runs under either ordering, signals arriving at any time *)

Section EnvironmentRunFacts.

Variable D : Type.
Variable dev : Device D.

(** A loop left by [return 2] has just written the version line. *)
Lemma ParseArguments_loop_in_version o argc fuel :
  forall d (st : state D) st',
  ParseArguments_loop_in o fuel argc d st = (Return 2, st') ->
  exists out,
    trace st' = (trace st ++ out ++ [Stdout (version_info ++ nl)])%list.
Proof.
  induction fuel as [|fuel IH]; intros d st st' H; [discriminate H|].
  rewrite ParseArguments_loop_in_step in H. cbv zeta in H.
  destruct (code _ =? -1); [discriminate H|].
  match type of H with
  | context [ParseArguments_switch ?r ?s] =>
      pose proof (@switch_return D r s) as Hret;
      destruct (ParseArguments_switch_prints r s)
        as ((_ & _ & _ & o1 & Ht1 & _) & _);
      destruct (ParseArguments_switch r s) as [[rc'|] st2]
  end; cbn [snd trace] in Ht1.
  - inversion H; subst rc' st2.
    destruct (Hret 2 st' eq_refl) as [[E _]|[_ Hlast]];
      [discriminate | discriminate E |].
    cbn [trace] in Hlast. eexists. rewrite Hlast, <- app_assoc. reflexivity.
  - destruct (IH _ _ _ H) as (o2 & Ht2).
    exists (map GetoptStderr
              (printed (getopt_long_in o argc short_options long_options d))
            ++ o1 ++ o2)%list.
    rewrite Ht2, Ht1, <- !app_assoc. reflexivity.
Qed.

Lemma ParseArguments_in_version o argv (st st' : state D) :
  ParseArguments_in o argv st = (2, st') ->
  exists out,
    trace st' = (trace st ++ out ++ [Stdout (version_info ++ nl)])%list.
Proof.
  unfold ParseArguments_in. monad.
  pose proof (@ParseArguments_loop_in_version o (argc_of argv)
                (S (getopt_measure (getopt_start argv))) (getopt_start argv) st)
    as Hh.
  destruct (ParseArguments_loop_in _ _ _ _ st) as [[d|rc|] st1].
  - repeat (monad; match goal with
                   | |- context [if ?x then _ else _] => destruct x
                   end);
    intros H; inversion H.
  - intros H; inversion H; subst. apply Hh. reflexivity.
  - intros H; inversion H.
Qed.

Lemma Run_in_outcome_status sg (st : state D) :
  In (fst (fst (Run_in_outcome dev sg st))) [0; 1; -1].
Proof.
  unfold Run_in_outcome. cbv zeta.
  destruct (monitor (m_args st)); [|destruct (list_ (m_args st));
    [|destruct (0 <? item_count (m_args st))]].
  3: destruct (receive_run_in dev _ _ _ _) as [[[evs q'] d'] sg'].
  all: cbn [fst].
  - destruct (result _); cbn; tauto.
  - cbn; tauto.
  - cbn; tauto.
  - destruct (0 <? g_debug st); cbn; tauto.
Qed.

(** After a successful parse the exit status is 0, 1 or -1, and the
    first call of the device is [Open], with the serial string the parse
    left. *)
Lemma main_in_after_parse o sg (dmm : D) argv (st0 : state D) :
  ParseArguments_in o argv (Program dmm) = (0, st0) ->
  In (fst (main_in dev o sg dmm argv)) [0; 1; -1] /\
  exists rest,
    calls_of (trace (snd (main_in dev o sg dmm argv))) =
    CallOpen (serial (m_args st0))
      (result (Open dev (serial (m_args st0)) dmm)) :: rest.
Proof.
  intros Hp. destruct (main_in_Main dev o sg dmm argv) as [-> ->].
  pose proof (Main_in_fresh dev o sg dmm argv) as Hm.
  rewrite Hp in Hm. cbv zeta in Hm. destruct Hm as [-> Ho].
  cbn [Z.eqb].
  destruct (result (Open dev (serial (m_args st0)) dmm)) eqn:Er.
  - match goal with
    | |- context [Run_in_outcome dev ?g ?s] =>
        pose proof (Run_in_outcome_status g s) as Hst;
        destruct (Run_in_outcome_frame dev g s) as (_ & _ & new & Hn);
        destruct (Run_in_outcome dev g s) as [[rc sg3] st3]
    end.
    cbn [fst snd trace] in *. split; [exact Hst|].
    unfold advance. cbn [trace]. rewrite Hn.
    rewrite !calls_of_app, (calls_of_outputs Ho), calls_of_init_events_in.
    rewrite Er. eexists. reflexivity.
  - cbn [fst snd trace]. split; [cbn; tauto|].
    rewrite !calls_of_app, (calls_of_outputs Ho), calls_of_init_events_in.
    rewrite Er. eexists. reflexivity.
Qed.

(** The whole run in Monitor mode and in List mode. *)
Lemma main_in_monitor o sg (dmm : D) argv (st0 : state D) :
  ParseArguments_in o argv (Program dmm) = (0, st0) ->
  monitor (m_args st0) = true ->
  let a := m_args st0 in
  let r := Open dev (serial a) dmm in
  result r = true ->
  let q := after_arrival (tl sg) (after_call r (after_arrival sg 0)) in
  let m := Monitor dev q (device r) in
  let c := Close dev (device m) in
  fst (main_in dev o sg dmm argv) = (if result m then 0 else -1) /\
  trace (snd (main_in dev o sg dmm argv)) =
    (trace st0 ++ init_events_in (debug a) (serial a) sg r ++
     run_line "Program::Run" (debug a) ++
     [Stderr ("Ctrl-C to quit the monitor" ++ nl)] ++
     arrival_mark (tl sg) ++ [CallMonitor q (result m)] ++ sig_mark m ++
     done_events_in (debug a) (tl (tl sg)) c ++
     free_line a (debug a))%list /\
  Forall (fun e => is_output e = true) (trace st0).
Proof.
  intros Hp Hm. cbv zeta. intros Er.
  destruct (main_in_Main dev o sg dmm argv) as [-> ->].
  pose proof (Main_in_fresh dev o sg dmm argv) as H.
  rewrite Hp in H. cbv zeta in H. destruct H as [-> Ho].
  rewrite Er. cbn [Z.eqb].
  unfold Run_in_outcome. cbn [m_args g_debug quit_flag m_dmm].
  rewrite Hm.
  unfold advance. cbn [fst snd trace m_dmm m_args g_debug].
  split; [reflexivity|]. split; [|exact Ho].
  rewrite <- !app_assoc. reflexivity.
Qed.

Lemma main_in_list o sg (dmm : D) argv (st0 : state D) :
  ParseArguments_in o argv (Program dmm) = (0, st0) ->
  monitor (m_args st0) = false ->
  list_ (m_args st0) = true ->
  let a := m_args st0 in
  let r := Open dev (serial a) dmm in
  result r = true ->
  let q := after_arrival (tl sg) (after_call r (after_arrival sg 0)) in
  let m := ListRecord dev q (device r) in
  let c := Close dev (device m) in
  fst (main_in dev o sg dmm argv) = 0 /\
  trace (snd (main_in dev o sg dmm argv)) =
    (trace st0 ++ init_events_in (debug a) (serial a) sg r ++
     run_line "Program::Run" (debug a) ++
     [Stderr ("Ctrl-C to abort if it takes too long" ++ nl)] ++
     arrival_mark (tl sg) ++ [CallListRecord q] ++ sig_mark m ++
     done_events_in (debug a) (tl (tl sg)) c ++
     free_line a (debug a))%list /\
  Forall (fun e => is_output e = true) (trace st0).
Proof.
  intros Hp Hm Hl. cbv zeta. intros Er.
  destruct (main_in_Main dev o sg dmm argv) as [-> ->].
  pose proof (Main_in_fresh dev o sg dmm argv) as H.
  rewrite Hp in H. cbv zeta in H. destruct H as [-> Ho].
  rewrite Er. cbn [Z.eqb].
  unfold Run_in_outcome. cbn [m_args g_debug quit_flag m_dmm].
  rewrite Hm, Hl.
  unfold advance. cbn [fst snd trace m_dmm m_args g_debug].
  split; [reflexivity|]. split; [|exact Ho].
  rewrite <- !app_assoc. reflexivity.
Qed.

End EnvironmentRunFacts.

Section EnvironmentParseFacts.

Variable D : Type.
Variable dev : Device D.

(** The switch returns -1 right after the help text. *)
Lemma switch_invalid r (st st' : state D) :
  ParseArguments_switch r st = (Some (-1), st') ->
  trace st' = (trace st ++ [Stdout help_msg])%list.
Proof.
  unfold ParseArguments_switch. cbv zeta.
  destruct (flag _); destruct (optarg (data r));
  repeat (monad; match goal with
                 | |- context [if ?x then _ else _] => destruct x
                 end);
  monad; intros H; inversion H; subst; reflexivity.
Qed.

Lemma ParseArguments_loop_in_invalid o argc fuel :
  forall d (st : state D) st',
  ParseArguments_loop_in o fuel argc d st = (Return (-1), st') ->
  exists out, trace st' = (trace st ++ out ++ [Stdout help_msg])%list.
Proof.
  induction fuel as [|fuel IH]; intros d st st' H; [discriminate H|].
  rewrite ParseArguments_loop_in_step in H. cbv zeta in H.
  destruct (code _ =? -1); [discriminate H|].
  match type of H with
  | context [ParseArguments_switch ?r ?s] =>
      pose proof (@switch_invalid r s) as Hret;
      destruct (ParseArguments_switch_prints r s)
        as ((_ & _ & _ & o1 & Ht1 & _) & _);
      destruct (ParseArguments_switch r s) as [[rc'|] st2]
  end; cbn [snd trace] in Ht1.
  - inversion H; subst rc' st2.
    specialize (Hret st' eq_refl). cbn [trace] in Hret.
    eexists. rewrite Hret, <- app_assoc. reflexivity.
  - destruct (IH _ _ _ H) as (o2 & Ht2).
    exists (map GetoptStderr
              (printed (getopt_long_in o argc short_options long_options d))
            ++ o1 ++ o2)%list.
    rewrite Ht2, Ht1, <- !app_assoc. reflexivity.
Qed.

Lemma ParseArguments_in_invalid o argv (st st' : state D) :
  ParseArguments_in o argv st = (-1, st') ->
  exists out, trace st' = (trace st ++ out ++ [Stdout help_msg])%list.
Proof.
  unfold ParseArguments_in. monad.
  pose proof (@ParseArguments_loop_in_invalid o (argc_of argv)
                (S (getopt_measure (getopt_start argv))) (getopt_start argv) st)
    as Hh.
  pose proof (@ParseArguments_loop_in_fuel D o (argc_of argv)
                (S (getopt_measure (getopt_start argv))) (getopt_start argv) st
                ltac:(lia)) as Hf.
  destruct (ParseArguments_loop_in _ _ _ _ st) as [[d|rc|] st1].
  - repeat (monad; match goal with
                   | |- context [if ?x then _ else _] => destruct x
                   end);
    intros H; inversion H.
  - intros H; inversion H; subst. apply Hh. reflexivity.
  - exfalso. apply Hf. reflexivity.
Qed.

Lemma receive_run_in_stop l sg q (d : D) :
  after_arrival sg q <> 0 ->
  calls_of (fst (fst (fst (receive_run_in dev l sg q d)))) = [].
Proof.
  intros Hx. destruct l as [|t l]; [reflexivity|].
  cbn [receive_run_in]. apply Z.eqb_neq in Hx. rewrite Hx.
  cbn [negb fst]. rewrite calls_of_app, calls_of_arrival_mark. reflexivity.
Qed.

End EnvironmentParseFacts.

(** *** What the two orderings have in common *)

Lemma subseq_length {A} (l1 l2 : list A) :
  subseq l1 l2 -> (List.length l1 <= List.length l2)%nat.
Proof. induction 1; cbn [List.length]; lia. Qed.

Lemma subseq_In {A} (l1 l2 : list A) x :
  subseq l1 l2 -> In x l1 -> In x l2.
Proof.
  induction 1 as [|y l1 l2 _ IH|y l1 l2 _ IH]; intros Hin.
  - exact Hin.
  - right. apply IH. exact Hin.
  - destruct Hin as [<-|Hin]; [left; reflexivity | right; apply IH; exact Hin].
Qed.

(** Where the scan stands on an option, or at the end of the command
    line, the ordering makes no difference. *)
Lemma getopt_long_in_same o argc optstring longopts d :
  match nextchar d, rest d with
  | EmptyString, a :: _ => NONOPTION_P a = false
  | _, _ => True
  end ->
  getopt_long_in o argc optstring longopts d
  = getopt_long argc optstring longopts d.
Proof.
  destruct o; [|intros _; apply getopt_long_in_PERMUTE].
  unfold getopt_long_in, getopt_long.
  destruct (argc <? 1); [reflexivity|].
  destruct (nextchar d); [|reflexivity].
  destruct (rest d) as [|a l']; [reflexivity|].
  intros Hn. cbn [skip_nonoptions]. rewrite Hn. reflexivity.
Qed.

(** Under either ordering [getopt_long] does what it does by default, or
    stops the scan silently. *)
Lemma getopt_long_in_cases o argc d :
  let r := getopt_long_in o argc short_options long_options d in
  r = getopt_long argc short_options long_options d \/
  (code r = -1 /\ printed r = []).
Proof.
  cbv zeta. destruct o; [|left; apply getopt_long_in_PERMUTE].
  unfold getopt_long_in, getopt_long.
  destruct (argc <? 1); [left; reflexivity|].
  destruct (nextchar d); [|left; reflexivity].
  destruct (rest d) as [|a l']; [left; reflexivity|].
  destruct (NONOPTION_P a) eqn:Hn.
  - destruct (String.eqb a "--") eqn:Hd.
    + apply String.eqb_eq in Hd. subst a. discriminate Hn.
    + right. split; reflexivity.
  - left. cbn [skip_nonoptions]. rewrite Hn. reflexivity.
Qed.

Lemma getopt_long_in_codes o argc d :
  In (code (getopt_long_in o argc short_options long_options d))
     [-1; chr "?"; chr "h"; chr "v"; chr "d"; chr "s"; chr "m"; chr "l"].
Proof.
  destruct (getopt_long_in_cases o argc d) as [->|[-> _]];
    [apply getopt_long_codes | left; reflexivity].
Qed.

Lemma getopt_long_in_printed o argc d :
  code (getopt_long_in o argc short_options long_options d) <> chr "?" ->
  printed (getopt_long_in o argc short_options long_options d) = [].
Proof.
  destruct (getopt_long_in_cases o argc d) as [->|[_ ->]];
    [apply getopt_long_printed | reflexivity].
Qed.

Lemma getopt_long_in_error o argc d :
  code (getopt_long_in o argc short_options long_options d) = chr "?" ->
  exists e, printed (getopt_long_in o argc short_options long_options d) = [e].
Proof.
  destruct (getopt_long_in_cases o argc d) as [->|[-> _]];
    [apply getopt_long_error | intros H; discriminate H].
Qed.

Section EnvironmentOutputFacts.

Variable D : Type.
Variable dev : Device D.

Lemma ParseArguments_loop_in_inventory o argc fuel :
  forall d (st : state D),
  exists out,
    trace (snd (ParseArguments_loop_in o fuel argc d st))
    = (trace st ++ out)%list /\
    Forall parse_output out.
Proof.
  induction fuel as [|fuel IH]; intros d st.
  - exists []. cbn. rewrite app_nil_r. split; [reflexivity | constructor].
  - rewrite ParseArguments_loop_in_step. cbv zeta.
    set (r := getopt_long_in o argc short_options long_options d).
    assert (Hg : Forall parse_output (map GetoptStderr (printed r))).
    { apply Forall_forall. intros e He. apply in_map_iff in He.
      destruct He as (g & <- & _). left. eauto. }
    destruct (code r =? -1) eqn:Ec.
    + eexists. split; [reflexivity | exact Hg].
    + apply Z.eqb_neq in Ec.
      match goal with
      | |- context [ParseArguments_switch r ?s] =>
          destruct (@switch_inventory D r s (getopt_long_in_codes o argc d) Ec)
            as (o1 & Ht1 & Ho1 & _);
          destruct (ParseArguments_switch r s) as [[rc|] st2]
      end; cbn [snd trace] in *.
      * exists (map GetoptStderr (printed r) ++ o1)%list. split.
        -- rewrite Ht1, app_assoc. reflexivity.
        -- apply Forall_app; auto.
      * destruct (IH (data r) st2) as (o2 & Ht2 & Ho2).
        exists (map GetoptStderr (printed r) ++ o1 ++ o2)%list. split.
        -- rewrite Ht2, Ht1, <- !app_assoc. reflexivity.
        -- repeat (apply Forall_app; split); auto.
Qed.

(** Everything [ParseArguments] writes, under either ordering. *)
Lemma ParseArguments_in_inventory o argv (st : state D) :
  exists out,
    trace (snd (ParseArguments_in o argv st)) = (trace st ++ out)%list /\
    Forall parse_output out.
Proof.
  unfold ParseArguments_in. monad.
  destruct (ParseArguments_loop_in_inventory o (argc_of argv)
              (S (getopt_measure (getopt_start argv))) (getopt_start argv) st)
    as (o1 & Ht1 & Ho1).
  destruct (ParseArguments_loop_in _ _ _ _ st) as [[d|rc|] st1]; cbn [snd] in *;
    try (exists o1; split; assumption).
  repeat (monad; match goal with
                 | |- context [if ?x then _ else _] => destruct x
                 end);
  monad; cbn [snd trace];
  first
    [ exists o1; split; assumption
    | exists (o1 ++ [Stdout ("Positional argument count: "
                              ++ fmt_d (argc_of argv - optind d) ++ nl)])%list;
      split; [rewrite Ht1, <- app_assoc; reflexivity|];
      apply Forall_app; split; [exact Ho1|];
      constructor; [|constructor];
      unfold parse_output; eauto 8 ].
Qed.

(** A loop left by [return -1] has written one diagnostic of
    [getopt_long] and, right after it, the help text; before them it
    wrote to stdout only. *)
Lemma ParseArguments_loop_in_error o argc fuel :
  forall d (st st' : state D),
  ParseArguments_loop_in o fuel argc d st = (Return (-1), st') ->
  exists out e,
    trace st' = (trace st ++ out ++ [GetoptStderr e; Stdout help_msg])%list /\
    Forall (fun x => exists text, x = Stdout text) out.
Proof.
  induction fuel as [|fuel IH]; intros d st st' H; [discriminate H|].
  rewrite ParseArguments_loop_in_step in H. cbv zeta in H.
  set (r := getopt_long_in o argc short_options long_options d) in *.
  destruct (code r =? -1) eqn:Ec; [discriminate H|].
  apply Z.eqb_neq in Ec.
  destruct (Z.eq_dec (code r) (chr "?")) as [Hq|Hq].
  - destruct (getopt_long_in_error o argc d Hq) as [e He]. fold r in He.
    rewrite He, (switch_q _ _ Hq) in H. cbn [map trace] in H.
    inversion H; subst st'. exists [], e. cbn [trace app].
    split; [rewrite <- app_assoc; reflexivity | constructor].
  - pose proof (getopt_long_in_printed o argc d Hq) as Hp. fold r in Hp.
    rewrite Hp in H. cbn [map] in H.
    match type of H with
    | context [ParseArguments_switch r ?s] =>
        destruct (@switch_stdout D r s) as (o1 & Ht1 & Ho1);
        pose proof (@switch_error_only D r s (getopt_long_in_codes o argc d) Ec)
          as Hso;
        destruct (ParseArguments_switch r s) as [[rc'|] st2]
    end; cbn [fst snd trace] in *; rewrite app_nil_r in Ht1.
    + inversion H; subst rc' st2. exfalso. apply Hq, Hso. reflexivity.
    + destruct (IH _ _ _ H) as (o2 & e & Ht2 & Ho2).
      exists (o1 ++ o2)%list, e. split.
      * rewrite Ht2, Ht1, <- !app_assoc. reflexivity.
      * apply Forall_app; auto.
Qed.

Lemma ParseArguments_in_error o argv (st st' : state D) :
  ParseArguments_in o argv st = (-1, st') ->
  exists out e,
    trace st' = (trace st ++ out ++ [GetoptStderr e; Stdout help_msg])%list /\
    Forall (fun x => exists text, x = Stdout text) out.
Proof.
  unfold ParseArguments_in. monad.
  pose proof (@ParseArguments_loop_in_error o (argc_of argv)
                (S (getopt_measure (getopt_start argv))) (getopt_start argv) st)
    as Herr.
  pose proof (@ParseArguments_loop_in_fuel D o (argc_of argv)
                (S (getopt_measure (getopt_start argv))) (getopt_start argv) st
                (Nat.lt_succ_diag_r _)) as Hends.
  destruct (ParseArguments_loop_in _ _ _ _ st) as [[d|rc|] st1]; cbn [fst] in *.
  - repeat (monad; match goal with
                   | |- context [if ?x then _ else _] => destruct x
                   end);
    monad; intros H; inversion H.
  - intros H; inversion H; subst. apply Herr. reflexivity.
  - congruence.
Qed.

(** A loop left by [return 1] or [return 2] has written to stdout only,
    last the help text for 1 and the version text for 2. *)
Lemma ParseArguments_loop_in_stdout o argc fuel :
  forall d (st : state D) rc st',
  ParseArguments_loop_in o fuel argc d st = (Return rc, st') ->
  rc = 1 \/ rc = 2 ->
  exists out,
    trace st' =
      (trace st ++ out ++
       [Stdout (if rc =? 1 then help_msg else version_info ++ nl)])%list /\
    Forall (fun e => exists text, e = Stdout text) out.
Proof.
  induction fuel as [|fuel IH]; intros d st rc st' H Hrc; [discriminate H|].
  rewrite ParseArguments_loop_in_step in H. cbv zeta in H.
  destruct (code _ =? -1); [discriminate H|].
  destruct (Z.eq_dec (code (getopt_long_in o argc short_options long_options d))
              (chr "?")) as [Hq|Hq].
  - match type of H with
    | context [ParseArguments_switch ?r ?s] =>
        pose proof (@switch_error D r s Hq) as He;
        destruct (ParseArguments_switch r s) as [[rc'|] st2]
    end; cbn [fst] in He; [|discriminate He].
    inversion He; subst. inversion H; subst. destruct Hrc; discriminate.
  - rewrite (getopt_long_in_printed o argc d Hq) in H. cbn [map] in H.
    match type of H with
    | context [ParseArguments_switch ?r ?s] =>
        destruct (@switch_stdout D r s) as (o1 & Ht1 & Ho1);
        pose proof (@switch_return D r s) as Hret;
        destruct (ParseArguments_switch r s) as [[rc'|] st2]
    end; cbn [snd trace] in Ht1; rewrite app_nil_r in Ht1.
    + inversion H; subst rc' st2.
      destruct (Hret rc st' eq_refl) as [[-> Hlast]|[-> Hlast]];
        [destruct Hrc; subst rc; discriminate| |];
        cbn [trace] in Hlast; rewrite app_nil_r in Hlast;
        (exists []; split; [exact Hlast | constructor]).
    + destruct (IH _ _ _ _ H Hrc) as (o2 & Ht2 & Ho2).
      exists (o1 ++ o2)%list. split.
      * rewrite Ht2, Ht1, <- !app_assoc. reflexivity.
      * apply Forall_app; auto.
Qed.

Lemma ParseArguments_in_stdout o argv (st st' : state D) rc :
  ParseArguments_in o argv st = (rc, st') ->
  rc = 1 \/ rc = 2 ->
  exists out,
    trace st' =
      (trace st ++ out ++
       [Stdout (if rc =? 1 then help_msg else version_info ++ nl)])%list /\
    Forall (fun e => exists text, e = Stdout text) out.
Proof.
  unfold ParseArguments_in. monad. intros H Hrc.
  pose proof (@ParseArguments_loop_in_stdout o (argc_of argv)
                (S (getopt_measure (getopt_start argv)))
                (getopt_start argv) st) as Hout.
  destruct (ParseArguments_loop_in _ _ _ _ st) as [[d|rc0|] st1].
  - exfalso. revert H.
    repeat (monad; match goal with
                   | |- context [if ?x then _ else _] => destruct x
                   end);
    monad; intros H; inversion H; subst; destruct Hrc; discriminate.
  - inversion H; subst rc0 st1. apply (Hout rc st' eq_refl Hrc).
  - inversion H; subst. destruct Hrc; discriminate.
Qed.

Lemma ParseArguments_loop_in_break_output o argc fuel :
  forall d (st : state D) d' st',
  ParseArguments_loop_in o fuel argc d st = (Break d', st') ->
  exists out,
    trace st' = (trace st ++ out)%list /\
    Forall (fun e => exists text, e = Stdout text /\ text <> help_msg) out.
Proof.
  induction fuel as [|fuel IH]; intros d st d' st' H; [discriminate H|].
  rewrite ParseArguments_loop_in_step in H. cbv zeta in H.
  set (r := getopt_long_in o argc short_options long_options d) in *.
  assert (Hp : printed r = []).
  { apply getopt_long_in_printed. intros Hq.
    destruct (code r =? -1) eqn:E.
    - apply Z.eqb_eq in E. fold r in Hq. rewrite E in Hq. discriminate Hq.
    - fold r in Hq. match type of H with
      | context [ParseArguments_switch r ?s] =>
          pose proof (switch_error r s Hq) as He;
          destruct (ParseArguments_switch r s) as [[rc'|] st2]
      end; cbn [fst] in He; [discriminate H | discriminate He]. }
  rewrite Hp in H. cbn [map] in H.
  destruct (code r =? -1).
  - inversion H; subst. exists []. cbn [trace]. split; [reflexivity | constructor].
  - match type of H with
    | context [ParseArguments_switch r ?s] =>
        pose proof (@switch_continue D r s) as Hsw;
        destruct (ParseArguments_switch r s) as [[rc'|] st2]
    end; [discriminate H|].
    destruct (Hsw st2 eq_refl) as (o1 & Ht1 & Ho1).
    cbn [trace] in Ht1. rewrite app_nil_r in Ht1.
    destruct (IH _ _ _ _ H) as (o2 & Ht2 & Ho2).
    exists (o1 ++ o2)%list. split.
    + rewrite Ht2, Ht1, app_assoc. reflexivity.
    + apply Forall_app; auto.
Qed.

(** A parse that returns 0 has not printed the help text, and
    [getopt_long] has reported nothing, under either ordering. *)
Lemma ParseArguments_in_ok_output o argv (st st' : state D) :
  ParseArguments_in o argv st = (0, st') ->
  exists out,
    trace st' = (trace st ++ out)%list /\
    Forall (fun e => exists text, e = Stdout text /\ text <> help_msg) out.
Proof.
  unfold ParseArguments_in. monad.
  pose proof (@ParseArguments_loop_in_rc D o (argc_of argv)
                (S (getopt_measure (getopt_start argv))) (getopt_start argv) st)
    as Hrc.
  pose proof (@ParseArguments_loop_in_break_output o (argc_of argv)
                (S (getopt_measure (getopt_start argv))) (getopt_start argv) st)
    as Hbr.
  destruct (ParseArguments_loop_in _ _ _ _ st) as [[d|rc|] st1]; cbn [fst] in *.
  - destruct (Hbr d st1 eq_refl) as (o1 & Ht1 & Ho1). clear Hbr Hrc.
    repeat (monad; match goal with
                   | |- context [if ?x then _ else _] => destruct x
                   end);
    monad; intros H; inversion H; subst st'; clear H; cbn [trace];
    first
      [ exists o1; split; [exact Ht1 | exact Ho1]
      | eexists; split;
        [ rewrite Ht1, <- app_assoc; reflexivity
        | apply Forall_app; split; [exact Ho1|];
          constructor; [|constructor];
          eexists; split;
          [reflexivity
          | let E := fresh in
            intros E; unfold help_msg in E; cbn in E; discriminate E] ] ].
  - intros H; inversion H; subst.
    destruct (Hrc 0 eq_refl) as [|[|]]; discriminate.
  - intros H; inversion H.
Qed.

(** [ParseArguments] returns 0, 1, 2 or -1, under either ordering. *)
Lemma ParseArguments_in_rc o argv (st : state D) :
  In (fst (ParseArguments_in o argv st)) [0; 1; 2; -1].
Proof.
  unfold ParseArguments_in. monad.
  pose proof (@ParseArguments_loop_in_rc D o (argc_of argv)
                (S (getopt_measure (getopt_start argv))) (getopt_start argv) st)
    as Hrc.
  destruct (ParseArguments_loop_in _ _ _ _ st) as [[d|rc|] st1]; cbn [fst] in *.
  - repeat (monad; match goal with
                   | |- context [if ?x then _ else _] => destruct x
                   end);
    monad; cbn; tauto.
  - monad. destruct (Hrc rc eq_refl) as [-> | [-> | ->]]; cbn; tauto.
  - monad. cbn; tauto.
Qed.

(** What [Run] adds to the trace, signals arriving at any time. *)
Lemma Run_in_outcome_events sg (st : state D) :
  exists body,
    trace (snd (Run_in_outcome dev sg st)) =
      (trace st ++ run_line "Program::Run" (g_debug st) ++ body)%list /\
    Forall run_event_in body /\
    (fst (fst (Run_in_outcome dev sg st)) = 1 -> In (Stdout help_msg) body).
Proof.
  assert (Hm : forall sg0, Forall run_event_in (arrival_mark sg0)).
  { intros sg0. apply Forall_forall. intros e He.
    apply In_arrival_mark in He. subst e. left. unfold run_event. tauto. }
  assert (Hs : forall R (r : reply D R), Forall run_event_in (sig_mark r)).
  { intros R r. apply Forall_forall. intros e He.
    apply In_sig_mark in He. destruct He as [-> _]. left.
    unfold run_event. tauto. }
  unfold Run_in_outcome. cbv zeta.
  destruct (monitor (m_args st)); [|destruct (list_ (m_args st));
    [|destruct (0 <? item_count (m_args st))]].
  - unfold advance; cbn [fst snd trace]. eexists; split; [reflexivity|].
    split; [|destruct (result _); discriminate].
    constructor; [left; left; reflexivity|].
    apply Forall_app; split; [apply Hm|].
    constructor; [left; right; right; right; right; left; reflexivity|].
    apply Hs.
  - unfold advance; cbn [fst snd trace]. eexists; split; [reflexivity|].
    split; [|discriminate].
    constructor; [left; right; left; reflexivity|].
    apply Forall_app; split; [apply Hm|].
    constructor; [left; right; right; right; right; left; reflexivity|].
    apply Hs.
  - pose proof (receive_run_in_spec dev (targets_read (m_args st)) sg
                  (quit_flag st) (m_dmm st)) as H.
    destruct (receive_run_in dev _ _ _ _) as [[[evs q'] d'] sg'].
    destruct H as (_ & _ & _ & _ & Hf).
    unfold advance; cbn [fst snd trace]. eexists; split; [reflexivity|].
    split; [|discriminate].
    constructor; [left; right; right; left; reflexivity|].
    eapply Forall_impl; [|exact Hf]. intros e [He|[He|He]];
      [left; right; right; right; right; left; exact He
      |left; right; right; right; right; right; exact He
      |right; exact He].
  - unfold advance; cbn [fst snd trace]. eexists; split; [reflexivity|].
    destruct (0 <? g_debug st); [split; [constructor | discriminate]|].
    split; [|intros _; left; reflexivity].
    constructor; [|constructor].
    left; right; right; right; left; reflexivity.
Qed.

(** The whole run after a successful parse, signals arriving at any
    time. *)
Lemma main_in_parsed o sg dmm argv (st0 : state D) :
  ParseArguments_in o argv (Program dmm) = (0, st0) ->
  let a := m_args st0 in
  let g := debug a in
  let r := Open dev (serial a) dmm in
  exists body sg' (c : reply D unit),
    trace (snd (main_in dev o sg dmm argv)) =
      (trace st0 ++ init_events_in g (serial a) sg r ++
       (if result r then
          run_line "Program::Run" g ++ body ++ done_events_in g sg' c
        else []) ++
       free_line a g)%list /\
    Forall run_event_in body /\
    In (fst (main_in dev o sg dmm argv)) [0; 1; -1] /\
    (fst (main_in dev o sg dmm argv) = 1 -> In (Stdout help_msg) body) /\
    (result r = false -> fst (main_in dev o sg dmm argv) = -1).
Proof.
  intros Hp. cbv zeta. destruct (main_in_Main dev o sg dmm argv) as [-> ->].
  pose proof (Main_in_fresh dev o sg dmm argv) as H.
  rewrite Hp in H. cbv zeta in H. destruct H as [-> _]. cbn [Z.eqb].
  destruct (result (Open dev (serial (m_args st0)) dmm)).
  - match goal with
    | |- context [Run_in_outcome dev ?g ?s] =>
        destruct (Run_in_outcome_events g s) as (body & Ht & Hb & Hone);
        destruct (Run_in_outcome_frame dev g s) as (Hg & Ha & _);
        pose proof (Run_in_outcome_status dev g s) as Hrc;
        destruct (Run_in_outcome dev g s) as [[rc sg3] st3]
    end.
    cbn [fst snd trace g_debug m_args] in *.
    exists body, sg3, (Close dev (m_dmm st3)).
    unfold advance. cbn [trace m_args g_debug].
    rewrite Ht, Ha, Hg, <- !app_assoc. split; [reflexivity|]. split; [exact Hb|].
    split; [exact Hrc|]. split; [exact Hone | discriminate].
  - exists [], sg, (Close dev dmm). cbn [fst snd trace m_args g_debug].
    rewrite <- app_assoc. split; [reflexivity|].
    split; [constructor|]. split; [cbn; tauto|].
    split; [discriminate | reflexivity].
Qed.

End EnvironmentOutputFacts.

Section EnvironmentWholeRuns.

Variable D : Type.
Variable dev : Device D.

(** Without a successful parse the whole run is the parse. *)
Lemma main_in_is_parse o sg (dmm : D) argv :
  fst (ParseArguments_in o argv (Program dmm)) <> 0 ->
  main_in dev o sg dmm argv = ParseArguments_in o argv (Program dmm).
Proof.
  intros H. unfold main_in. unfold bind at 1.
  rewrite (Main_in_parse_only dev o sg argv (Program dmm) H).
  pose proof (ParseArguments_in_no_items o argv (Program dmm) H) as Hit.
  cbn [Program m_args items] in Hit.
  destruct (ParseArguments_in o argv (Program dmm)) as [rc0 st0].
  cbn [snd] in Hit. unfold Program_destructor. monad. rewrite Hit.
  reflexivity.
Qed.

Lemma calls_of_run_events_in (body : list event) :
  Forall run_event_in body ->
  Forall (fun e => is_mode_call e = true) (calls_of body).
Proof.
  induction 1 as [|e l He _ IH]; [constructor|].
  unfold calls_of in *. cbn [filter].
  destruct (is_call e) eqn:Ec; [|exact IH].
  constructor; [|exact IH].
  destruct He as [[Hx|[Hx|[Hx|[Hx|[Hx|Hx]]]]]|[q Hx]]; subst;
    try discriminate Ec; assumption.
Qed.

(** Without a signal between the calls and during them, every target is
    received, the flag clear. *)
Lemma receive_run_in_calm l :
  (forall i q d, sigint (ReceiveRecord dev i q d) = false) ->
  forall sg d,
  Forall (fun b => b = false) sg ->
  calls_of (fst (fst (fst (receive_run_in dev l sg 0 d))))
  = map receive_call l.
Proof.
  intros Hq. induction l as [|t l IH]; intros sg d Hsg; [reflexivity|].
  assert (Htl : forall s : arrivals,
            Forall (fun b => b = false) s ->
            Forall (fun b => b = false) (tl s) /\
            arrival_mark s = [] /\ forall q, after_arrival s q = q).
  { intros s Hs. destruct Hs as [|b s' Hb Hs']; [repeat split; constructor|].
    subst b. repeat split. exact Hs'. }
  destruct (Htl sg Hsg) as (Hsg1 & Hm1 & Ha1).
  destruct (Htl _ Hsg1) as (Hsg2 & Hm2 & Ha2).
  cbn [receive_run_in]. rewrite Ha1, Ha2, Hm1, Hm2. cbn [Z.eqb negb app].
  set (r := ReceiveRecord dev (atoi t) 0 d).
  specialize (IH (tl (tl sg)) (device r) Hsg2).
  unfold after_call, sig_mark. unfold r at 1 3. rewrite Hq.
  destruct (receive_run_in dev l _ _ _) as [[[evs q'] d'] sg'].
  cbn [fst] in *. cbn [app map].
  change (calls_of (Poll 0 :: CallReceiveRecord (atoi t) 0 :: evs))
    with (CallReceiveRecord (atoi t) 0 :: calls_of evs).
  rewrite IH. reflexivity.
Qed.

End EnvironmentWholeRuns.

Section EnvironmentOptionFacts.

Variable D : Type.
Variable dev : Device D.

(** At the end of the command line the ordering makes no difference. *)
Lemma ParseArguments_loop_in_at_end o fuel argc d (st : state D) :
  1 <= argc -> nextchar d = "" -> rest d = [] ->
  ParseArguments_loop_in o fuel argc d st
  = ParseArguments_loop fuel argc d st.
Proof.
  intros Ha Hn Hr. destruct fuel as [|fuel]; [reflexivity|].
  rewrite ParseArguments_loop_in_step, ParseArguments_loop_step.
  rewrite getopt_long_in_same by (rewrite Hn, Hr; exact I).
  cbv zeta.
  destruct (getopt_long_nothing_left d Ha Hn Hr) as (Hc & _).
  rewrite Hc. reflexivity.
Qed.

(** Nor does it for an option and its argument alone. *)
Lemma ParseArguments_in_option_argument o prog f c a (st : state D) :
  In (f, c) [("-d", "d"%char); ("-s", "s"%char); ("--debug", "d"%char);
             ("--serial", "s"%char)] ->
  ParseArguments_in o [prog; f; a] st = ParseArguments [prog; f; a] st.
Proof.
  intros Hin. unfold ParseArguments_in, ParseArguments. cbv zeta.
  unfold bind at 1 3.
  assert (Hargc : 1 <= argc_of [prog; f; a]) by (unfold argc_of; cbn; lia).
  assert (Hloop : forall fuel,
            ParseArguments_loop_in o (S fuel) (argc_of [prog; f; a])
              (getopt_start [prog; f; a]) st
            = ParseArguments_loop (S fuel) (argc_of [prog; f; a])
                (getopt_start [prog; f; a]) st).
  { intros fuel.
    rewrite ParseArguments_loop_in_step, ParseArguments_loop_step.
    assert (Hno : NONOPTION_P f = false).
    { cbn [In] in Hin.
      repeat (destruct Hin as [Hin|Hin]; [injection Hin as <- _; reflexivity|]).
      contradiction. }
    rewrite getopt_long_in_same
      by (cbn [getopt_start nextchar rest tl]; exact Hno).
    cbv zeta.
    destruct (@getopt_long_arg (argc_of [prog; f; a])
                (getopt_start [prog; f; a]) f c a [] Hargc eq_refl eq_refl Hin)
      as (_ & _ & Hd).
    destruct (code _ =? -1); [reflexivity|].
    destruct (ParseArguments_switch _ _) as [[rc|] st2]; [reflexivity|].
    apply ParseArguments_loop_in_at_end; [exact Hargc | |]; rewrite Hd;
      reflexivity. }
  rewrite Hloop. reflexivity.
Qed.

End EnvironmentOptionFacts.

(* ===================================================================== *)
(** ** Properties                                                         *)
(* ===================================================================== *)

Section Properties.

Variable D : Type.
Variable dev : Device D.


(** C2. In Receive mode, whatever the ordering of [getopt_long] and the
    [arrivals] of SIGINT: the targets are elements of the command line
    in their order there; the device is called with [Open], then
    [ReceiveRecord] for the first targets in that order, each converted
    by [atoi] (which gives a decimal numeral its value), then [Close],
    and the loop stops short of the last target only if a SIGINT arrived.
    The flag is tested when the turn of a target begins ([Poll]): every
    [ReceiveRecord] follows a test that read 0, with no signal before
    that test, and is handed the flag as it is then, set if a signal
    arrived since the test; once a signal has arrived, a test reads the
    flag set and no call but [Close] follows it; and a turn begun with
    the flag clear hands its target to the device even if a signal
    arrives in between. *)
Theorem Receive_in_order_until_signal (o : ordering) (sg : arrivals)
    (dmm : D) (argv : list string) (st0 : state D) :
  ParseArguments_in o argv (Program dmm) = (0, st0) ->
  monitor (m_args st0) = false ->
  list_ (m_args st0) = false ->
  0 < item_count (m_args st0) ->
  result (Open dev (serial (m_args st0)) dmm) = true ->
  let targets := items (m_args st0) in
  let t := trace (snd (main_in dev o sg dmm argv)) in
  subseq targets (tl argv) /\
  (exists qs : list Z,
     (List.length qs <= List.length targets)%nat /\
     calls_of t =
       (CallOpen (serial (m_args st0)) true
        :: receive_calls (firstn (List.length qs) targets) qs
        ++ [CallClose])%list /\
     ((List.length qs < List.length targets)%nat -> In Sigint t)) /\
  (forall n q, INT_MIN <= n < 2 ^ 31 ->
     receive_calls [fmt_d n] [q] = [CallReceiveRecord n q]) /\
  (forall pre i q post,
      t = (pre ++ CallReceiveRecord i q :: post)%list ->
      exists p m,
        pre = (p ++ Poll 0 :: m)%list /\ ~ In Sigint p /\ signals_only m /\
        (m = [] -> q = 0) /\ (m <> [] -> q = SIGINT)) /\
  (forall pre q post,
      t = (pre ++ Poll q :: post)%list -> In Sigint pre ->
      q <> 0 /\
      forall e, In e post -> is_call e = true -> e = CallClose) /\
  (forall pre post,
      t = (pre ++ Poll 0 :: post)%list ->
      exists m i q post',
        post = (m ++ CallReceiveRecord i q :: post')%list /\ signals_only m).
Proof.
  intros Hp Hm Hl Hi Er. cbv zeta.
  pose proof (main_in_receive dev o sg dmm argv Hp Hm Hl Hi) as H.
  cbv zeta in H. specialize (H Er).
  set (r := Open dev (serial (m_args st0)) dmm) in *.
  set (q0 := after_call r (after_arrival sg 0)) in *.
  pose proof (receive_run_in_spec dev (items (m_args st0)) (tl sg) q0
                (device r)) as Hrun.
  destruct (receive_run_in dev _ _ _ _) as [[[evs q'] d'] sg'] eqn:Erun.
  destruct H as (_ & Ht & Ho & Hsub).
  destruct Hrun as ((qs & Hlen & _ & Hc & Hs) & HB1 & HB2 & HC & Hall).
  set (t := trace (snd (main_in dev o sg dmm argv))) in *.
  set (A := (trace st0 ++
             init_events_in (debug (m_args st0)) (serial (m_args st0)) sg r ++
             run_line "Program::Run" (debug (m_args st0)) ++
             [Stderr ("Ctrl-C to abort the long operation" ++ nl)])%list) in *.
  set (B := (done_events_in (debug (m_args st0)) sg' (Close dev d') ++
             free_line (m_args st0) (debug (m_args st0)))%list) in *.
  (* what comes before the loop and what comes after it *)
  assert (HA : forall e, In e A ->
            is_output e = true \/
            e = CallOpen (serial (m_args st0)) (result r) \/ e = Sigint).
  { intros e. unfold A. rewrite !in_app_iff. intros [Hin|[Hin|[Hin|Hin]]].
    - rewrite Forall_forall in Ho. left. exact (Ho _ Hin).
    - apply In_init_events_in in Hin.
      destruct Hin as [[text ->]|[->| ->]]; auto.
    - apply In_run_line in Hin. destruct Hin as [-> _]. auto.
    - destruct Hin as [<-|[]]. auto. }
  assert (HAsig : In Sigint A <-> q0 <> 0).
  { unfold A, q0. rewrite <- Sigint_init_events_in.
    rewrite !in_app_iff. split; [|intros Hin; right; left; exact Hin].
    intros [Hin|[Hin|[Hin|Hin]]]; [| exact Hin | |].
    - rewrite Forall_forall in Ho. apply Ho in Hin. discriminate Hin.
    - apply In_run_line in Hin. destruct Hin as [Hin _]. discriminate Hin.
    - destruct Hin as [Hin|[]]. discriminate Hin. }
  assert (HB : forall e, In e B ->
            is_output e = true \/ e = CallClose \/ e = Sigint).
  { intros e. unfold B. rewrite in_app_iff. intros [Hin|Hin].
    - apply In_done_events_in in Hin.
      destruct Hin as [[text ->]|[->| ->]]; auto.
    - apply In_free_line in Hin. destruct Hin as [-> _]. auto. }
  (* where a test or a call of [ReceiveRecord] is in the trace *)
  assert (Hloc : forall x pre post,
            (exists i q, x = CallReceiveRecord i q) \/ (exists q, x = Poll q) ->
            t = (pre ++ x :: post)%list ->
            exists pre' post',
              pre = (A ++ pre')%list /\ post = (post' ++ B)%list /\
              evs = (pre' ++ x :: post')%list).
  { intros x pre post Hx Hsplit. rewrite Ht in Hsplit.
    apply split_after_prefix in Hsplit.
    2:{ intros Hin. apply HA in Hin.
        destruct Hx as [(i & q & ->)|(q & ->)];
          destruct Hin as [Hin|[Hin|Hin]]; discriminate Hin. }
    destruct Hsplit as (pre' & -> & Hsplit).
    apply split_before_suffix in Hsplit.
    2:{ intros Hin. apply HB in Hin.
        destruct Hx as [(i & q & ->)|(q & ->)];
          destruct Hin as [Hin|[Hin|Hin]]; discriminate Hin. }
    destruct Hsplit as (post' & -> & Hevs).
    exists pre', post'. auto. }
  split; [exact Hsub|].
  split; [|split; [|split; [|split]]].
  - exists qs. split; [exact Hlen|]. split.
    + rewrite Ht, !calls_of_app. unfold A, B.
      rewrite !calls_of_app, calls_of_init_events_in, calls_of_run_line,
        calls_of_done_events_in, calls_of_free_line, (calls_of_outputs Ho), Hc.
      fold r. rewrite Er. reflexivity.
    + intros Hlt. rewrite Ht, !in_app_iff.
      destruct (Hs Hlt) as [Hq|Hin]; [|tauto].
      left. apply HAsig. exact Hq.
  - intros n q Hn. unfold receive_calls. cbn [combine map fst snd].
    rewrite (atoi_fmt_d Hn). reflexivity.
  - intros pre i q post Hsplit.
    destruct (Hloc (CallReceiveRecord i q) pre post) as (pre' & post' & -> & -> & Hevs);
      [left; eauto | exact Hsplit |].
    destruct (HB1 _ _ _ _ Hevs) as (Hq0 & p & m & -> & Hp' & Hm' & Hx).
    exists (A ++ p)%list, m. split; [rewrite app_assoc; reflexivity|].
    split; [|split; assumption].
    rewrite in_app_iff. intros [Hin|Hin]; [|exact (Hp' Hin)].
    apply HAsig in Hin. congruence.
  - intros pre q post Hsplit Hsig.
    destruct (Hloc (Poll q) pre post) as (pre' & post' & -> & -> & Hevs);
      [right; eauto | exact Hsplit |].
    assert (Hpre : q0 <> 0 \/ In Sigint pre').
    { rewrite in_app_iff in Hsig. destruct Hsig as [Hin|Hin]; [|auto].
      left. apply HAsig. exact Hin. }
    destruct (HB2 _ _ _ Hevs Hpre) as [Hq ->]. split; [exact Hq|].
    cbn [app]. intros e Hin Hcall. apply HB in Hin.
    destruct Hin as [Hin|[Hin|Hin]]; [|exact Hin|].
    + destruct e; discriminate.
    + subst e. discriminate Hcall.
  - intros pre post Hsplit.
    destruct (Hloc (Poll 0) pre post) as (pre' & post' & -> & -> & Hevs);
      [right; eauto | exact Hsplit |].
    destruct (HC _ _ Hevs) as (m & i & x & post'' & -> & Hm').
    exists m, i, x, (post'' ++ B)%list.
    split; [|exact Hm'].
    rewrite <- app_assoc. reflexivity.
Qed.

(** C3. [Run] selects the mode by the fixed precedence monitor, then
    list, then targets: with [monitor] set it prints the monitor banner
    and its only call of the device is [Monitor], whatever [list] and the
    targets are; otherwise with [list] set its only call is [ListRecord],
    whatever the targets are; [ReceiveRecord] is called only when both
    flags are clear and [item_count] is positive; in the remaining case
    the device is not called. *)
Theorem Run_mode_precedence (st : state D) :
  let a := m_args st in
  let q := quit_flag st in
  exists new,
    trace (snd (Run dev st)) = (trace st ++ new)%list /\
    if monitor a then
      In (Stderr ("Ctrl-C to quit the monitor" ++ nl)) new /\
      calls_of new = [CallMonitor q (result (Monitor dev q (m_dmm st)))] /\
      fst (Run dev st) = (if result (Monitor dev q (m_dmm st)) then 0 else -1)
    else if list_ a then
      In (Stderr ("Ctrl-C to abort if it takes too long" ++ nl)) new /\
      calls_of new = [CallListRecord q] /\
      fst (Run dev st) = 0
    else if 0 <? item_count a then
      In (Stderr ("Ctrl-C to abort the long operation" ++ nl)) new /\
      (exists k, calls_of new = map receive_call (firstn k (targets_read a))) /\
      fst (Run dev st) = 0
    else
      calls_of new = [] /\
      fst (Run dev st) = (if 0 <? g_debug st then 0 else 1).
Proof.
  cbv zeta. rewrite Run_eq. unfold Run_outcome. cbv zeta.
  destruct (monitor (m_args st)); [|destruct (list_ (m_args st));
    [|destruct (0 <? item_count (m_args st))]].
  - unfold advance; cbn [fst snd trace].
    eexists; split; [reflexivity|]. split; [|split; [|reflexivity]].
    + apply in_or_app. right. left. reflexivity.
    + rewrite !calls_of_app, calls_of_run_line, calls_of_sig_mark. reflexivity.
  - unfold advance; cbn [fst snd trace].
    eexists; split; [reflexivity|]. split; [|split; [|reflexivity]].
    + apply in_or_app. right. left. reflexivity.
    + rewrite !calls_of_app, calls_of_run_line, calls_of_sig_mark. reflexivity.
  - pose proof (receive_run_spec dev (targets_read (m_args st))
                  (quit_flag st) (m_dmm st)) as H.
    destruct (receive_run dev _ _ _) as [[evs q'] d'].
    destruct H as (k & _ & Hc & _ & _ & _).
    unfold advance; cbn [fst snd trace].
    eexists; split; [reflexivity|]. split; [|split; [|reflexivity]].
    + apply in_or_app. right. left. reflexivity.
    + exists k. rewrite !calls_of_app, calls_of_run_line, Hc. reflexivity.
  - unfold advance; cbn [fst snd trace].
    eexists; split; [reflexivity|]. split.
    + rewrite !calls_of_app, calls_of_run_line.
      destruct (0 <? g_debug st); reflexivity.
    + reflexivity.
Qed.

(** C4 (amended). When the parse succeeds with no mode flag and no
    target, and [Open] succeeds: at a debug level of 0 or less the help
    text is printed and the status is 1; at a debug level above 0 the
    status is 0 and the help text is printed nowhere in the run, and
    below level 9 nothing at all is printed once the arguments are
    parsed. *)
Theorem Idle_exit_status (dmm : D) (argv : list string) (st0 : state D) :
  ParseArguments argv (Program dmm) = (0, st0) ->
  monitor (m_args st0) = false ->
  list_ (m_args st0) = false ->
  item_count (m_args st0) <= 0 ->
  result (Open dev (serial (m_args st0)) dmm) = true ->
  let g := debug (m_args st0) in
  exists after,
    trace (snd (main dev dmm argv)) = (trace st0 ++ after)%list /\
    (g <= 0 ->
     fst (main dev dmm argv) = 1 /\ In (Stdout help_msg) after) /\
    (0 < g ->
     fst (main dev dmm argv) = 0 /\
     ~ In (Stdout help_msg) (trace (snd (main dev dmm argv))) /\
     (g < 9 -> outputs_of after = [])).
Proof.
  intros Hp Hm Hl Hi Er. cbv zeta.
  destruct (main_idle dev dmm argv Hp Hm Hl Hi) as [Hrc Ht]. cbv zeta in Hrc, Ht.
  rewrite Hrc, Ht, Er. eexists; split; [reflexivity|].
  set (g := debug (m_args st0)).
  split.
  - intros Hg. apply Z.ltb_ge in Hg. rewrite Hg. split; [reflexivity|].
    apply in_or_app. right. apply in_or_app. right. left. reflexivity.
  - intros Hg. assert (Hg' := Hg). apply Z.ltb_lt in Hg'. rewrite Hg'.
    split; [reflexivity|]. split.
    + intros H. apply in_app_or in H. destruct H as [H|H].
      { exact (ParseArguments_ok_no_help _ _ Hp H). }
      apply in_app_or in H. destruct H as [H|H].
      { apply In_init_events in H.
        destruct H as [[text H]|[H|H]]; discriminate H. }
      apply in_app_or in H. destruct H as [H|H].
      { apply In_run_line in H. destruct H as [H _]. discriminate H. }
      cbn [app] in H.
      apply in_app_or in H. destruct H as [H|H].
      { apply In_run_line in H. destruct H as [H _]. discriminate H. }
      cbn [app] in H. destruct H as [H|H]; [discriminate H|].
      apply In_sig_mark in H. destruct H as [H _]. discriminate H.
    + intros H9. unfold init_events, run_line, sig_mark. rewrite Er.
      assert (E9 : (9 <=? g) = false) by (apply Z.leb_gt; exact H9).
      rewrite E9. cbn [app].
      destruct (sigint (Open dev _ dmm)); destruct (sigint (Close dev _));
        reflexivity.
Qed.

(** C5. In a whole run the device is either not called at all, or [Open]
    is called and fails and nothing else is called, or [Open] succeeds,
    the calls of the mode body follow, and [Close] is called once, last.
    So [Close] is called exactly once after a successful [Open], after
    the mode body whatever its outcome, and never after a failed one. *)
Theorem Close_once_after_mode_body (dmm : D) (argv : list string) :
  let t := calls_of (trace (snd (main dev dmm argv))) in
  t = [] \/
  (exists s, t = [CallOpen s false]) \/
  (exists s body,
      t = (CallOpen s true :: body ++ [CallClose])%list /\
      Forall (fun e => is_mode_call e = true) body).
Proof.
  cbv zeta. destruct (main_Main dev dmm argv) as [_ ->].
  rewrite calls_of_app, calls_of_free_line, app_nil_r.
  pose proof (Main_fresh dev dmm argv) as H.
  destruct (ParseArguments argv (Program dmm)) as [rc0 st0].
  cbv zeta in H. destruct H as [-> Ho].
  destruct (rc0 =? 0).
  - destruct (result (Open dev (serial (m_args st0)) dmm)) eqn:Er.
    + right; right.
      match goal with
      | |- context [Run_outcome dev ?s] =>
          destruct (Run_outcome_frame dev s) as (_ & _ & new & Hn & Hf);
          destruct (Run_outcome dev s) as [rc st3]
      end.
      cbn [snd trace] in *. unfold advance. cbn [trace].
      exists (serial (m_args st0)), (calls_of new). split; [|exact Hf].
      rewrite Hn, !calls_of_app, calls_of_run_line, calls_of_sig_mark.
      rewrite calls_of_init_events, Er, (calls_of_outputs Ho).
      reflexivity.
    + right; left. exists (serial (m_args st0)). cbn [snd trace].
      rewrite calls_of_app, calls_of_init_events, Er, (calls_of_outputs Ho).
      reflexivity.
  - left. cbn [snd]. apply calls_of_outputs. exact Ho.
Qed.

(** C6. When the parse succeeds with the serial string [s] and [Open]
    fails, the run ends with status -1, the line naming [s] is written to
    stderr, and the failed [Open] is the only call of the device: no mode
    body runs (and [Close] is not called). *)
Theorem Open_failure_reported (dmm : D) (argv : list string)
    (st0 : state D) (s : string) :
  ParseArguments argv (Program dmm) = (0, st0) ->
  serial (m_args st0) = Some s ->
  result (Open dev (Some s) dmm) = false ->
  fst (main dev dmm argv) = -1 /\
  In (Stderr ("Is the serial string '" ++ s ++ "' correct?" ++ nl))
     (trace (snd (main dev dmm argv))) /\
  calls_of (trace (snd (main dev dmm argv))) = [CallOpen (Some s) false].
Proof.
  intros Hp Hs Hr. destruct (main_Main dev dmm argv) as [-> ->].
  rewrite calls_of_app, calls_of_free_line, app_nil_r.
  pose proof (Main_fresh dev dmm argv) as H.
  rewrite Hp in H. cbv zeta in H. destruct H as [-> Ho].
  rewrite Hs, Hr. cbn [Z.eqb fst snd trace].
  split; [reflexivity|]. split.
  - apply in_or_app. left.
    apply in_or_app. right. unfold init_events. rewrite Hr.
    apply in_or_app. right. cbn [app]. right.
    apply in_or_app. right. right. left. reflexivity.
  - rewrite calls_of_app, calls_of_init_events, Hr, (calls_of_outputs Ho).
    reflexivity.
Qed.

(** C7 (amended). A target in which [atoi] finds no number (no digit
    after optional white space and an optional sign) is received as
    record 0, and the run goes on: without a signal, every target before
    and after it is received too, each under the value [atoi] gives it,
    and the status is 0. *)
Theorem Malformed_target_resolves_to_zero (dmm : D) (argv : list string)
    (st0 : state D) (pre post : list string) (t : string) :
  ParseArguments argv (Program dmm) = (0, st0) ->
  monitor (m_args st0) = false ->
  list_ (m_args st0) = false ->
  items (m_args st0) = (pre ++ t :: post)%list ->
  result (Open dev (serial (m_args st0)) dmm) = true ->
  sigint (Open dev (serial (m_args st0)) dmm) = false ->
  (forall i q d, sigint (ReceiveRecord dev i q d) = false) ->
  starts_with_number t = false ->
  atoi t = 0 /\
  fst (main dev dmm argv) = 0 /\
  calls_of (trace (snd (main dev dmm argv))) =
    (CallOpen (serial (m_args st0)) true
     :: map receive_call pre ++ CallReceiveRecord 0 0
     :: map receive_call post ++ [CallClose])%list.
Proof.
  intros Hp Hm Hl Hit Er Hs Hquiet Ht.
  pose proof (atoi_no_number t Ht) as Ha. split; [exact Ha|].
  destruct (@ParseArguments_items D argv _ _ Hp eq_refl) as (_ & Hsub & Hcount).
  assert (Hne : argv <> []).
  { intros ->. rewrite Hit in Hsub. cbn in Hsub.
    destruct pre; inversion Hsub. }
  specialize (Hcount Hne).
  assert (Hi : 0 < item_count (m_args st0)).
  { rewrite Hcount, Hit, length_app. cbn [List.length]. lia. }
  pose proof (main_receive dev dmm argv Hp Hm Hl Hi) as H. cbv zeta in H.
  specialize (H Er).
  unfold after_call in H. rewrite Hs in H.
  pose proof (receive_run_quiet dev (items (m_args st0)) Hquiet
                (device (Open dev (serial (m_args st0)) dmm))) as Hrun.
  destruct (receive_run dev _ _ _) as [[evs q'] d']. cbn [fst] in Hrun.
  destruct H as (Hrc & Htr & Ho & _).
  split; [exact Hrc|].
  rewrite Htr, !calls_of_app, calls_of_init_events, !calls_of_run_line,
    calls_of_sig_mark, calls_of_free_line, (calls_of_outputs Ho), Er, Hrun,
    Hit, map_app.
  cbn [map]. unfold receive_call at 2. rewrite Ha.
  assert (Hcalls : forall l, calls_of (map receive_call l) = map receive_call l).
  { induction l as [|x l IH]; [reflexivity|].
    cbn [map]. unfold calls_of in *. cbn [filter receive_call is_call].
    rewrite IH. reflexivity. }
  rewrite calls_of_app. cbn [calls_of filter is_call].
  fold (calls_of (map receive_call post)). rewrite !Hcalls.
  cbn [app]. rewrite <- app_assoc. reflexivity.
Qed.

(** C8 (evaluation at the failing input). [--monitor] and [--list] are
    entered in [long_options] with [required_argument]: given as the last
    element they make [getopt_long] report a missing argument, the help
    text is printed and the status is -1, with the [monitor] and [list]
    members left clear and the device never called; given before another
    element they take that element as their argument.  [-m] and [-l] take
    no argument and set the members. *)
Theorem Long_monitor_needs_an_argument (dmm : D) (prog x : string) :
  main dev dmm [prog; "--monitor"] =
    (-1, {| m_dmm := dmm; m_args := m_args (Program dmm);
            quit_flag := 0; g_debug := 0;
            trace := [GetoptStderr (MissingArgLong "monitor");
                      Stdout help_msg] |}) /\
  main dev dmm [prog; "--list"] =
    (-1, {| m_dmm := dmm; m_args := m_args (Program dmm);
            quit_flag := 0; g_debug := 0;
            trace := [GetoptStderr (MissingArgLong "list");
                      Stdout help_msg] |}) /\
  ParseArguments [prog; "--monitor"; x] (Program dmm) =
    (0, {| m_dmm := dmm;
           m_args := {| list_ := false; monitor := true; debug := 0;
                        serial := None; item_count := 0; items := [] |};
           quit_flag := 0; g_debug := 0; trace := [] |}) /\
  ParseArguments [prog; "-m"] (Program dmm) =
    (0, {| m_dmm := dmm;
           m_args := {| list_ := false; monitor := true; debug := 0;
                        serial := None; item_count := 0; items := [] |};
           quit_flag := 0; g_debug := 0; trace := [] |}) /\
  ParseArguments [prog; "-l"] (Program dmm) =
    (0, {| m_dmm := dmm;
           m_args := {| list_ := true; monitor := false; debug := 0;
                        serial := None; item_count := 0; items := [] |};
           quit_flag := 0; g_debug := 0; trace := [] |}).
Proof. repeat split. Qed.

(** C9. [ParseArguments] returns 1 or 2 only on a help or version flag,
    right after printing the help or version text.  When it does, the
    elements after the flag play no part: whatever is added at the end
    of the command line, the whole run is the same, with the same status;
    [getopt_long] reports nothing, no element becomes a target, and the
    device is not called. *)
Theorem Help_version_end_the_scan (dmm : D) (argv post : list string) :
  let rc := fst (ParseArguments argv (Program dmm)) in
  rc = 1 \/ rc = 2 ->
  let run := main dev dmm (argv ++ post) in
  let parsed := snd (ParseArguments (argv ++ post) (Program dmm)) in
  run = main dev dmm argv /\
  fst run = rc /\
  items (m_args parsed) = [] /\
  item_count (m_args parsed) = 0 /\
  calls_of (trace (snd run)) = [] /\
  (forall e, ~ In (GetoptStderr e) (trace (snd run))) /\
  (exists out,
      trace (snd run) =
        (out ++ [Stdout (if rc =? 1 then help_msg else version_info ++ nl)])%list).
Proof.
  cbv zeta. intros Hrc.
  destruct (ParseArguments argv (Program dmm)) as [rc st'] eqn:Ep.
  cbn [fst] in *.
  pose proof (@ParseArguments_longer D argv post _ _ _ Ep Hrc) as Ep'.
  assert (Hne : forall a, fst (ParseArguments a (Program dmm)) = rc ->
                          fst (ParseArguments a (Program dmm)) <> 0)
    by (intros a ->; destruct Hrc; subst rc; discriminate).
  assert (HM : Main dev argv (Program dmm) = (rc, st'))
    by (rewrite Main_parse_only; [exact Ep | apply Hne; rewrite Ep; reflexivity]).
  assert (HM' : Main dev (argv ++ post) (Program dmm) = (rc, st'))
    by (rewrite Main_parse_only; [exact Ep' | apply Hne; rewrite Ep'; reflexivity]).
  (* what the parse left *)
  assert (Hst : items (m_args st') = [] /\ item_count (m_args st') = 0 /\
                exists out,
                  trace st' =
                    (out ++ [Stdout (if rc =? 1 then help_msg
                                     else version_info ++ nl)])%list /\
                  Forall (fun e => exists text, e = Stdout text) out).
  { revert Ep. unfold ParseArguments. monad.
    pose proof (ParseArguments_loop_prints (argc_of argv)
                  (S (getopt_measure (getopt_start argv)))
                  (getopt_start argv) (Program dmm)) as (_ & Hi & Hc).
    pose proof (@ParseArguments_loop_stdout D (argc_of argv)
                  (S (getopt_measure (getopt_start argv)))
                  (getopt_start argv) (Program dmm)) as Hout.
    destruct (ParseArguments_loop _ _ _ (Program dmm)) as [[d|rc0|] st1].
    - repeat (monad; match goal with
                     | |- context [if ?x then _ else _] => destruct x
                     end);
      monad; intros H; inversion H; subst; destruct Hrc; discriminate.
    - intros H; inversion H; subst rc0 st1. cbn [snd] in Hi, Hc.
      split; [exact Hi|]. split; [exact Hc|].
      destruct (Hout rc st' eq_refl Hrc) as (out & Ht & Ho).
      exists out. split; [exact Ht | exact Ho].
    - intros H; inversion H; subst. destruct Hrc; discriminate. }
  destruct Hst as (Hit & Hic & out & Ht & Hout).
  split.
  { unfold main. monad. rewrite HM, HM'. reflexivity. }
  destruct (main_Main dev dmm (argv ++ post)) as [-> ->].
  rewrite HM', Ep'. unfold free_line. cbn [fst snd].
  rewrite Hit, app_nil_r, Ht.
  split; [reflexivity|]. split; [reflexivity|]. split; [exact Hic|].
  split; [|split].
  - rewrite calls_of_app, (calls_of_stdout Hout). reflexivity.
  - intros e He. apply in_app_or in He. destruct He as [He|[He|[]]].
    + rewrite Forall_forall in Hout.
      destruct (Hout _ He) as [text Hx]. discriminate Hx.
    + discriminate He.
  - exists out. reflexivity.
Qed.

(** C10. When no mode is selected the session is still opened first:
    if [Open] succeeds the only calls are [Open] and [Close], the status
    is 0 or 1 by the debug level, and the help text of the fallback comes
    after the [Open] and before the [Close]; if [Open] fails the status
    is -1, neither 1 nor 0, the help text is printed nowhere in the run
    and the failed [Open] is the only call. *)
Theorem Idle_opens_session_first (dmm : D) (argv : list string)
    (st0 : state D) :
  ParseArguments argv (Program dmm) = (0, st0) ->
  monitor (m_args st0) = false ->
  list_ (m_args st0) = false ->
  item_count (m_args st0) <= 0 ->
  let a := m_args st0 in
  let r := Open dev (serial a) dmm in
  exists after,
    trace (snd (main dev dmm argv)) = (trace st0 ++ after)%list /\
    if result r then
      calls_of after = [CallOpen (serial a) true; CallClose] /\
      fst (main dev dmm argv) = (if 0 <? debug a then 0 else 1) /\
      (debug a <= 0 ->
       exists pre post,
         after = (pre ++ Stdout help_msg :: post)%list /\
         In (CallOpen (serial a) true) pre /\ In CallClose post)
    else
      calls_of after = [CallOpen (serial a) false] /\
      fst (main dev dmm argv) = -1 /\
      ~ In (Stdout help_msg) (trace (snd (main dev dmm argv))).
Proof.
  intros Hp Hm Hl Hi. cbv zeta.
  destruct (main_idle dev dmm argv Hp Hm Hl Hi) as [Hrc Ht]. cbv zeta in Hrc, Ht.
  rewrite Hrc, Ht. eexists; split; [reflexivity|].
  destruct (result (Open dev (serial (m_args st0)) dmm)) eqn:Er.
  - split; [|split; [reflexivity|]].
    + rewrite !calls_of_app, calls_of_init_events, !calls_of_run_line,
        calls_of_sig_mark, Er.
      destruct (0 <? debug (m_args st0)); reflexivity.
    + intros Hg. apply Z.ltb_ge in Hg. rewrite Hg.
      exists (init_events (debug (m_args st0)) (serial (m_args st0))
                (Open dev (serial (m_args st0)) dmm)
              ++ run_line "Program::Run" (debug (m_args st0)))%list.
      eexists. split; [rewrite <- app_assoc; reflexivity|]. split.
      * apply in_or_app. left. unfold init_events.
        apply in_or_app. right. rewrite Er. left. reflexivity.
      * apply in_or_app. right. left. reflexivity.
  - rewrite app_nil_r. split; [|split; [reflexivity|]].
    + rewrite calls_of_init_events, Er. reflexivity.
    + intros H. apply in_app_or in H. destruct H as [H|H].
      { exact (ParseArguments_ok_no_help _ _ Hp H). }
      apply In_init_events in H.
      destruct H as [[text H]|[H|H]]; discriminate H.
Qed.

End Properties.

(* ===================================================================== *)
(** ** Further properties                                                *)
(* ===================================================================== *)

Section MoreProperties.
Variable D : Type.
Variable dev : Device D.

(** X1. The exit status is 0, 1, 2 or -1.  It is 2 only when the version
    line was the last thing written and the device was never called, and
    1 only when the help text was printed. *)
Theorem Exit_status_meaning (dmm : D) (argv : list string) :
  let rc := fst (main dev dmm argv) in
  let t := trace (snd (main dev dmm argv)) in
  In rc [0; 1; 2; -1] /\
  (rc = 2 ->
   (exists out, t = (out ++ [Stdout (version_info ++ nl)])%list) /\
   calls_of t = []) /\
  (rc = 1 -> In (Stdout help_msg) t).
Proof.
  cbv zeta.
  pose proof (ParseArguments_rc argv (Program dmm)) as Hrc0.
  destruct (ParseArguments argv (Program dmm)) as [rc0 st0] eqn:Ep.
  cbn [fst In] in Hrc0.
  assert (Hstop : rc0 = 1 \/ rc0 = 2 ->
            main dev dmm argv = (rc0, st0) /\
            exists out,
              trace st0 = (out ++ [Stdout (if rc0 =? 1 then help_msg
                                           else version_info ++ nl)])%list /\
              Forall (fun e => exists text, e = Stdout text) out).
  { intros H. split.
    - rewrite main_parse_only; [exact Ep|].
      rewrite Ep. cbn [fst]. destruct H; subst; discriminate.
    - destruct (ParseArguments_stdout _ _ Ep H) as (out & Ht & Ho).
      exists out. split; [exact Ht | exact Ho]. }
  destruct Hrc0 as [H|[H|[H|[H|[]]]]]; subst rc0.
  - destruct (main_parsed dev dmm argv Ep)
      as (body & c & Ht & Hb & Hrc & Hone & Hfail).
    cbv zeta in Ht, Hfail. split.
    + cbn [In] in *. tauto.
    + split.
      * intros E. rewrite E in Hrc. cbn in Hrc.
        destruct Hrc as [H|[H|[H|[]]]]; discriminate H.
      * intros E. specialize (Hone E). rewrite Ht.
        destruct (result (Open dev (serial (m_args st0)) dmm)).
        -- rewrite !in_app_iff. right. right. left. right. left. exact Hone.
        -- rewrite (Hfail eq_refl) in E. discriminate E.
  - destruct (Hstop (or_introl eq_refl)) as (-> & out & Ht & Ho).
    cbn [fst snd Z.eqb] in *. rewrite Ht.
    split; [cbn; tauto|]. split; [discriminate|].
    intros _. apply in_or_app. right. left. reflexivity.
  - destruct (Hstop (or_intror eq_refl)) as (-> & out & Ht & Ho).
    cbn [fst snd Z.eqb] in *. rewrite Ht.
    split; [cbn; tauto|]. split; [|discriminate].
    intros _. split; [exists out; reflexivity|].
    rewrite calls_of_app, (calls_of_stdout Ho). reflexivity.
  - rewrite main_parse_only by (rewrite Ep; discriminate).
    rewrite Ep. cbn [fst]. split; [cbn; tauto|].
    split; discriminate.
Qed.

(** X2. The device is called only after a successful parse, whatever the
    ordering and the signals.  When [ParseArguments] returns non-zero the
    whole run is the parse: its value is the exit status, the device is
    never called and is left as it was, [quit_flag] and [g_debug] stay 0
    (a [-d] seen before the help, version or invalid option has no effect
    on [g_debug]).  When it returns 0 the first call of the device is
    [Open], with the serial string the parse left in [m_args]. *)
Theorem Parse_gates_the_device (o : ordering) (sg : arrivals) (dmm : D)
    (argv : list string) :
  let p := ParseArguments_in o argv (Program dmm) in
  (fst p <> 0 ->
   main_in dev o sg dmm argv = p /\
   calls_of (trace (snd p)) = [] /\
   m_dmm (snd p) = dmm /\ quit_flag (snd p) = 0 /\ g_debug (snd p) = 0) /\
  (fst p = 0 ->
   exists rest,
     calls_of (trace (snd (main_in dev o sg dmm argv))) =
     CallOpen (serial (m_args (snd p)))
       (result (Open dev (serial (m_args (snd p))) dmm)) :: rest).
Proof.
  cbv zeta.
  pose proof (ParseArguments_in_prints o argv (Program dmm))
    as (Hd & Hq & Hg & out & Ht & Ho).
  cbn [Program m_dmm quit_flag g_debug trace app] in *.
  split.
  - intros H. split; [apply main_in_is_parse; exact H|].
    rewrite Ht. split; [apply calls_of_outputs; exact Ho | auto].
  - intros H.
    destruct (ParseArguments_in o argv (Program dmm)) as [rc0 st0] eqn:Ep.
    cbn [fst snd] in *. subst rc0.
    exact (proj2 (main_in_after_parse dev o sg dmm argv Ep)).
Qed.

(** X3. Whatever the ordering and the signals: the device is called, and
    [Open] is the first call, exactly when the options of the command
    line end before a help, version or invalid option is met. *)
Theorem Device_opened_exactly_when_nothing_decides (o : ordering)
    (sg : arrivals) (dmm : D) (prog : string) (l : list string) :
  let t := trace (snd (main_in dev o sg dmm (prog :: l))) in
  (first_decisive o l = None <-> calls_of t <> []) /\
  (first_decisive o l = None ->
   exists s ok rest, calls_of t = CallOpen s ok :: rest).
Proof.
  cbv zeta.
  pose proof (ParseArguments_in_reading o prog l (Program dmm)) as Hr.
  assert (Hn : first_decisive o l = None ->
               exists s ok rest,
                 calls_of (trace (snd (main_in dev o sg dmm (prog :: l))))
                 = CallOpen s ok :: rest).
  { intros Hx. rewrite Hx in Hr. cbn [status_of] in Hr.
    destruct (ParseArguments_in o (prog :: l) (Program dmm)) as [rc st0] eqn:Ep.
    cbn [fst] in Hr. subst rc.
    destruct (main_in_after_parse dev o sg dmm (prog :: l) Ep)
      as [_ (rest & Hc)].
    eauto. }
  split; [split|exact Hn].
  - intros Hx. destruct (Hn Hx) as (s & ok & rest & ->). discriminate.
  - intros Hc.
    destruct (first_decisive o l) as [x|] eqn:Ex; [|reflexivity].
    exfalso. apply Hc.
    destruct (main_in_parse_only dev o sg dmm (prog :: l)) as (_ & _ & Hc').
    { rewrite Hr. destruct x; discriminate. }
    exact Hc'.
Qed.

(** X4. Whatever the ordering of [getopt_long] and the [arrivals] of
    SIGINT: the exit status is 2 exactly when, in the reading of the
    command line from left to right, the first option that is help,
    version or invalid is a version option; the device is then never
    called and the version line is the last thing written. *)
Theorem Version_exactly_when_first_decisive (o : ordering) (sg : arrivals)
    (dmm : D) (prog : string) (l : list string) :
  let run := main_in dev o sg dmm (prog :: l) in
  (first_decisive o l = Some IsVersion <-> fst run = 2) /\
  (first_decisive o l = Some IsVersion ->
   calls_of (trace (snd run)) = [] /\
   exists out, trace (snd run) = (out ++ [Stdout (version_info ++ nl)])%list).
Proof.
  cbv zeta.
  pose proof (ParseArguments_in_reading o prog l (Program dmm)) as Hr.
  assert (Hv : first_decisive o l = Some IsVersion ->
               fst (main_in dev o sg dmm (prog :: l)) = 2 /\
               calls_of (trace (snd (main_in dev o sg dmm (prog :: l)))) = [] /\
               exists out,
                 trace (snd (main_in dev o sg dmm (prog :: l)))
                 = (out ++ [Stdout (version_info ++ nl)])%list).
  { intros Hx. rewrite Hx in Hr. cbn [status_of] in Hr.
    destruct (main_in_parse_only dev o sg dmm (prog :: l)) as (Hs & Ht & Hc).
    { rewrite Hr. discriminate. }
    rewrite Hs, Hr. split; [reflexivity|]. split; [exact Hc|].
    rewrite Ht.
    destruct (ParseArguments_in o (prog :: l) (Program dmm)) as [rc st'] eqn:Ep.
    cbn [fst] in Hr. subst rc.
    destruct (ParseArguments_in_version _ _ _ Ep) as (out & Hout).
    cbn [snd]. rewrite Hout. exists out. reflexivity. }
  split; [split|].
  - intros Hx. apply Hv. exact Hx.
  - intros Hs.
    destruct (first_decisive o l) as [[| |]|] eqn:Ex; cbn [status_of] in Hr.
    + destruct (main_in_parse_only dev o sg dmm (prog :: l)) as (Hs' & _);
        [rewrite Hr; discriminate|].
      rewrite Hs', Hr in Hs. discriminate Hs.
    + reflexivity.
    + destruct (main_in_parse_only dev o sg dmm (prog :: l)) as (Hs' & _);
        [rewrite Hr; discriminate|].
      rewrite Hs', Hr in Hs. discriminate Hs.
    + destruct (ParseArguments_in o (prog :: l) (Program dmm))
        as [rc st0] eqn:Ep.
      cbn [fst] in Hr. subst rc.
      destruct (main_in_after_parse dev o sg dmm (prog :: l) Ep) as [Hin _].
      rewrite Hs in Hin. cbn [In] in Hin.
      destruct Hin as [H|[H|[H|[]]]]; discriminate H.
  - intros Hx. destruct (Hv Hx) as (_ & Hc & Hout). auto.
Qed.

(** X5. Whatever the ordering and the signals: the program exits with
    status -1 without calling the device exactly when, in the reading of
    the command line from left to right, the first option that is help,
    version or invalid is an invalid one (an option that is not in the
    tables, or that lacks its argument, or a long option given a value it
    does not take); the help text is then the last thing written. *)
Theorem Invalid_exactly_when_first_decisive (o : ordering) (sg : arrivals)
    (dmm : D) (prog : string) (l : list string) :
  let run := main_in dev o sg dmm (prog :: l) in
  (first_decisive o l = Some IsInvalid <->
   fst run = -1 /\ calls_of (trace (snd run)) = []) /\
  (first_decisive o l = Some IsInvalid ->
   exists out, trace (snd run) = (out ++ [Stdout help_msg])%list).
Proof.
  cbv zeta.
  pose proof (ParseArguments_in_reading o prog l (Program dmm)) as Hr.
  split; [split|].
  - intros Hx. rewrite Hx in Hr. cbn [status_of] in Hr.
    destruct (main_in_parse_only dev o sg dmm (prog :: l)) as (Hs & _ & Hc).
    { rewrite Hr. discriminate. }
    rewrite Hs, Hr. auto.
  - intros [Hs Hc].
    destruct (first_decisive o l) as [[| |]|] eqn:Ex; cbn [status_of] in Hr.
    + destruct (main_in_parse_only dev o sg dmm (prog :: l)) as (Hs' & _);
        [rewrite Hr; discriminate|].
      rewrite Hs', Hr in Hs. discriminate Hs.
    + destruct (main_in_parse_only dev o sg dmm (prog :: l)) as (Hs' & _);
        [rewrite Hr; discriminate|].
      rewrite Hs', Hr in Hs. discriminate Hs.
    + reflexivity.
    + destruct (main_in_parse_ok dev o sg dmm (prog :: l) Hr)
        as (s & ok & Hin).
      assert (Hin' : In (CallOpen s ok)
                       (calls_of (trace (snd (main_in dev o sg dmm (prog :: l))))))
        by (apply filter_In; split; [exact Hin | reflexivity]).
      rewrite Hc in Hin'. contradiction.
  - intros Hx. rewrite Hx in Hr. cbn [status_of] in Hr.
    destruct (main_in_parse_only dev o sg dmm (prog :: l)) as (_ & Ht & _).
    { rewrite Hr. discriminate. }
    rewrite Ht.
    destruct (ParseArguments_in o (prog :: l) (Program dmm)) as [rc st'] eqn:Ep.
    cbn [fst] in Hr. subst rc.
    destruct (ParseArguments_in_invalid _ _ _ Ep) as (out & Hout).
    cbn [snd]. rewrite Hout. exists out. reflexivity.
Qed.

(** X6. When the parse fails (status -1), whatever the ordering and the
    signals, [getopt_long] has written exactly one diagnostic to stderr,
    the help text follows it at once and ends the output; everything
    written before is on stdout; the exit status is -1 and the device is
    never called. *)
Theorem Parse_error_reported (o : ordering) (sg : arrivals) (dmm : D)
    (argv : list string) :
  fst (ParseArguments_in o argv (Program dmm)) = -1 ->
  exists out e,
    trace (snd (main_in dev o sg dmm argv)) =
      (out ++ [GetoptStderr e; Stdout help_msg])%list /\
    Forall (fun x => exists text, x = Stdout text) out /\
    fst (main_in dev o sg dmm argv) = -1 /\
    calls_of (trace (snd (main_in dev o sg dmm argv))) = [].
Proof.
  intros H.
  rewrite main_in_is_parse by (rewrite H; discriminate).
  destruct (ParseArguments_in o argv (Program dmm)) as [rc0 st0] eqn:Ep.
  cbn [fst snd] in *. subst rc0.
  destruct (ParseArguments_in_error _ _ _ Ep) as (out & e & Ht & Ho).
  cbn [Program trace app] in Ht.
  exists out, e. split; [exact Ht|]. split; [exact Ho|].
  split; [reflexivity|].
  rewrite Ht, calls_of_app, (calls_of_stdout Ho). reflexivity.
Qed.

(** X7. [getopt_long] writes a diagnostic in a run if and only if the
    parse returns -1, whatever the ordering and the signals. *)
Theorem Diagnostic_iff_parse_error (o : ordering) (sg : arrivals) (dmm : D)
    (argv : list string) :
  (exists e, In (GetoptStderr e) (trace (snd (main_in dev o sg dmm argv)))) <->
  fst (ParseArguments_in o argv (Program dmm)) = -1.
Proof.
  split.
  - intros [e He].
    pose proof (ParseArguments_in_rc o argv (Program dmm)) as Hrc0.
    destruct (ParseArguments_in o argv (Program dmm)) as [rc0 st0] eqn:Ep.
    cbn [fst In] in *.
    destruct Hrc0 as [H|[H|[H|[H|[]]]]]; subst rc0; [| | |reflexivity];
      exfalso.
    + destruct (main_in_parsed dev o sg dmm argv Ep)
        as (body & sg' & c & Ht & Hb & _).
      cbv zeta in Ht. rewrite Ht in He.
      destruct (ParseArguments_in_ok_output _ _ _ Ep) as (out & Hout & Ho).
      cbn [Program trace app] in Hout. rewrite Hout in He.
      rewrite Forall_forall in Ho, Hb.
      rewrite !in_app_iff in He.
      destruct He as [He|[He|[He|He]]].
      * destruct (Ho _ He) as (text & Hx & _). discriminate Hx.
      * apply In_init_events_in in He.
        destruct He as [[text Hx]|[Hx|Hx]]; discriminate Hx.
      * destruct (result _); [|contradiction].
        rewrite !in_app_iff in He.
        destruct He as [He|[He|He]].
        -- apply In_run_line in He. destruct He as [Hx _]. discriminate Hx.
        -- destruct (Hb _ He) as [[Hx|[Hx|[Hx|[Hx|[Hx|Hx]]]]]|[q Hx]];
             discriminate Hx.
        -- apply In_done_events_in in He.
           destruct He as [[text Hx]|[Hx|Hx]]; discriminate Hx.
      * apply In_free_line in He. destruct He as [Hx _]. discriminate Hx.
    + rewrite main_in_is_parse in He by (rewrite Ep; discriminate).
      rewrite Ep in He. cbn [snd] in He.
      destruct (ParseArguments_in_stdout _ _ _ Ep (or_introl eq_refl))
        as (out & Ht & Ho).
      cbn [Program trace app] in Ht. rewrite Ht, in_app_iff in He.
      rewrite Forall_forall in Ho.
      destruct He as [He|[He|[]]]; [|discriminate He].
      destruct (Ho _ He) as (text & Hx). discriminate Hx.
    + rewrite main_in_is_parse in He by (rewrite Ep; discriminate).
      rewrite Ep in He. cbn [snd] in He.
      destruct (ParseArguments_in_stdout _ _ _ Ep (or_intror eq_refl))
        as (out & Ht & Ho).
      cbn [Program trace app] in Ht. rewrite Ht, in_app_iff in He.
      rewrite Forall_forall in Ho.
      destruct He as [He|[He|[]]]; [|discriminate He].
      destruct (Ho _ He) as (text & Hx). discriminate Hx.
  - intros H.
    rewrite main_in_is_parse by (rewrite H; discriminate).
    destruct (ParseArguments_in o argv (Program dmm)) as [rc0 st0] eqn:Ep.
    cbn [fst snd] in *. subst rc0.
    destruct (ParseArguments_in_error _ _ _ Ep) as (out & e & Ht & _).
    exists e. rewrite Ht, !in_app_iff. right. right. left. reflexivity.
Qed.

(** X8. Everything [ParseArguments] writes, under either ordering, is a
    diagnostic of [getopt_long], the help text, the version line, the
    echo of a debug level of 9 or more, or the count of the positional
    arguments.  The three pieces printed by [case 0] are never written:
    with the tables of the program [getopt_long] never returns 0 (nor a
    value handled by [default]). *)
Theorem Parse_output_inventory (o : ordering) (argv : list string)
    (st : state D) :
  exists out,
    trace (snd (ParseArguments_in o argv st)) = (trace st ++ out)%list /\
    Forall parse_output out /\
    (forall text,
        ~ In (Stdout ("option " ++ text)) out /\
        ~ In (Stdout (" with arg " ++ text)) out) /\
    ~ In (Stdout nl) out.
Proof.
  destruct (ParseArguments_in_inventory o argv st) as (out & Ht & Ho).
  exists out. split; [exact Ht|]. split; [exact Ho|].
  rewrite Forall_forall in Ho.
  split; [intros text; split|]; intros Hin;
    (destruct (Ho _ Hin) as [[g H]|[H|[H|[(n & _ & H)|[n H]]]]];
     try discriminate H;
     unfold help_msg, version_info in H; cbn in H; discriminate H).
Qed.

(** X9. When [POSIXLY_CORRECT] is set the first positional argument ends
    the options: a command line that starts with one is all targets,
    whatever follows it, options and ["--"] included; no member is set
    and nothing is written. *)
Theorem Posix_first_positional_ends_the_options (dmm : D) (prog x : string)
    (l : list string) :
  NONOPTION_P x = true ->
  ParseArguments_in REQUIRE_ORDER (prog :: x :: l) (Program dmm) =
  (0, {| m_dmm := dmm;
         m_args := {| list_ := false; monitor := false; debug := 0;
                      serial := None;
                      item_count := Z.of_nat (S (List.length l));
                      items := x :: l |};
         quit_flag := 0; g_debug := 0; trace := [] |}).
Proof.
  intros Hx. unfold ParseArguments_in. cbv zeta. unfold bind at 1.
  rewrite ParseArguments_loop_in_step. cbv zeta.
  assert (Hd : String.eqb x "--" = false).
  { destruct (String.eqb x "--") eqn:E; [|reflexivity].
    apply String.eqb_eq in E. subst x. discriminate Hx. }
  assert (Hg : getopt_long_in REQUIRE_ORDER (argc_of (prog :: x :: l))
                 short_options long_options (getopt_start (prog :: x :: l)) =
               {| code := -1; longind := None; printed := [];
                  data := {| optind := 1; nonopts := []; rest := x :: l;
                             nextchar := ""; optarg := None;
                             flag_cells := [] |} |}).
  { unfold getopt_long_in, getopt_start, argc_of.
    replace (Z.of_nat (List.length (prog :: x :: l)) <? 1) with false
      by (symmetry; apply Z.ltb_ge; cbn [List.length]; lia).
    cbn [nextchar rest tl optind nonopts flag_cells app]. rewrite Hd, Hx.
    reflexivity. }
  rewrite Hg. cbn [code printed data map].
  change (-1 =? -1) with true. cbv iota. unfold Program. monad.
  unfold argc_of. cbn [optind nonopts rest app List.length].
  replace (Z.of_nat (S (S (List.length l))) - 1)
    with (Z.of_nat (S (List.length l))) by lia.
  replace (0 <? Z.of_nat (S (List.length l))) with true
    by (symmetry; apply Z.ltb_lt; lia).
  change (9 <=? 0) with false. cbv iota. monad. reflexivity.
Qed.

(** X10. After a successful parse, under either ordering, [items] holds
    exactly [item_count] strings when [item_count] is positive and none
    otherwise, so the loop of [Run] reads [items[0 .. item_count)] inside
    the array; every target is an element of the command line after
    [argv[0]]; and [item_count] is between 0 and [argc - 1], except on an
    empty [argv], where it is -1 and nothing is allocated. *)
Theorem Targets_array_in_bounds (o : ordering) (dmm : D)
    (argv : list string) (st0 : state D) :
  ParseArguments_in o argv (Program dmm) = (0, st0) ->
  let a := m_args st0 in
  List.length (items a) = Z.to_nat (item_count a) /\
  targets_read a = items a /\
  (forall t, In t (items a) -> In t (tl argv)) /\
  (argv <> [] ->
   item_count a = Z.of_nat (List.length (items a)) /\
   0 <= item_count a < argc_of argv) /\
  (argv = [] -> item_count a = -1 /\ items a = []).
Proof.
  intros Hp. cbv zeta.
  destruct (@ParseArguments_in_items D o argv _ _ Hp eq_refl)
    as (Hlen & Hsub & Hcount).
  split; [exact Hlen|]. split; [apply targets_read_items; exact Hlen|].
  split; [intros t; apply subseq_In; exact Hsub|]. split.
  - intros Hne. specialize (Hcount Hne). split; [exact Hcount|].
    apply subseq_length in Hsub. unfold argc_of.
    destruct argv as [|a0 argv]; [congruence|].
    cbn [tl List.length] in *. lia.
  - intros ->. destruct o; cbv in Hp; inversion Hp; subst st0;
      split; reflexivity.
Qed.

(** X11. In Monitor mode, whatever the ordering, the signals, the [list]
    member and the targets: once [Open] has succeeded the device is
    called three times, [Open], [Monitor] and [Close]; the banner is
    written to stderr; the exit status is 0 when [Monitor] returned true
    and -1 when it returned false; and [Monitor] is handed the flag set
    exactly when a SIGINT arrived before it was entered. *)
Theorem Monitor_run (o : ordering) (sg : arrivals) (dmm : D)
    (argv : list string) (st0 : state D) :
  ParseArguments_in o argv (Program dmm) = (0, st0) ->
  monitor (m_args st0) = true ->
  let a := m_args st0 in
  result (Open dev (serial a) dmm) = true ->
  let t := trace (snd (main_in dev o sg dmm argv)) in
  exists q ok,
    fst (main_in dev o sg dmm argv) = (if ok : bool then 0 else -1) /\
    calls_of t = [CallOpen (serial a) true; CallMonitor q ok; CallClose] /\
    In (Stderr ("Ctrl-C to quit the monitor" ++ nl)) t /\
    (q = 0 \/ q = SIGINT) /\
    (forall pre post,
        t = (pre ++ CallMonitor q ok :: post)%list ->
        (q = SIGINT <-> In Sigint pre)).
Proof.
  intros Hp Hm. cbv zeta. intros Er.
  pose proof (main_in_monitor dev o sg dmm argv Hp Hm) as H.
  cbv zeta in H. specialize (H Er). destruct H as (Hs & Ht & Ho).
  set (r := Open dev (serial (m_args st0)) dmm) in *.
  set (q0 := after_call r (after_arrival sg 0)) in *.
  set (q := after_arrival (tl sg) q0) in *.
  set (m := Monitor dev q (device r)) in *.
  exists q, (result m).
  split; [exact Hs|].
  set (t := trace (snd (main_in dev o sg dmm argv))) in *.
  set (A := (trace st0 ++
             init_events_in (debug (m_args st0)) (serial (m_args st0)) sg r ++
             run_line "Program::Run" (debug (m_args st0)) ++
             [Stderr ("Ctrl-C to quit the monitor" ++ nl)] ++
             arrival_mark (tl sg))%list).
  set (B := (sig_mark m ++
             done_events_in (debug (m_args st0)) (tl (tl sg))
               (Close dev (device m)) ++
             free_line (m_args st0) (debug (m_args st0)))%list).
  assert (HtA : t = (A ++ CallMonitor q (result m) :: B)%list).
  { rewrite Ht. unfold A, B. rewrite <- !app_assoc. reflexivity. }
  assert (Hno : ~ In (CallMonitor q (result m)) A).
  { unfold A. rewrite !in_app_iff. intros [Hin|[Hin|[Hin|[Hin|Hin]]]].
    - rewrite Forall_forall in Ho. apply Ho in Hin. discriminate Hin.
    - apply In_init_events_in in Hin.
      destruct Hin as [[text Hin]|[Hin|Hin]]; discriminate Hin.
    - apply In_run_line in Hin. destruct Hin as [Hin _]. discriminate Hin.
    - destruct Hin as [Hin|[]]. discriminate Hin.
    - apply In_arrival_mark in Hin. discriminate Hin. }
  assert (HnoB : ~ In (CallMonitor q (result m)) B).
  { unfold B. rewrite !in_app_iff. intros [Hin|[Hin|Hin]].
    - apply In_sig_mark in Hin. destruct Hin as [Hin _]. discriminate Hin.
    - apply In_done_events_in in Hin.
      destruct Hin as [[text Hin]|[Hin|Hin]]; discriminate Hin.
    - apply In_free_line in Hin. destruct Hin as [Hin _]. discriminate Hin. }
  assert (Hq0 : q0 = 0 \/ q0 = SIGINT).
  { unfold q0. destruct (reply_cases r (after_arrival sg 0)) as [[_ ->]|[_ ->]];
      [|auto].
    destruct (arrival_cases sg 0) as [[_ ->]|[_ ->]]; auto. }
  assert (HAsig : In Sigint A <-> q = SIGINT).
  { unfold A. rewrite !in_app_iff.
    pose proof (Sigint_init_events_in (debug (m_args st0))
                  (serial (m_args st0)) sg r) as Hi. fold q0 in Hi.
    split.
    - intros [Hin|[Hin|[Hin|[Hin|Hin]]]].
      + rewrite Forall_forall in Ho. apply Ho in Hin. discriminate Hin.
      + apply Hi in Hin. unfold q.
        destruct (arrival_cases (tl sg) q0) as [[_ ->]|[_ ->]]; [|reflexivity].
        destruct Hq0; congruence.
      + apply In_run_line in Hin. destruct Hin as [Hin _]. discriminate Hin.
      + destruct Hin as [Hin|[]]. discriminate Hin.
      + unfold q. destruct (arrival_cases (tl sg) q0) as [[Hm' _]|[_ ->]];
          [rewrite Hm' in Hin; contradiction | reflexivity].
    - intros Hq. unfold q in Hq.
      destruct (arrival_cases (tl sg) q0) as [[_ Ha]|[Hm' _]].
      + rewrite Ha in Hq. right. left. apply Hi. rewrite Hq. discriminate.
      + do 4 right. rewrite Hm'. left. reflexivity. }
  split; [|split; [|split]].
  - rewrite Ht.
    rewrite !calls_of_app, calls_of_init_events_in, calls_of_run_line,
      calls_of_arrival_mark, calls_of_sig_mark, calls_of_done_events_in,
      calls_of_free_line, (calls_of_outputs Ho).
    fold r. rewrite Er. reflexivity.
  - rewrite Ht, !in_app_iff. do 3 right. left. left. reflexivity.
  - unfold q. destruct (arrival_cases (tl sg) q0) as [[_ ->]|[_ ->]]; auto.
  - intros pre post Hsplit.
    rewrite HtA in Hsplit.
    apply split_after_prefix in Hsplit; [|exact Hno].
    destruct Hsplit as (pre' & -> & Hsplit).
    destruct pre' as [|x pre'].
    + rewrite app_nil_r. symmetry. exact HAsig.
    + exfalso. cbn [app] in Hsplit. inversion Hsplit as [[Hx Hrest]].
      apply HnoB. rewrite Hrest. apply in_or_app. right. left. reflexivity.
Qed.

(** X12. In List mode (the [monitor] member clear, the [list] member
    set), whatever the ordering, the signals and the targets: once [Open]
    has succeeded the device is called three times, [Open], [ListRecord]
    and [Close]; the banner is written to stderr; the exit status is 0;
    and [ListRecord] is handed the flag set exactly when a SIGINT arrived
    before it was entered. *)
Theorem List_run (o : ordering) (sg : arrivals) (dmm : D)
    (argv : list string) (st0 : state D) :
  ParseArguments_in o argv (Program dmm) = (0, st0) ->
  monitor (m_args st0) = false ->
  list_ (m_args st0) = true ->
  let a := m_args st0 in
  result (Open dev (serial a) dmm) = true ->
  let t := trace (snd (main_in dev o sg dmm argv)) in
  exists q,
    fst (main_in dev o sg dmm argv) = 0 /\
    calls_of t = [CallOpen (serial a) true; CallListRecord q; CallClose] /\
    In (Stderr ("Ctrl-C to abort if it takes too long" ++ nl)) t /\
    (q = 0 \/ q = SIGINT) /\
    (forall pre post,
        t = (pre ++ CallListRecord q :: post)%list ->
        (q = SIGINT <-> In Sigint pre)).
Proof.
  intros Hp Hm Hl. cbv zeta. intros Er.
  pose proof (main_in_list dev o sg dmm argv Hp Hm Hl) as H.
  cbv zeta in H. specialize (H Er). destruct H as (Hs & Ht & Ho).
  set (r := Open dev (serial (m_args st0)) dmm) in *.
  set (q0 := after_call r (after_arrival sg 0)) in *.
  set (q := after_arrival (tl sg) q0) in *.
  set (m := ListRecord dev q (device r)) in *.
  exists q.
  split; [exact Hs|].
  set (t := trace (snd (main_in dev o sg dmm argv))) in *.
  set (A := (trace st0 ++
             init_events_in (debug (m_args st0)) (serial (m_args st0)) sg r ++
             run_line "Program::Run" (debug (m_args st0)) ++
             [Stderr ("Ctrl-C to abort if it takes too long" ++ nl)] ++
             arrival_mark (tl sg))%list).
  set (B := (sig_mark m ++
             done_events_in (debug (m_args st0)) (tl (tl sg))
               (Close dev (device m)) ++
             free_line (m_args st0) (debug (m_args st0)))%list).
  assert (HtA : t = (A ++ CallListRecord q :: B)%list).
  { rewrite Ht. unfold A, B. rewrite <- !app_assoc. reflexivity. }
  assert (Hno : ~ In (CallListRecord q) A).
  { unfold A. rewrite !in_app_iff. intros [Hin|[Hin|[Hin|[Hin|Hin]]]].
    - rewrite Forall_forall in Ho. apply Ho in Hin. discriminate Hin.
    - apply In_init_events_in in Hin.
      destruct Hin as [[text Hin]|[Hin|Hin]]; discriminate Hin.
    - apply In_run_line in Hin. destruct Hin as [Hin _]. discriminate Hin.
    - destruct Hin as [Hin|[]]. discriminate Hin.
    - apply In_arrival_mark in Hin. discriminate Hin. }
  assert (HnoB : ~ In (CallListRecord q) B).
  { unfold B. rewrite !in_app_iff. intros [Hin|[Hin|Hin]].
    - apply In_sig_mark in Hin. destruct Hin as [Hin _]. discriminate Hin.
    - apply In_done_events_in in Hin.
      destruct Hin as [[text Hin]|[Hin|Hin]]; discriminate Hin.
    - apply In_free_line in Hin. destruct Hin as [Hin _]. discriminate Hin. }
  assert (Hq0 : q0 = 0 \/ q0 = SIGINT).
  { unfold q0. destruct (reply_cases r (after_arrival sg 0)) as [[_ ->]|[_ ->]];
      [|auto].
    destruct (arrival_cases sg 0) as [[_ ->]|[_ ->]]; auto. }
  assert (HAsig : In Sigint A <-> q = SIGINT).
  { unfold A. rewrite !in_app_iff.
    pose proof (Sigint_init_events_in (debug (m_args st0))
                  (serial (m_args st0)) sg r) as Hi. fold q0 in Hi.
    split.
    - intros [Hin|[Hin|[Hin|[Hin|Hin]]]].
      + rewrite Forall_forall in Ho. apply Ho in Hin. discriminate Hin.
      + apply Hi in Hin. unfold q.
        destruct (arrival_cases (tl sg) q0) as [[_ ->]|[_ ->]]; [|reflexivity].
        destruct Hq0; congruence.
      + apply In_run_line in Hin. destruct Hin as [Hin _]. discriminate Hin.
      + destruct Hin as [Hin|[]]. discriminate Hin.
      + unfold q. destruct (arrival_cases (tl sg) q0) as [[Hm' _]|[_ ->]];
          [rewrite Hm' in Hin; contradiction | reflexivity].
    - intros Hq. unfold q in Hq.
      destruct (arrival_cases (tl sg) q0) as [[_ Ha]|[Hm' _]].
      + rewrite Ha in Hq. right. left. apply Hi. rewrite Hq. discriminate.
      + do 4 right. rewrite Hm'. left. reflexivity. }
  split; [|split; [|split]].
  - rewrite Ht.
    rewrite !calls_of_app, calls_of_init_events_in, calls_of_run_line,
      calls_of_arrival_mark, calls_of_sig_mark, calls_of_done_events_in,
      calls_of_free_line, (calls_of_outputs Ho).
    fold r. rewrite Er. reflexivity.
  - rewrite Ht, !in_app_iff. do 3 right. left. left. reflexivity.
  - unfold q. destruct (arrival_cases (tl sg) q0) as [[_ ->]|[_ ->]]; auto.
  - intros pre post Hsplit.
    rewrite HtA in Hsplit.
    apply split_after_prefix in Hsplit; [|exact Hno].
    destruct Hsplit as (pre' & -> & Hsplit).
    destruct pre' as [|x pre'].
    + rewrite app_nil_r. symmetry. exact HAsig.
    + exfalso. cbn [app] in Hsplit. inversion Hsplit as [[Hx Hrest]].
      apply HnoB. rewrite Hrest. apply in_or_app. right. left. reflexivity.
Qed.

(** X13. A SIGINT that arrives before the first target's turn begins --
    once the handler is installed and before [Open] is entered, while
    [Open] runs, or after it and before the first test of the flag --
    cancels Receive mode before it starts, whatever the ordering and the
    later signals: [Open] succeeds, no target is received, the device is
    closed and the exit status is 0. *)
Theorem Early_signal_cancels_receive (o : ordering) (sg : arrivals)
    (dmm : D) (argv : list string) (st0 : state D) :
  ParseArguments_in o argv (Program dmm) = (0, st0) ->
  monitor (m_args st0) = false ->
  list_ (m_args st0) = false ->
  0 < item_count (m_args st0) ->
  let a := m_args st0 in
  let r := Open dev (serial a) dmm in
  result r = true ->
  hd false sg = true \/ sigint r = true \/ hd false (tl sg) = true ->
  fst (main_in dev o sg dmm argv) = 0 /\
  calls_of (trace (snd (main_in dev o sg dmm argv))) =
    [CallOpen (serial a) true; CallClose] /\
  In Sigint (trace (snd (main_in dev o sg dmm argv))) /\
  In (Stderr ("Ctrl-C to abort the long operation" ++ nl))
     (trace (snd (main_in dev o sg dmm argv))).
Proof.
  intros Hp Hm Hl Hi. cbv zeta. intros Er Hsig.
  pose proof (main_in_receive dev o sg dmm argv Hp Hm Hl Hi) as H.
  cbv zeta in H. specialize (H Er).
  set (r := Open dev (serial (m_args st0)) dmm) in *.
  set (q0 := after_call r (after_arrival sg 0)) in *.
  assert (Hq : after_arrival (tl sg) q0 <> 0).
  { unfold q0, after_call.
    destruct Hsig as [Hs|[Hs|Hs]].
    - destruct sg as [|b sg]; cbn [hd] in Hs; [discriminate Hs|]. subst b.
      cbn [after_arrival tl].
      destruct (arrival_cases sg (if sigint r then SIGINT else SIGINT))
        as [[_ ->]|[_ ->]]; destruct (sigint r); discriminate.
    - rewrite Hs.
      destruct (arrival_cases (tl sg) SIGINT) as [[_ ->]|[_ ->]]; discriminate.
    - destruct (tl sg) as [|b sg']; cbn [hd] in Hs; [discriminate Hs|].
      subst b. discriminate. }
  assert (Hsi : In Sigint
                  (init_events_in (debug (m_args st0)) (serial (m_args st0)) sg r
                   ++ arrival_mark (tl sg))%list).
  { destruct (arrival_cases (tl sg) q0) as [[_ Ha]|[Hm' _]].
    - rewrite Ha in Hq. apply in_or_app. left.
      apply Sigint_init_events_in. exact Hq.
    - apply in_or_app. right. rewrite Hm'. left. reflexivity. }
  pose proof (receive_run_in_stop dev (items (m_args st0)) (tl sg) q0
                (device r) Hq) as Hstop.
  assert (Hev : items (m_args st0) <> [] ->
                exists x, fst (fst (fst (receive_run_in dev (items (m_args st0))
                                           (tl sg) q0 (device r))))
                          = (arrival_mark (tl sg) ++ [Poll x])%list).
  { intros Hne. destruct (items (m_args st0)) as [|t l]; [congruence|].
    cbn [receive_run_in]. apply Z.eqb_neq in Hq. rewrite Hq. cbn [negb fst].
    eauto. }
  destruct (@ParseArguments_in_items D o argv _ _ Hp eq_refl) as (Hlen & _).
  assert (Hne : items (m_args st0) <> []).
  { intros E. rewrite E in Hlen. cbn [List.length] in Hlen. lia. }
  destruct (Hev Hne) as (x & Hx).
  destruct (receive_run_in dev _ _ _ _) as [[[evs q'] d'] sg'].
  cbn [fst] in Hstop, Hx.
  destruct H as (Hs & Ht & Ho & _).
  split; [exact Hs|]. split; [|split].
  - rewrite Ht.
    rewrite !calls_of_app, calls_of_init_events_in, calls_of_run_line,
      calls_of_done_events_in, calls_of_free_line, (calls_of_outputs Ho), Hstop.
    fold r. rewrite Er. reflexivity.
  - rewrite Ht, Hx. rewrite in_app_iff in Hsi. rewrite !in_app_iff.
    destruct Hsi as [Hin|Hin]; tauto.
  - rewrite Ht, !in_app_iff. left. right. right. right. left. reflexivity.
Qed.

(** X14. After a successful parse and a successful [Open], whatever the
    ordering and the signals, at a debug level of 9 or more the three
    life-cycle lines are written to stderr in the order Init, Run, Done,
    each before the device calls of its phase: [Open] lies between the
    first two, the calls of the mode between the last two, [Close] after
    the third.  Below level 9 the only text written to stderr is the
    banner of the mode. *)
Theorem Debug_trace_lines (o : ordering) (sg : arrivals) (dmm : D)
    (argv : list string) (st0 : state D) :
  ParseArguments_in o argv (Program dmm) = (0, st0) ->
  let a := m_args st0 in
  result (Open dev (serial a) dmm) = true ->
  let g := debug a in
  let t := trace (snd (main_in dev o sg dmm argv)) in
  (9 <= g ->
   exists t2 t3 t4,
     t = (trace st0 ++ Stderr ("Program::Init" ++ nl) :: t2 ++
          Stderr ("Program::Run" ++ nl) :: t3 ++
          Stderr ("Program::Done" ++ nl) :: t4)%list /\
     calls_of t2 = [CallOpen (serial a) true] /\
     Forall (fun e => is_mode_call e = true) (calls_of t3) /\
     calls_of t4 = [CallClose]) /\
  (g < 9 ->
   forall text, In (Stderr text) t ->
     text = "Ctrl-C to quit the monitor" ++ nl \/
     text = "Ctrl-C to abort if it takes too long" ++ nl \/
     text = "Ctrl-C to abort the long operation" ++ nl).
Proof.
  intros Hp. cbv zeta. intros Er.
  destruct (main_in_parsed dev o sg dmm argv Hp)
    as (body & sg' & c & Ht & Hb & _).
  cbv zeta in Ht. rewrite Er in Ht. rewrite Ht. split.
  - intros Hg. apply Z.leb_le in Hg.
    unfold init_events_in, done_events_in, run_line. rewrite Hg, Er. cbn [app].
    exists (arrival_mark sg ++ CallOpen (serial (m_args st0)) true
            :: sig_mark (Open dev (serial (m_args st0)) dmm))%list,
           body,
           (arrival_mark sg' ++ CallClose :: sig_mark c
            ++ free_line (m_args st0) (debug (m_args st0)))%list.
    split; [repeat (rewrite <- ?app_assoc, ?app_nil_r; cbn [app]); reflexivity|].
    split; [|split].
    + rewrite calls_of_app, calls_of_arrival_mark.
      change (calls_of (CallOpen ?s ?b :: ?l)) with (CallOpen s b :: calls_of l).
      rewrite calls_of_sig_mark. reflexivity.
    + apply calls_of_run_events_in. exact Hb.
    + rewrite calls_of_app, calls_of_arrival_mark.
      change (calls_of (CallClose :: ?l)) with (CallClose :: calls_of l).
      rewrite calls_of_app, calls_of_sig_mark, calls_of_free_line. reflexivity.
  - intros Hg text Hin.
    assert (E9 : (9 <=? debug (m_args st0)) = false) by (apply Z.leb_gt; exact Hg).
    destruct (ParseArguments_in_ok_output _ _ _ Hp) as (out & Hout & Ho).
    cbn [Program trace app] in Hout. rewrite Hout in Hin.
    unfold init_events_in, done_events_in, run_line in Hin.
    rewrite E9, Er in Hin.
    cbn [app] in Hin. rewrite Forall_forall in Ho, Hb.
    repeat (rewrite in_app_iff in Hin || cbn [In] in Hin).
    repeat match type of Hin with
           | _ \/ _ => destruct Hin as [Hin|Hin]
           end;
      first
        [ contradiction
        | discriminate Hin
        | destruct (Ho _ Hin) as (x & Hx & _); discriminate Hx
        | apply In_arrival_mark in Hin; discriminate Hin
        | apply In_sig_mark in Hin; destruct Hin as [Hx _]; discriminate Hx
        | apply In_free_line in Hin; destruct Hin as [Hx _]; discriminate Hx
        | destruct (Hb _ Hin) as [[Hx|[Hx|[Hx|[Hx|[Hx|Hx]]]]]|[q Hx]];
          try discriminate Hx; injection Hx as ->;
          first [ left; reflexivity | right; left; reflexivity
                | right; right; reflexivity ] ].
Qed.

(** X15. When no serial string was given and [Open] fails, whatever the
    ordering and the signals, the exit status is -1 and the only texts
    written to stderr are the trace line of [Init] (at level 9 or more)
    and the line reporting the failure: the line that names the serial
    string is not written; and [Open] is the only call of the device:
    it is not closed. *)
Theorem Open_failure_without_serial (o : ordering) (sg : arrivals) (dmm : D)
    (argv : list string) (st0 : state D) :
  ParseArguments_in o argv (Program dmm) = (0, st0) ->
  serial (m_args st0) = None ->
  result (Open dev None dmm) = false ->
  let t := trace (snd (main_in dev o sg dmm argv)) in
  let failure :=
    "Failed to open UT181A DMM. Please check device connection or settings."
    ++ nl in
  fst (main_in dev o sg dmm argv) = -1 /\
  calls_of t = [CallOpen None false] /\
  In (Stderr failure) t /\
  forall text, In (Stderr text) t ->
    text = failure \/ (text = "Program::Init" ++ nl /\ 9 <= debug (m_args st0)).
Proof.
  intros Hp Hs Er. cbv zeta.
  destruct (main_in_parsed dev o sg dmm argv Hp)
    as (body & sg' & c & Ht & _ & _ & _ & Hf).
  cbv zeta in Ht, Hf. rewrite Hs in *. rewrite Er in *.
  split; [apply Hf; reflexivity|]. rewrite Ht.
  destruct (ParseArguments_in_ok_output _ _ _ Hp) as (out & Hout & Ho).
  cbn [Program trace app] in Hout. rewrite Hout.
  split; [|split].
  - assert (Hout' : Forall (fun e => exists text, e = Stdout text) out).
    { eapply Forall_impl; [|exact Ho]. intros e (text & Hx & _). eauto. }
    rewrite !calls_of_app, (calls_of_stdout Hout'), calls_of_init_events_in,
      calls_of_free_line, Er. reflexivity.
  - unfold init_events_in. rewrite Er.
    rewrite !in_app_iff. right. left. right. right. right. right. left.
    reflexivity.
  - intros text Hin. unfold init_events_in in Hin. rewrite Er in Hin.
    rewrite Forall_forall in Ho.
    repeat (rewrite in_app_iff in Hin || cbn [In] in Hin).
    repeat match type of Hin with
           | _ \/ _ => destruct Hin as [Hin|Hin]
           end;
      first
        [ contradiction
        | discriminate Hin
        | injection Hin as <-; left; reflexivity
        | destruct (Ho _ Hin) as (x & Hx & _); discriminate Hx
        | apply In_arrival_mark in Hin; discriminate Hin
        | apply In_sig_mark in Hin; destruct Hin as [Hx _]; discriminate Hx
        | apply In_free_line in Hin; destruct Hin as [Hx _]; discriminate Hx
        | apply In_run_line in Hin; destruct Hin as [Hx Hg];
          injection Hx as ->; right; split; [reflexivity | exact Hg] ].
Qed.

(** X16. The destructor writes its line last of all, and exactly when the
    parse succeeded with one target or more at a debug level of 9 or
    more, whether [Open] succeeded or not and whatever the ordering and
    the signals; and it leaves [items] empty. *)
Theorem Free_memory_line (o : ordering) (sg : arrivals) (dmm : D)
    (argv : list string) :
  let p := ParseArguments_in o argv (Program dmm) in
  let a := m_args (snd p) in
  trace (snd (main_in dev o sg dmm argv)) =
    (trace (snd (Main_in dev o sg argv (Program dmm))) ++
     if (fst p =? 0) && (0 <? item_count a) && (9 <=? debug a)
     then [Stdout ("Free memory" ++ nl)] else [])%list /\
  items (m_args (snd (main_in dev o sg dmm argv))) = [].
Proof.
  cbv zeta. split.
  - destruct (main_in_Main dev o sg dmm argv) as [_ ->]. f_equal.
    pose proof (Main_in_fresh dev o sg dmm argv) as H.
    destruct (ParseArguments_in o argv (Program dmm)) as [rc0 st0] eqn:Ep.
    cbv zeta in H. destruct H as [-> _]. cbn [fst snd].
    destruct (rc0 =? 0) eqn:E0; cbn [andb].
    + apply Z.eqb_eq in E0. subst rc0.
      destruct (@ParseArguments_in_items D o argv _ _ Ep eq_refl) as (Hlen & _).
      assert (Hfree : free_line (m_args st0) (debug (m_args st0)) =
                (if (0 <? item_count (m_args st0)) && (9 <=? debug (m_args st0))
                 then [Stdout ("Free memory" ++ nl)] else [])).
      { unfold free_line.
        destruct (items (m_args st0)) as [|x l]; cbn [List.length] in Hlen.
        - destruct (0 <? item_count (m_args st0)) eqn:E; [|reflexivity].
          apply Z.ltb_lt in E. lia.
        - destruct (0 <? item_count (m_args st0)) eqn:E; [reflexivity|].
          apply Z.ltb_ge in E. lia. }
      destruct (result (Open dev (serial (m_args st0)) dmm)).
      * match goal with
        | |- context [Run_in_outcome dev ?g ?s] =>
            destruct (Run_in_outcome_frame dev g s) as (Hg & Ha & _);
            destruct (Run_in_outcome dev g s) as [[rc sg3] st3]
        end.
        cbn [snd m_args g_debug] in *. unfold advance. cbn [m_args g_debug].
        rewrite Ha, Hg. exact Hfree.
      * cbn [snd m_args g_debug]. exact Hfree.
    + assert (Hne : fst (ParseArguments_in o argv (Program dmm)) <> 0).
      { rewrite Ep. cbn [fst]. apply Z.eqb_neq. exact E0. }
      pose proof (ParseArguments_in_no_items o argv (Program dmm) Hne) as Hit.
      pose proof (ParseArguments_in_prints o argv (Program dmm))
        as (_ & _ & Hg & _).
      rewrite Ep in Hit, Hg. cbn [snd Program m_args items g_debug] in Hit, Hg.
      unfold free_line. cbn [snd]. rewrite Hit. reflexivity.
  - unfold main_in, Program_destructor. monad.
    destruct (Main_in dev o sg argv (Program dmm)) as [rc st]. cbn [fst snd].
    destruct (items (m_args st)) eqn:E; monad; [exact E|].
    destruct (9 <=? g_debug st); monad; reflexivity.
Qed.

End MoreProperties.

Section HarmlessProperties.
Variable D : Type.
Variable dev : Device D.

(** X17. With [POSIXLY_CORRECT] unset, a command line of harmless elements
    only is read from left to right: the parse returns 0 without a
    diagnostic; the targets are the positional arguments in their order
    (an element that follows [-d], [-s], [--debug] or [--serial] is the
    argument of that option, not a target); each option sets its member,
    a later one overriding an earlier one. *)
Theorem Harmless_line_read_left_to_right (dmm : D) (prog : string)
    (l : list string) :
  benign l = true ->
  let p := ParseArguments_in PERMUTE (prog :: l) (Program dmm) in
  let a := m_args (snd p) in
  let b := harmless_args l (m_args (Program dmm)) in
  fst p = 0 /\
  items a = positionals l /\
  item_count a = Z.of_nat (List.length (positionals l)) /\
  monitor a = monitor b /\ list_ a = list_ b /\
  debug a = debug b /\ serial a = serial b /\
  forall e, ~ In (GetoptStderr e) (trace (snd p)).
Proof.
  intros Hb. cbv zeta. rewrite ParseArguments_in_PERMUTE.
  pose proof (ParseArguments_harmless prog l dmm Hb) as Hp. cbv zeta in Hp.
  destruct (ParseArguments_ok_output _ _ Hp) as (out & Ht & Ho).
  rewrite Hp. cbn [fst snd m_args items item_count monitor list_ debug serial].
  repeat (split; [reflexivity|]).
  intros e He. cbn [trace] in Ht. rewrite Ht in He. cbn [Program trace app] in He.
  rewrite Forall_forall in Ho. destruct (Ho _ He) as (text & Hx & _).
  discriminate Hx.
Qed.

(** X18. With [POSIXLY_CORRECT] unset, after harmless elements, ["--"]
    ends the options: the parse returns 0 and every element behind
    ["--"] is a target, in its place after the positional arguments that
    came before, whether or not it looks like an option; the members are
    what the elements before ["--"] set. *)
Theorem Double_dash_ends_the_options (dmm : D) (prog : string)
    (pre post : list string) :
  benign pre = true ->
  let p := ParseArguments_in PERMUTE (prog :: pre ++ "--" :: post)
             (Program dmm) in
  let a := m_args (snd p) in
  let b := harmless_args pre (m_args (Program dmm)) in
  fst p = 0 /\
  items a = (positionals pre ++ post)%list /\
  item_count a = Z.of_nat (List.length (positionals pre ++ post)) /\
  monitor a = monitor b /\ list_ a = list_ b /\
  debug a = debug b /\ serial a = serial b.
Proof.
  intros Hb. cbv zeta. rewrite ParseArguments_in_PERMUTE.
  rewrite (@ParseArguments_scanned D prog pre ("--" :: post) post dmm 1 Hb
             (fun argc d => @getopt_long_double_dash argc d post)
             ltac:(cbn [List.length]; lia)).
  cbn [fst snd m_args items item_count monitor list_ debug serial].
  repeat split.
Qed.

(** X19. The number given to [-d] in decimal is the debug level, for every
    [int], negative ones included (the argument of [-d] is taken as it
    stands), under either ordering; at 9 or more the echo line shows the
    number as it was typed. *)
Theorem Debug_level_round_trip (o : ordering) (dmm : D) (prog : string)
    (n : Z) :
  INT_MIN <= n < 2 ^ 31 ->
  ParseArguments_in o [prog; "-d"; fmt_d n] (Program dmm) =
  (0, {| m_dmm := dmm;
         m_args := {| list_ := false; monitor := false; debug := n;
                      serial := None; item_count := 0; items := [] |};
         quit_flag := 0; g_debug := 0;
         trace := if 9 <=? n
                  then [Stdout ("Option -d with value: " ++ fmt_d n ++ nl);
                        Stdout ("Positional argument count: " ++ fmt_d 0 ++ nl)]
                  else [] |}).
Proof.
  intros Hn.
  rewrite (@ParseArguments_in_option_argument D o prog "-d" "d"%char)
    by (left; reflexivity).
  rewrite (@ParseArguments_harmless D prog ["-d"; fmt_d n] dmm eq_refl).
  cbn [harmless_args harmless_output positionals NONOPTION_P flag_alone
       String.eqb Ascii.eqb Bool.eqb orb andb negb Program m_args list_ monitor debug
       serial item_count items List.length Z.of_nat app].
  rewrite (atoi_fmt_d Hn). destruct (9 <=? n); reflexivity.
Qed.

(** X20. Record numbers given in decimal are the numbers received: for
    identifiers from 0 to [INT_MAX], given as the only elements of the
    command line, under either ordering, with a device that opens and no
    signal, [ReceiveRecord] is called once for each identifier, with that
    identifier and the flag clear, in the order given, between [Open] and
    [Close]. *)
Theorem Decimal_targets_received (o : ordering) (sg : arrivals) (dmm : D)
    (prog : string) (ids : list Z) :
  ids <> [] ->
  Forall (fun n => 0 <= n < 2 ^ 31) ids ->
  result (Open dev None dmm) = true ->
  sigint (Open dev None dmm) = false ->
  (forall i q d, sigint (ReceiveRecord dev i q d) = false) ->
  Forall (fun b => b = false) sg ->
  fst (main_in dev o sg dmm (prog :: map fmt_d ids)) = 0 /\
  calls_of (trace (snd (main_in dev o sg dmm (prog :: map fmt_d ids)))) =
    (CallOpen None true
     :: map (fun n => CallReceiveRecord n 0) ids ++ [CallClose])%list.
Proof.
  intros Hne Hids Er Es Hquiet Hsg.
  assert (H : benign (map fmt_d ids) = true /\
              positionals (map fmt_d ids) = map fmt_d ids /\
              (forall a, harmless_args (map fmt_d ids) a = a) /\
              map receive_call (map fmt_d ids)
              = map (fun n => CallReceiveRecord n 0) ids).
  { clear Hne. induction Hids as [|n k Hn _ IH].
    - repeat split.
    - destruct IH as (H1 & H2 & H3 & H4).
      assert (Hno : NONOPTION_P (fmt_d n) = true)
        by (apply NONOPTION_P_fmt_d; lia).
      cbn [map benign positionals harmless_args]. rewrite Hno. cbn [orb].
      rewrite H2, H4. unfold receive_call at 1.
      rewrite atoi_fmt_d by (unfold INT_MIN; lia).
      repeat split; auto. }
  destruct H as (Hb & Hpos & Hargs & Hmap).
  assert (Hp : exists st0,
             ParseArguments_in o (prog :: map fmt_d ids) (Program dmm)
             = (0, st0) /\
             monitor (m_args st0) = false /\ list_ (m_args st0) = false /\
             serial (m_args st0) = None /\
             items (m_args st0) = map fmt_d ids /\
             item_count (m_args st0) = Z.of_nat (List.length ids)).
  { destruct o.
    - destruct ids as [|n k]; [congruence|]. cbn [map].
      inversion Hids as [|? ? Hn _]; subst.
      rewrite (@Posix_first_positional_ends_the_options D dmm prog (fmt_d n)
                 (map fmt_d k)) by (apply NONOPTION_P_fmt_d; lia).
      eexists. split; [reflexivity|].
      cbn [m_args monitor list_ serial items item_count List.length].
      rewrite length_map. repeat split.
    - rewrite ParseArguments_in_PERMUTE.
      rewrite (ParseArguments_harmless prog (map fmt_d ids) dmm Hb).
      eexists. split; [reflexivity|].
      cbn [m_args monitor list_ serial items item_count].
      rewrite Hargs, Hpos, length_map. repeat split. }
  destruct Hp as (st0 & Hp & Hm & Hl & Hs & Hit & Hic).
  assert (Hi : 0 < item_count (m_args st0)).
  { rewrite Hic. destruct ids; [congruence | cbn [List.length]; lia]. }
  pose proof (main_in_receive dev o sg dmm (prog :: map fmt_d ids) Hp Hm Hl Hi)
    as H.
  cbv zeta in H. rewrite Hs, Hit in H. specialize (H Er).
  assert (Hq0 : after_call (Open dev None dmm) (after_arrival sg 0) = 0).
  { unfold after_call. rewrite Es.
    destruct Hsg as [|b s Hb0 _]; [reflexivity | subst b; reflexivity]. }
  rewrite Hq0 in H.
  assert (Htl : Forall (fun b => b = false) (tl sg))
    by (destruct Hsg; [constructor | assumption]).
  pose proof (receive_run_in_calm dev (map fmt_d ids) Hquiet
                (device (Open dev None dmm)) Htl) as Hrun.
  destruct (receive_run_in dev _ _ _ _) as [[[evs q'] d'] sg'].
  cbn [fst] in Hrun.
  destruct H as (Hrc & Htr & Ho & _).
  split; [exact Hrc|].
  rewrite Htr, !calls_of_app, calls_of_init_events_in, !calls_of_run_line,
    calls_of_done_events_in, calls_of_free_line, (calls_of_outputs Ho), Er,
    Hrun, Hmap.
  reflexivity.
Qed.

End HarmlessProperties.

(* ===================================================================== *)
(** ** The properties on examples                                        *)
(* ===================================================================== *)

(** [-s XYZ 1] with no device connected. *)
Lemma Open_failure_reported_witness :
  let argv := ["ut181a"; "-s"; "XYZ"; "1"] in
  fst (main Mock.absent tt argv) = -1 /\
  In (Stderr ("Is the serial string '" ++ "XYZ" ++ "' correct?" ++ nl))
     (trace (snd (main Mock.absent tt argv))) /\
  calls_of (trace (snd (main Mock.absent tt argv)))
  = [CallOpen (Some "XYZ") false].
Proof.
  cbv zeta.
  apply (@Open_failure_reported unit Mock.absent tt
           ["ut181a"; "-s"; "XYZ"; "1"]
           (snd (ParseArguments ["ut181a"; "-s"; "XYZ"; "1"] (Program tt)))
           "XYZ");
    reflexivity.
Defined.

(** No argument at all, no device connected. *)
Lemma Idle_opens_session_first_witness :
  exists after,
    trace (snd (main Mock.absent tt ["ut181a"])) = after /\
    calls_of after = [CallOpen None false] /\
    fst (main Mock.absent tt ["ut181a"]) = -1 /\
    ~ In (Stdout help_msg) (trace (snd (main Mock.absent tt ["ut181a"]))).
Proof.
  destruct (@Idle_opens_session_first unit Mock.absent tt ["ut181a"]
              (snd (ParseArguments ["ut181a"] (Program tt)))
              eq_refl eq_refl eq_refl ltac:(vm_compute; discriminate))
    as (after & Ht & H).
  exists after. split; [exact Ht | exact H].
Defined.

(** [-d 3] with a device that opens. *)
Lemma Idle_exit_status_witness :
  exists after,
    trace (snd (main Mock.quiet tt ["ut181a"; "-d"; "3"])) = after /\
    fst (main Mock.quiet tt ["ut181a"; "-d"; "3"]) = 0 /\
    ~ In (Stdout help_msg) (trace (snd (main Mock.quiet tt ["ut181a"; "-d"; "3"]))) /\
    outputs_of after = [].
Proof.
  destruct (@Idle_exit_status unit Mock.quiet tt ["ut181a"; "-d"; "3"]
              (snd (ParseArguments ["ut181a"; "-d"; "3"] (Program tt)))
              eq_refl eq_refl eq_refl ltac:(vm_compute; discriminate) eq_refl)
    as (after & Ht & _ & H).
  destruct (H ltac:(vm_compute; reflexivity)) as (Hrc & Hno & Hout).
  exists after. split; [exact Ht|]. split; [exact Hrc|]. split; [exact Hno|].
  apply Hout. vm_compute. reflexivity.
Defined.

(** C2 on an example: three targets, Ctrl-C after the test of the flag
    for the second target and before the call that receives it.  The
    second target is still handed to the device, with the flag set; the
    third is not. *)
Lemma Receive_in_order_until_signal_witness :
  let sg := [false; false; false; false; true] in
  let argv := ["ut181a"; "1"; "2"; "3"] in
  let t := trace (snd (main_in Mock.quiet PERMUTE sg tt argv)) in
  t = [CallOpen None true;
       Stderr ("Ctrl-C to abort the long operation" ++ nl);
       Poll 0; CallReceiveRecord 1 0;
       Poll 0; Sigint; CallReceiveRecord 2 SIGINT;
       Poll SIGINT; CallClose] /\
  subseq ["1"; "2"; "3"] ["1"; "2"; "3"] /\
  (exists qs : list Z,
     (List.length qs <= 3)%nat /\
     calls_of t =
       (CallOpen None true
        :: receive_calls (firstn (List.length qs) ["1"; "2"; "3"]) qs
        ++ [CallClose])%list /\
     ((List.length qs < 3)%nat -> In Sigint t)) /\
  (forall n q, INT_MIN <= n < 2 ^ 31 ->
     receive_calls [fmt_d n] [q] = [CallReceiveRecord n q]) /\
  (forall pre i q post,
      t = (pre ++ CallReceiveRecord i q :: post)%list ->
      exists p m,
        pre = (p ++ Poll 0 :: m)%list /\ ~ In Sigint p /\ signals_only m /\
        (m = [] -> q = 0) /\ (m <> [] -> q = SIGINT)) /\
  (forall pre q post,
      t = (pre ++ Poll q :: post)%list -> In Sigint pre ->
      q <> 0 /\
      forall e, In e post -> is_call e = true -> e = CallClose) /\
  (forall pre post,
      t = (pre ++ Poll 0 :: post)%list ->
      exists m i q post',
        post = (m ++ CallReceiveRecord i q :: post')%list /\ signals_only m).
Proof.
  cbv zeta. split; [reflexivity|].
  exact (@Receive_in_order_until_signal unit Mock.quiet PERMUTE
           [false; false; false; false; true] tt
           ["ut181a"; "1"; "2"; "3"]
           (snd (ParseArguments_in PERMUTE ["ut181a"; "1"; "2"; "3"]
                   (Program tt)))
           eq_refl eq_refl eq_refl eq_refl eq_refl).
Defined.

(** The targets [1 abc 2]. *)
Lemma Malformed_target_resolves_to_zero_witness :
  atoi "abc" = 0 /\
  fst (main Mock.quiet tt ["ut181a"; "1"; "abc"; "2"]) = 0 /\
  calls_of (trace (snd (main Mock.quiet tt ["ut181a"; "1"; "abc"; "2"]))) =
    [CallOpen None true; CallReceiveRecord 1 0; CallReceiveRecord 0 0;
     CallReceiveRecord 2 0; CallClose].
Proof.
  exact (@Malformed_target_resolves_to_zero unit Mock.quiet tt
           ["ut181a"; "1"; "abc"; "2"]
           (snd (ParseArguments ["ut181a"; "1"; "abc"; "2"] (Program tt)))
           ["1"] ["2"] "abc"
           eq_refl eq_refl eq_refl eq_refl eq_refl eq_refl
           (fun _ _ _ => eq_refl) eq_refl).
Defined.


(** [7 -l -v] followed by [--bogus -h 9]: the version request wins. *)
Lemma Help_version_end_the_scan_witness :
  let argv := ["ut181a"; "7"; "-l"; "-v"] in
  let post := ["--bogus"; "-h"; "9"] in
  let run := main Mock.quiet tt (argv ++ post) in
  let parsed := snd (ParseArguments (D := unit) (argv ++ post) (Program tt)) in
  run = main Mock.quiet tt argv /\
  fst run = 2 /\
  items (m_args parsed) = [] /\
  item_count (m_args parsed) = 0 /\
  calls_of (trace (snd run)) = [] /\
  (forall e, ~ In (GetoptStderr e) (trace (snd run))) /\
  (exists out, trace (snd run) = (out ++ [Stdout (version_info ++ nl)])%list).
Proof.
  exact (@Help_version_end_the_scan unit Mock.quiet tt
           ["ut181a"; "7"; "-l"; "-v"] ["--bogus"; "-h"; "9"]
           (or_intror eq_refl)).
Defined.


(** C4 as stated fails: without a device the idle run ends with -1, not
    1; and at debug level 9 the idle run prints its trace lines. *)
Lemma Idle_status_counterexample :
  (let m := m_args (snd (ParseArguments (D := unit) ["ut181a"] (Program tt))) in
   monitor m = false /\ list_ m = false /\ items m = [] /\ debug m = 0) /\
  fst (main Mock.absent tt ["ut181a"]) = -1 /\
  (let m := m_args (snd (ParseArguments (D := unit) ["ut181a"; "-d"; "9"]
                           (Program tt))) in
   monitor m = false /\ list_ m = false /\ items m = [] /\ debug m = 9) /\
  fst (main Mock.quiet tt ["ut181a"; "-d"; "9"]) = 0 /\
  outputs_of (trace (snd (main Mock.quiet tt ["ut181a"; "-d"; "9"]))) =
    [Stdout ("Option -d with value: 9" ++ nl);
     Stdout ("Positional argument count: 0" ++ nl);
     Stderr ("Program::Init" ++ nl);
     Stderr ("Program::Run" ++ nl);
     Stderr ("Program::Done" ++ nl)].
Proof. repeat split. Qed.

(** C7 as stated fails: ["12abc"] is not a non-negative integer, and it
    is received as record 12, not 0. *)
Lemma Malformed_target_counterexample :
  valid_nonneg_integer "12abc" = false /\
  calls_of (trace (snd (main Mock.quiet tt ["ut181a"; "12abc"; "7"]))) =
    [CallOpen None true; CallReceiveRecord 12 0; CallReceiveRecord 7 0;
     CallClose] /\
  ~ In (CallReceiveRecord 0 0)
       (trace (snd (main Mock.quiet tt ["ut181a"; "12abc"; "7"]))).
Proof.
  split; [reflexivity|]. split; [reflexivity|].
  vm_compute. intros H.
  repeat (destruct H as [H|H]; [discriminate H|]). exact H.
Qed.

(** *** The further properties on examples *)

(** [-d 9 -x]: an option the program does not have. *)
Lemma Parse_error_reported_witness :
  let run := main_in Mock.quiet REQUIRE_ORDER [true] tt
               ["ut181a"; "-d"; "9"; "-x"] in
  exists out e,
    trace (snd run) = (out ++ [GetoptStderr e; Stdout help_msg])%list /\
    Forall (fun x => exists text, x = Stdout text) out /\
    fst run = -1 /\
    calls_of (trace (snd run)) = [].
Proof.
  exact (@Parse_error_reported unit Mock.quiet REQUIRE_ORDER [true] tt
           ["ut181a"; "-d"; "9"; "-x"] eq_refl).
Defined.

(** [-m -l 5], Ctrl-C pressed after [Open] has returned: Monitor mode
    wins over the list flag and the target, and [Monitor] is handed the
    flag set. *)
Lemma Monitor_run_witness :
  let argv := ["ut181a"; "-m"; "-l"; "5"] in
  let t := trace (snd (main_in Mock.quiet PERMUTE [false; true] tt argv)) in
  calls_of t = [CallOpen None true; CallMonitor SIGINT true; CallClose] /\
  exists q ok,
    fst (main_in Mock.quiet PERMUTE [false; true] tt argv)
    = (if ok : bool then 0 else -1) /\
    calls_of t = [CallOpen None true; CallMonitor q ok; CallClose] /\
    In (Stderr ("Ctrl-C to quit the monitor" ++ nl)) t /\
    (q = 0 \/ q = SIGINT) /\
    (forall pre post,
        t = (pre ++ CallMonitor q ok :: post)%list ->
        (q = SIGINT <-> In Sigint pre)).
Proof.
  split; [reflexivity|].
  exact (@Monitor_run unit Mock.quiet PERMUTE [false; true] tt
           ["ut181a"; "-m"; "-l"; "5"]
           (snd (ParseArguments_in PERMUTE ["ut181a"; "-m"; "-l"; "5"]
                   (Program tt)))
           eq_refl eq_refl eq_refl).
Defined.

(** [-l 5] while Ctrl-C is pressed during [Open]: [ListRecord] is
    handed the flag already set. *)
Lemma List_run_witness :
  let argv := ["ut181a"; "-l"; "5"] in
  let t := trace (snd (main_in Mock.interrupted_open PERMUTE [] tt argv)) in
  calls_of t = [CallOpen None true; CallListRecord SIGINT; CallClose] /\
  exists q,
    fst (main_in Mock.interrupted_open PERMUTE [] tt argv) = 0 /\
    calls_of t = [CallOpen None true; CallListRecord q; CallClose] /\
    In (Stderr ("Ctrl-C to abort if it takes too long" ++ nl)) t /\
    (q = 0 \/ q = SIGINT) /\
    (forall pre post,
        t = (pre ++ CallListRecord q :: post)%list ->
        (q = SIGINT <-> In Sigint pre)).
Proof.
  split; [reflexivity|].
  exact (@List_run unit Mock.interrupted_open PERMUTE [] tt
           ["ut181a"; "-l"; "5"]
           (snd (ParseArguments_in PERMUTE ["ut181a"; "-l"; "5"] (Program tt)))
           eq_refl eq_refl eq_refl eq_refl).
Defined.

(** [1 2 3], Ctrl-C pressed after [Open] has returned and before the
    first test of the flag. *)
Lemma Early_signal_cancels_receive_witness :
  let argv := ["ut181a"; "1"; "2"; "3"] in
  let run := main_in Mock.quiet REQUIRE_ORDER [false; true] tt argv in
  fst run = 0 /\
  calls_of (trace (snd run)) = [CallOpen None true; CallClose] /\
  In Sigint (trace (snd run)) /\
  In (Stderr ("Ctrl-C to abort the long operation" ++ nl)) (trace (snd run)).
Proof.
  exact (@Early_signal_cancels_receive unit Mock.quiet REQUIRE_ORDER
           [false; true] tt ["ut181a"; "1"; "2"; "3"]
           (snd (ParseArguments_in REQUIRE_ORDER ["ut181a"; "1"; "2"; "3"]
                   (Program tt)))
           eq_refl eq_refl eq_refl eq_refl eq_refl
           (or_intror (or_intror eq_refl))).
Defined.

(** [7 -h -- -m] with [POSIXLY_CORRECT] set: four targets. *)
Lemma Posix_first_positional_ends_the_options_witness :
  ParseArguments_in (D := unit) REQUIRE_ORDER
    ["ut181a"; "7"; "-h"; "--"; "-m"] (Program tt) =
  (0, {| m_dmm := tt;
         m_args := {| list_ := false; monitor := false; debug := 0;
                      serial := None; item_count := 4;
                      items := ["7"; "-h"; "--"; "-m"] |};
         quit_flag := 0; g_debug := 0; trace := [] |}).
Proof.
  exact (@Posix_first_positional_ends_the_options unit tt "ut181a" "7"
           ["-h"; "--"; "-m"] eq_refl).
Defined.

(** [3 -s x 4 -- -l]: three targets out of six elements. *)
Lemma Targets_array_in_bounds_witness :
  let argv := ["ut181a"; "3"; "-s"; "x"; "4"; "--"; "-l"] in
  let a := m_args (snd (ParseArguments_in (D := unit) PERMUTE argv
                          (Program tt))) in
  items a = ["3"; "4"; "-l"] /\
  List.length (items a) = Z.to_nat (item_count a) /\
  targets_read a = items a /\
  (forall t, In t (items a) -> In t (tl argv)) /\
  (argv <> [] ->
   item_count a = Z.of_nat (List.length (items a)) /\
   0 <= item_count a < argc_of argv) /\
  (argv = [] -> item_count a = -1 /\ items a = []).
Proof.
  split; [reflexivity|].
  exact (@Targets_array_in_bounds unit PERMUTE tt
           ["ut181a"; "3"; "-s"; "x"; "4"; "--"; "-l"]
           (snd (ParseArguments_in PERMUTE
                   ["ut181a"; "3"; "-s"; "x"; "4"; "--"; "-l"] (Program tt)))
           eq_refl).
Defined.

(** [-d 9 7], Ctrl-C pressed before [Close]: the three lines around the
    calls. *)
Lemma Debug_trace_lines_witness :
  let argv := ["ut181a"; "-d"; "9"; "7"] in
  let sg := [false; false; false; false; true] in
  let st0 := snd (ParseArguments_in (D := unit) PERMUTE argv (Program tt)) in
  exists t2 t3 t4,
    trace (snd (main_in Mock.quiet PERMUTE sg tt argv)) =
      (trace st0 ++ Stderr ("Program::Init" ++ nl) :: t2 ++
       Stderr ("Program::Run" ++ nl) :: t3 ++
       Stderr ("Program::Done" ++ nl) :: t4)%list /\
    calls_of t2 = [CallOpen None true] /\
    Forall (fun e => is_mode_call e = true) (calls_of t3) /\
    calls_of t4 = [CallClose].
Proof.
  exact (proj1 (@Debug_trace_lines unit Mock.quiet PERMUTE
                  [false; false; false; false; true] tt
                  ["ut181a"; "-d"; "9"; "7"]
                  (snd (ParseArguments_in PERMUTE ["ut181a"; "-d"; "9"; "7"]
                          (Program tt)))
                  eq_refl eq_refl)
           ltac:(vm_compute; discriminate)).
Defined.

(** No argument, no device. *)
Lemma Open_failure_without_serial_witness :
  let run := main_in Mock.absent PERMUTE [true] tt ["ut181a"] in
  let t := trace (snd run) in
  let failure :=
    "Failed to open UT181A DMM. Please check device connection or settings."
    ++ nl in
  fst run = -1 /\
  calls_of t = [CallOpen None false] /\
  In (Stderr failure) t /\
  forall text, In (Stderr text) t ->
    text = failure \/ (text = "Program::Init" ++ nl /\ 9 <= 0).
Proof.
  exact (@Open_failure_without_serial unit Mock.absent PERMUTE [true] tt
           ["ut181a"]
           (snd (ParseArguments_in PERMUTE ["ut181a"] (Program tt)))
           eq_refl eq_refl eq_refl).
Defined.

(** [3 -s -m --debug 2 4 -l]: [-m] is the serial string here. *)
Lemma Harmless_line_read_left_to_right_witness :
  let p := ParseArguments_in (D := unit) PERMUTE
             ["ut181a"; "3"; "-s"; "-m"; "--debug"; "2"; "4"; "-l"]
             (Program tt) in
  let a := m_args (snd p) in
  fst p = 0 /\
  items a = ["3"; "4"] /\
  item_count a = 2 /\
  monitor a = false /\ list_ a = true /\
  debug a = 2 /\ serial a = Some "-m" /\
  forall e, ~ In (GetoptStderr e) (trace (snd p)).
Proof.
  exact (@Harmless_line_read_left_to_right unit tt "ut181a"
           ["3"; "-s"; "-m"; "--debug"; "2"; "4"; "-l"] eq_refl).
Defined.

(** [1 -d 3 -- -h 2]: [-h] is a target. *)
Lemma Double_dash_ends_the_options_witness :
  let p := ParseArguments_in (D := unit) PERMUTE
             ["ut181a"; "1"; "-d"; "3"; "--"; "-h"; "2"] (Program tt) in
  let a := m_args (snd p) in
  fst p = 0 /\
  items a = ["1"; "-h"; "2"] /\
  item_count a = 3 /\
  monitor a = false /\ list_ a = false /\
  debug a = 3 /\ serial a = None.
Proof.
  exact (@Double_dash_ends_the_options unit tt "ut181a"
           ["1"; "-d"; "3"] ["-h"; "2"] eq_refl).
Defined.

(** [-d -42] with [POSIXLY_CORRECT] set and [-d 2147483647] without. *)
Lemma Debug_level_round_trip_witness :
  debug (m_args (snd (ParseArguments_in (D := unit) REQUIRE_ORDER
                        ["ut181a"; "-d"; "-42"] (Program tt)))) = -42 /\
  ParseArguments_in (D := unit) PERMUTE ["ut181a"; "-d"; "2147483647"]
    (Program tt) =
  (0, {| m_dmm := tt;
         m_args := {| list_ := false; monitor := false; debug := 2147483647;
                      serial := None; item_count := 0; items := [] |};
         quit_flag := 0; g_debug := 0;
         trace := [Stdout ("Option -d with value: 2147483647" ++ nl);
                   Stdout ("Positional argument count: 0" ++ nl)] |}).
Proof.
  split.
  - exact (f_equal (fun p => debug (m_args (snd p)))
             (@Debug_level_round_trip unit REQUIRE_ORDER tt "ut181a" (-42)
                ltac:(unfold INT_MIN; lia))).
  - exact (@Debug_level_round_trip unit PERMUTE tt "ut181a" 2147483647
             ltac:(unfold INT_MIN; lia)).
Defined.

(** The records 0, 17 and 2147483647, with [POSIXLY_CORRECT] set. *)
Lemma Decimal_targets_received_witness :
  let argv := ["ut181a"; "0"; "17"; "2147483647"] in
  let run := main_in Mock.quiet REQUIRE_ORDER [false; false] tt argv in
  fst run = 0 /\
  calls_of (trace (snd run)) =
    [CallOpen None true; CallReceiveRecord 0 0; CallReceiveRecord 17 0;
     CallReceiveRecord 2147483647 0; CallClose].
Proof.
  exact (@Decimal_targets_received unit Mock.quiet REQUIRE_ORDER
           [false; false] tt "ut181a"
           [0; 17; 2147483647] ltac:(discriminate)
           ltac:(repeat constructor; lia)
           eq_refl eq_refl (fun _ _ _ => eq_refl)
           ltac:(repeat constructor)).
Defined.
